(** * EnAr dataset translation pipeline: a shallow embedding

    The first part follows the layout of the Python sources:

    - [core/config.py]          constants ([Config]);
    - [core/postprocessing.py]  the validation gate ([Postprocessing]);
    - [core/preprocessing.py]   text cleaning and term rewriting
                                ([Preprocessing]);
    - [core/rate_limiter.py]    the sliding-window limiter ([RateLimiter]);
    - [core/pipeline.py]        retry engine, orchestration and checkpoints
                                ([Pipeline]);
    - [core/dataset_loader.py]  the choice of the file and of its format,
                                the check of the columns ([DatasetLoader]);
    - [translate.py]            the columns kept in the output ([Translate]);
    - [core/config_loader.py]   the defaults and the merge of the
                                configuration file ([ConfigLoader]).

    Python [str] values are sequences of Unicode code points and are modelled
    as lists of integers.  Python floats that hold times and ratios are
    modelled by exact rationals.  Effects (the clock, the providers, the
    checkpoint files, exceptions) are threaded through a state and error
    monad that also records the provider calls and the sleeps of a run.
    A frame holds its cells without the types of its columns; the text of
    a number once pandas has converted its row to one type is taken from
    the environment, like the answers of the providers.
    The limiter's lock, logging and the wall-clock statistics are left out.

    The modules named [...Spec] hold the notions the properties are stated
    with; the second part proves the properties. *)

From Stdlib Require Import ZArith List String Ascii Bool Lia QArith Lqa.
From Stdlib Require Import Sorting.Sorted Sorting.Permutation DecimalString.
From Stdlib Require DecimalPos DecimalZ.
Import ListNotations.
Open Scope Z_scope.

(** ** Python strings *)

Module PyStr.

Definition char := Z.
Definition pystr := list char.

(** An ASCII literal seen as a Python string. *)
Definition py (s : string) : pystr :=
  map (fun a => Z.of_N (N_of_ascii a)) (list_ascii_of_string s).

Definition len {A : Type} (s : list A) : Z := Z.of_nat (List.length s).

Definition in_range (lo hi c : char) : bool := (lo <=? c) && (c <=? hi).

(** [str.isspace] on one code point; the regular-expression class [\s]
    of a [str] pattern is the same set. *)
Definition is_space (c : char) : bool :=
  in_range 0x09 0x0D c || in_range 0x1C 0x20 c || (c =? 0x85) || (c =? 0xA0)
  || (c =? 0x1680) || in_range 0x2000 0x200A c || (c =? 0x2028)
  || (c =? 0x2029) || (c =? 0x202F) || (c =? 0x205F) || (c =? 0x3000).

Fixpoint lstrip (s : pystr) : pystr :=
  match s with
  | [] => []
  | c :: rest => if is_space c then lstrip rest else s
  end.

Definition rstrip (s : pystr) : pystr := rev (lstrip (rev s)).

(** [s.strip()] *)
Definition strip (s : pystr) : pystr := rstrip (lstrip s).

Fixpoint str_eqb (a b : pystr) : bool :=
  match a, b with
  | [], [] => true
  | x :: a', y :: b' => (x =? y) && str_eqb a' b'
  | _, _ => false
  end.

(** [a < b] on strings: lexicographic by code point. *)
Fixpoint str_ltb (a b : pystr) : bool :=
  match a, b with
  | _, [] => false
  | [], _ :: _ => true
  | x :: a', y :: b' => (x <? y) || ((x =? y) && str_ltb a' b')
  end.

(** [text.startswith(lit)] *)
Fixpoint startswith (lit text : pystr) : bool :=
  match lit, text with
  | [], _ => true
  | _ :: _, [] => false
  | p :: lit', c :: text' => (p =? c) && startswith lit' text'
  end.

Definition endswith (lit text : pystr) : bool := startswith (rev lit) (rev text).

(** Truthiness of a string: [if text]. *)
Definition truthy (s : pystr) : bool :=
  match s with [] => false | _ :: _ => true end.

End PyStr.
Export PyStr.

(** ** The regular-expression forms the sources use *)

Module Re.

(** [bool(re.search('[class]', text))] *)
Definition search_class (cls : char -> bool) (text : pystr) : bool :=
  existsb cls text.

(** [re.findall('[class]', text)]: one match per character of the class. *)
Definition findall_class (cls : char -> bool) (text : pystr) : list pystr :=
  map (fun c => [c]) (filter cls text).

(** [re.sub('[class]', repl, text)] *)
Definition sub_class (cls : char -> bool) (repl text : pystr) : pystr :=
  flat_map (fun c => if cls c then repl else [c]) text.

(** [re.sub('[class]+', repl, text)]: every maximal run becomes one [repl]. *)
Fixpoint sub_class_plus_go (cls : char -> bool) (repl : pystr)
    (in_run : bool) (text : pystr) : pystr :=
  match text with
  | [] => []
  | c :: rest =>
      if cls c
      then if in_run
           then sub_class_plus_go cls repl true rest
           else repl ++ sub_class_plus_go cls repl true rest
      else c :: sub_class_plus_go cls repl false rest
  end.

Definition sub_class_plus (cls : char -> bool) (repl text : pystr) : pystr :=
  sub_class_plus_go cls repl false text.

(** [bool(re.search('a|b|c', text))] for literal alternatives. *)
Fixpoint search_alt (alts : list pystr) (text : pystr) : bool :=
  existsb (fun lit => startswith lit text) alts
  || match text with
     | [] => false
     | _ :: rest => search_alt alts rest
     end.

End Re.

(** ** core/config.py *)

Module Config.

Definition MAX_RETRIES : Z := 3.
Definition BACKOFF_MULTIPLIER : Z := 2.
Definition REQUEST_TIMEOUT : Z := 30.
Definition CHECKPOINT_INTERVAL : Z := 50.

Definition PROVIDER_TERMS : list (pystr * pystr) :=
  [ (py "ChatGPT", py "the AI assistant");
    (py "chatgpt", py "the AI assistant");
    (py "Chat GPT", py "the AI assistant");
    (py "OpenAI", py "the AI provider");
    (py "openai", py "the AI provider");
    (py "OpenAI's", py "the AI provider's");
    (py "GPT-4", py "the advanced language model");
    (py "GPT-3.5", py "the language model");
    (py "GPT-3", py "the language model");
    (py "gpt-4", py "the advanced language model");
    (py "gpt-3.5", py "the language model");
    (py "OpenAI API", py "the AI API");
    (py "ChatGPT API", py "the AI API") ].

Definition MIN_TRANSLATION_LENGTH : Z := 1.
Definition MAX_LENGTH_RATIO : Q := 3.
Definition MIN_LENGTH_RATIO : Q := 3 # 10.
Definition MIN_ARABIC_CHAR_RATIO : Q := 1 # 2.

End Config.

(** ** core/postprocessing.py *)

Module Postprocessing.
Import Config.

(** The class of U+0600-U+06FF, U+0750-U+077F and U+08A0-U+08FF. *)
Definition arabic_pattern (c : char) : bool :=
  in_range 0x0600 0x06FF c || in_range 0x0750 0x077F c
  || in_range 0x08A0 0x08FF c.

Definition has_arabic_chars (text : pystr) : bool :=
  Re.search_class arabic_pattern text.

Definition get_arabic_char_ratio (text : pystr) : Q :=
  if negb (truthy text) then 0%Q
  else
    let arabic_chars := len (Re.findall_class arabic_pattern text) in
    let total_chars := len (Re.sub_class is_space [] text) in
    (arabic_chars # Z.to_pos (Z.max total_chars 1))%Q.

Definition mojibake_patterns : list (list pystr) :=
  [ [ [0xC3; 0xA9]; [0xC3; 0xA8]; [0xC3; 0x20]; [0xC3; 0xA7] ];
    [ [0xE2; 0x20AC; 0x2122]; [0xE2; 0x20AC; 0x153]; [0xE2; 0x20AC; 0xFFFD] ];
    [ [0xFFFD] ] ].

Definition has_mojibake (text : pystr) : bool :=
  existsb (fun pattern => Re.search_alt pattern text) mojibake_patterns.

(** The [checks] dictionary, in insertion order. *)
Definition checks_dict := list (pystr * bool).

Definition validate_translation (original translated : pystr)
    : bool * checks_dict :=
  let not_empty := MIN_TRANSLATION_LENGTH <=? len (strip translated) in
  let has_arabic := has_arabic_chars translated in
  let arabic_ratio_ok :=
    Qle_bool MIN_ARABIC_CHAR_RATIO (get_arabic_char_ratio translated) in
  let reasonable_length :=
    if 0 <? len original
    then
      let length_ratio :=
        (len translated # Z.to_pos (len original))%Q in
      Qle_bool MIN_LENGTH_RATIO length_ratio
      && Qle_bool length_ratio MAX_LENGTH_RATIO
    else true in
  let no_encoding_errors := negb (has_mojibake translated) in
  let checks :=
    [ (py "not_empty", not_empty);
      (py "has_arabic", has_arabic);
      (py "arabic_ratio_ok", arabic_ratio_ok);
      (py "reasonable_length", reasonable_length);
      (py "no_encoding_errors", no_encoding_errors) ] in
  let is_valid := forallb snd checks in
  (is_valid, checks).

(** The class of the Alef forms U+0625, U+0623, U+0622 and U+0627. *)
Definition alef_forms (c : char) : bool :=
  (c =? 0x625) || (c =? 0x623) || (c =? 0x622) || (c =? 0x627).

Definition teh_marbuta (c : char) : bool := c =? 0x629.

Definition clean_arabic_text (text : pystr) : pystr :=
  if negb (truthy text) then []
  else
    let text := Re.sub_class alef_forms [0x627] text in
    let text := Re.sub_class teh_marbuta [0x629] text in
    let text := Re.sub_class_plus is_space [0x20] text in
    strip text.

Definition postprocess_translation (translated : pystr) : pystr :=
  clean_arabic_text translated.

End Postprocessing.

(** ** core/preprocessing.py *)

(** The Unicode tables behind a [str] pattern compiled by [re]: the word
    class [\w] that decides [\b], and the relation "pattern character [p]
    matches text character [c] under [re.IGNORECASE]". *)
Record Unicode : Type := {
  is_word : char -> bool;
  ci_match : char -> char -> bool
}.

Module Preprocessing.
Import Config.

Section Terms.
Variable U : Unicode.

Definition word_at (c : option char) : bool :=
  match c with Some x => is_word U x | None => false end.

(** [\b] between the characters [prev] and [next]; a missing neighbour is
    the start or the end of the string. *)
Definition boundary (prev next : option char) : bool :=
  xorb (word_at prev) (word_at next).

Fixpoint ci_startswith (lit text : pystr) : bool :=
  match lit, text with
  | [] , _ => true
  | _ :: _, [] => false
  | p :: lit', c :: text' => ci_match U p c && ci_startswith lit' text'
  end.

(** Does ['\b' + re.escape(term) + '\b'] match where [text] begins, the
    character before being [prev]? *)
Definition match_here (term : pystr) (prev : option char) (text : pystr)
    : bool :=
  boundary prev (hd_error text)
  && ci_startswith term text
  && boundary
       (match term with
        | [] => prev
        | _ :: _ => nth_error text (List.length term - 1)
        end)
       (hd_error (skipn (List.length term) text)).

(** [re.sub(pattern, repl, text, flags=re.IGNORECASE)]: leftmost matches,
    not overlapping, scanned over the input text.  [skip] counts the
    characters still covered by the last match.  The replacement [repl] is
    inserted as it is: this is [re.sub] for a replacement without
    backslash.  A backslash starts an escape of the replacement template,
    which [re.sub] expands, or refuses with [re.error] before it searches
    the text. *)
Fixpoint sub_term_go (term repl : pystr) (skip : nat) (prev : option char)
    (text : pystr) : pystr :=
  match text with
  | [] => if match_here term prev [] then repl else []
  | c :: rest =>
      match skip with
      | S k => sub_term_go term repl k (Some c) rest
      | O =>
          if match_here term prev text
          then match term with
               | [] => repl ++ c :: sub_term_go term repl 0 (Some c) rest
               | _ :: t =>
                   repl ++ sub_term_go term repl (List.length t) (Some c) rest
               end
          else c :: sub_term_go term repl 0 (Some c) rest
      end
  end.

Definition sub_term (term repl text : pystr) : pystr :=
  sub_term_go term repl 0 None text.

(** [mappings.update(custom)] on a dictionary kept in insertion order. *)
Fixpoint dict_set (k v : pystr) (d : list (pystr * pystr))
    : list (pystr * pystr) :=
  match d with
  | [] => [(k, v)]
  | (k', v') :: d' =>
      if str_eqb k k' then (k', v) :: d' else (k', v') :: dict_set k v d'
  end.

Definition dict_update (d custom : list (pystr * pystr))
    : list (pystr * pystr) :=
  fold_left (fun acc kv => dict_set (fst kv) (snd kv) acc) custom d.

(** [sorted(items, key=lambda x: len(x[0]), reverse=True)]: a stable sort,
    longest key first. *)
Fixpoint insert_by_len (x : pystr * pystr) (l : list (pystr * pystr))
    : list (pystr * pystr) :=
  match l with
  | [] => [x]
  | y :: l' =>
      if len (fst x) <=? len (fst y)
      then y :: insert_by_len x l'
      else x :: l
  end.

Definition sorted_by_len_desc (items : list (pystr * pystr))
    : list (pystr * pystr) :=
  fold_left (fun acc x => insert_by_len x acc) items [].

Definition sorted_terms (custom_mappings : option (list (pystr * pystr)))
    : list (pystr * pystr) :=
  let mappings := PROVIDER_TERMS in
  let mappings :=
    match custom_mappings with
    | Some (kv :: more) => dict_update mappings (kv :: more)
    | _ => mappings
    end in
  sorted_by_len_desc mappings.

(** Replacement texts are taken literally: those of [PROVIDER_TERMS] hold
    no backslash, and for custom mappings the definition stands for the
    code when theirs hold none either. *)
Definition normalize_provider_terms (text : pystr)
    (custom_mappings : option (list (pystr * pystr))) : pystr :=
  fold_left
    (fun normalized_text kv => sub_term (fst kv) (snd kv) normalized_text)
    (sorted_terms custom_mappings) text.

End Terms.

(** The class [[\x00-\x08\x0b-\x0c\x0e-\x1f\x7f-\x9f]]. *)
Definition control_chars (c : char) : bool :=
  in_range 0x00 0x08 c || in_range 0x0B 0x0C c || in_range 0x0E 0x1F c
  || in_range 0x7F 0x9F c.

Definition space_or_tab (c : char) : bool := (c =? 0x20) || (c =? 0x09).

(** For [\n\s*\n] tried right after a newline: the offset in [rest] of the
    newline that closes the match, the last one of the leading whitespace. *)
Fixpoint closing_newline (rest : pystr) : option nat :=
  match rest with
  | [] => None
  | c :: r =>
      if is_space c
      then match closing_newline r with
           | Some k => Some (S k)
           | None => if c =? 0x0A then Some O else None
           end
      else None
  end.

(** [re.sub('\n\s*\n', '\n\n', text)] *)
Fixpoint sub_blank_lines_go (skip : nat) (text : pystr) : pystr :=
  match text with
  | [] => []
  | c :: rest =>
      match skip with
      | S k => sub_blank_lines_go k rest
      | O =>
          if c =? 0x0A
          then match closing_newline rest with
               | Some k => [0x0A; 0x0A] ++ sub_blank_lines_go (S k) rest
               | None => c :: sub_blank_lines_go 0 rest
               end
          else c :: sub_blank_lines_go 0 rest
      end
  end.

Definition sub_blank_lines (text : pystr) : pystr := sub_blank_lines_go 0 text.

Definition clean_text (text : pystr) : pystr :=
  if negb (truthy text) then []
  else
    let text := Re.sub_class control_chars [] text in
    let text := Re.sub_class_plus space_or_tab [0x20] text in
    let text := sub_blank_lines text in
    strip text.

Definition preprocess_for_translation (U : Unicode) (text : pystr)
    (normalize_terms : bool) : pystr :=
  let text := clean_text text in
  if normalize_terms then normalize_provider_terms U text None else text.

(** The ASCII part of the Unicode tables, for running examples. *)
Definition ascii_lower (c : char) : char :=
  if in_range 0x41 0x5A c then c + 32 else c.

Definition ascii_unicode : Unicode := {|
  is_word := fun c =>
    in_range 0x30 0x39 c || in_range 0x41 0x5A c || in_range 0x61 0x7A c
    || (c =? 0x5F);
  ci_match := fun p c => ascii_lower p =? ascii_lower c
|}.

End Preprocessing.

(** ** The part of pandas the pipeline uses *)

Module Pandas.

(** A cell of a frame.  A numeric cell is kept as the text [str] gives for
    it as it is stored; the pipeline reads it through the row (see
    [row_value]). *)
Inductive cell : Type :=
  | CNone
  | CNaN
  | CStr (s : pystr)
  | CNum (rendering : pystr).

(** A frame: the row labels and, per column name, one value per row. *)
Record DataFrame : Type := {
  index : list Z;
  columns : list (pystr * list cell)
}.

Definition Series : Type := (list Z * list cell)%type.

(** [str(cell)] *)
Definition str_of_cell (c : cell) : pystr :=
  match c with
  | CNone => py "None"
  | CNaN => py "nan"
  | CStr s => s
  | CNum r => r
  end.


(** [range(start, stop)] *)
Definition range (start stop : Z) : list Z :=
  map (fun k => start + Z.of_nat k) (seq 0 (Z.to_nat (stop - start))).

(** [pd.DataFrame()] *)
Definition empty_frame : DataFrame := {| index := []; columns := [] |}.

Definition column_names (df : DataFrame) : list pystr :=
  map fst (columns df).

Definition has_column (df : DataFrame) (col : pystr) : bool :=
  existsb (str_eqb col) (column_names df).

Fixpoint get_column (cols : list (pystr * list cell)) (col : pystr)
    : option (list cell) :=
  match cols with
  | [] => None
  | (name, vals) :: rest =>
      if str_eqb col name then Some vals else get_column rest col
  end.

(** Replace the values of column [col], or add it as the last column. *)
Fixpoint put_column (cols : list (pystr * list cell)) (col : pystr)
    (vals : list cell) : list (pystr * list cell) :=
  match cols with
  | [] => [(col, vals)]
  | (name, old) :: rest =>
      if str_eqb col name then (name, vals) :: rest
      else (name, old) :: put_column rest col vals
  end.

(** [df[col] = value] for a scalar: broadcast over the rows. *)
Definition set_scalar (df : DataFrame) (col : pystr) (value : cell)
    : DataFrame :=
  {| index := index df;
     columns := put_column (columns df) col
                  (repeat value (List.length (index df))) |}.

Fixpoint series_lookup (labels : list Z) (vals : list cell) (label : Z)
    : cell :=
  match labels, vals with
  | l :: labels', v :: vals' =>
      if l =? label then v else series_lookup labels' vals' label
  | _, _ => CNaN
  end.

(** [series.reindex(labels)]: the value at each label, NaN where the series
    has no such label. *)
Definition reindex (s : Series) (labels : list Z) : list cell :=
  map (series_lookup (fst s) (snd s)) labels.

(** [df[col] = series]: the series is conformed to the frame's row labels;
    a frame that has no rows yet takes the labels of the series. *)
Definition set_series (df : DataFrame) (col : pystr) (s : Series)
    : DataFrame :=
  match index df, fst s with
  | [], _ :: _ =>
      {| index := fst s;
         columns :=
           put_column
             (map (fun nv => (fst nv, repeat CNaN (List.length (fst s))))
                  (columns df))
             col (snd s) |}
  | _, _ =>
      {| index := index df;
         columns := put_column (columns df) col (reindex s (index df)) |}
  end.

(** [df[col]] *)
Definition get_series (df : DataFrame) (col : pystr) : option Series :=
  match get_column (columns df) col with
  | Some vals => Some (index df, vals)
  | None => None
  end.

(** [df.at[label, col] = value]: in place where the label exists, else the
    frame is enlarged by a row. *)
Definition at_set (df : DataFrame) (label : Z) (col : pystr) (value : cell)
    : DataFrame :=
  let df :=
    if has_column df col then df
    else set_scalar df col CNaN in
  if existsb (Z.eqb label) (index df)
  then
    {| index := index df;
       columns :=
         map (fun nv =>
                if str_eqb col (fst nv)
                then (fst nv,
                      map (fun lv => if fst lv =? label then value else snd lv)
                          (combine (index df) (snd nv)))
                else nv)
             (columns df) |}
  else
    {| index := index df ++ [label];
       columns :=
         map (fun nv =>
                (fst nv,
                 snd nv ++ [if str_eqb col (fst nv) then value else CNaN]))
             (columns df) |}.

(** What a stored cell becomes in the Series of its row.  [df.iloc[idx]]
    holds the row in one array, of the common type of the columns, and
    pandas converts the numbers of the row to that type: beside a column
    of floats the integer 7 becomes 7.0.  [convert] maps the text of a
    stored number to the text [str] gives for it in the row.  A null keeps
    its kind, and so does a string. *)
Definition row_value (convert : pystr -> pystr) (c : cell) : cell :=
  match c with
  | CNum rendering => CNum (convert rendering)
  | _ => c
  end.

(** Does every column of the frame hold numbers only, NaN among them? *)
Definition numeric_frame (df : DataFrame) : bool :=
  forallb
    (fun nv =>
       forallb (fun c => match c with CNum _ | CNaN => true | _ => false end)
         (snd nv))
    (columns df).

(** The conversion of the numbers of a row.  A frame with a string or a
    None has a column of objects, the common type of its columns is
    object, and the numbers stay as they are stored.  In a frame of
    numbers the common type depends on the types of the columns, which a
    frame does not record here: the conversion is the caller's, [convert
    col] for the numbers of the column [col]. *)
Definition row_conversion (convert : pystr -> pystr -> pystr) (df : DataFrame)
    (col : pystr) : pystr -> pystr :=
  if numeric_frame df then convert col else fun rendering => rendering.

(** [df.iloc[idx]]: the row at a position, counted from the end when
    negative; [None] stands for the IndexError. *)
Definition iloc (convert : pystr -> pystr -> pystr) (df : DataFrame)
    (idx : Z) : option (list (pystr * cell)) :=
  let n := len (index df) in
  let pos := if idx <? 0 then idx + n else idx in
  if (0 <=? pos) && (pos <? n)
  then Some (map (fun nv =>
                    (fst nv,
                     row_value (row_conversion convert df (fst nv))
                       (nth (Z.to_nat pos) (snd nv) CNaN)))
                 (columns df))
  else None.

(** [row[col]]; [None] stands for the KeyError. *)
Fixpoint row_get (row : list (pystr * cell)) (col : pystr) : option cell :=
  match row with
  | [] => None
  | (name, v) :: rest => if str_eqb col name then Some v else row_get rest col
  end.

(** [df.iloc[:stop]] *)
Definition iloc_prefix (df : DataFrame) (stop : Z) : DataFrame :=
  let n := len (index df) in
  let k := Z.to_nat (if stop <? 0 then Z.max 0 (n + stop) else Z.min stop n) in
  {| index := firstn k (index df);
     columns := map (fun nv => (fst nv, firstn k (snd nv))) (columns df) |}.

(** The columns of a CSV file, as parsed. *)
Definition table : Type := list (pystr * list cell).

(** [pd.read_csv(file)]: rows are labelled 0, 1, ...; a file without
    columns is refused (EmptyDataError), which [None] stands for. *)
Definition read_csv (t : table) : option DataFrame :=
  match t with
  | [] => None
  | (_, vals) :: _ => Some {| index := range 0 (len vals); columns := t |}
  end.

End Pandas.

(** ** Effects: clock, providers, files, exceptions and the event trace *)

Module Effects.
Import Pandas.

Inductive exn : Type :=
  | IndexError
  | KeyError
  | ValueError
  | AttributeError
  | EmptyDataError
  | ApiException (msg : pystr).

(** The dictionary a provider adapter returns. *)
Record api_result : Type := {
  success : bool;
  translation : option pystr;
  error : option pystr
}.

Inductive api_outcome : Type :=
  | Returns (r : api_result)
  | Raises (e : exn).

Inductive event : Type :=
  | EvCall (api_name : pystr) (text : pystr) (timeout : Z) (out : api_outcome)
  | EvBackoff (seconds : Q)
  | EvRateSleep (seconds : Q).

(** What the program does not control: the successive readings of
    [time.time()], what each provider answers to its k-th call, what
    [read_csv] gives back for a column [to_csv] wrote, and the text of a
    number once pandas has put its row in one Series: for a frame [df] of
    numbers, [row_text df col rendering] is [str(df.iloc[idx][col])] for a
    cell of the column [col] whose stored value has the text
    [rendering]. *)
Record Env : Type := {
  unicode : Unicode;
  time_time : nat -> Q;
  nvidia_translate : nat -> pystr -> Z -> api_outcome;
  fanar_translate : nat -> pystr -> Z -> api_outcome;
  csv_column : list cell -> list cell;
  row_text : DataFrame -> pystr -> pystr -> pystr
}.

Record Stats : Type := {
  total : Z;
  successful : Z;
  failed : Z;
  nvidia_used : Z;
  fanar_used : Z;
  failed_rows : list (Z * pystr * option pystr)
}.

Record World : Type := {
  clock_reads : nat;
  nvidia_calls : nat;
  fanar_calls : nat;
  timestamps : list Q;
  stats : Stats;
  files : list (pystr * table)
}.

Inductive result (A : Type) : Type :=
  | Ok (a : A)
  | Err (e : exn).
Arguments Ok {A} a.
Arguments Err {A} e.

(** A computation: from a world to an outcome, the world after it and the
    events it produced, oldest first. *)
Definition M (A : Type) : Type := World -> result A * World * list event.

Definition ret {A : Type} (a : A) : M A := fun w => (Ok a, w, []).

Definition raise {A : Type} (e : exn) : M A := fun w => (Err e, w, []).

Definition bind {A B : Type} (c : M A) (k : A -> M B) : M B :=
  fun w =>
    match c w with
    | (Ok a, w1, ev1) =>
        match k a w1 with
        | (r, w2, ev2) => (r, w2, ev1 ++ ev2)
        end
    | (Err e, w1, ev1) => (Err e, w1, ev1)
    end.

(** [try: c  except Exception: handler] *)
Definition try_except {A : Type} (c : M A) (handler : exn -> M A) : M A :=
  fun w =>
    match c w with
    | (Ok a, w1, ev1) => (Ok a, w1, ev1)
    | (Err e, w1, ev1) =>
        match handler e w1 with
        | (r, w2, ev2) => (r, w2, ev1 ++ ev2)
        end
    end.

Definition emit (e : event) : M unit := fun w => (Ok tt, w, [e]).

Definition get_world : M World := fun w => (Ok w, w, []).

Definition put_world (w' : World) : M unit := fun _ => (Ok tt, w', []).

Definition of_option {A : Type} (o : option A) (e : exn) : M A :=
  match o with Some a => ret a | None => raise e end.

End Effects.

Declare Scope eff_scope.
Delimit Scope eff_scope with eff.
Notation "x <- c1 ;; c2" := (Effects.bind c1 (fun x => c2))
  (at level 61, c1 at next level, right associativity) : eff_scope.
Notation "' p <- c1 ;; c2" := (Effects.bind c1 (fun p => c2))
  (at level 61, p pattern, c1 at next level, right associativity) : eff_scope.
Notation "c1 ;; c2" := (Effects.bind c1 (fun _ => c2))
  (at level 61, right associativity) : eff_scope.

(** ** core/rate_limiter.py *)

Module RateLimiter.
Import Effects.
Open Scope eff_scope.

Definition Qgt_bool (a b : Q) : bool := negb (Qle_bool a b).

(** [time.time()] *)
Definition now_ (env : Env) : M Q :=
  fun w =>
    (Ok (time_time env (clock_reads w)),
     {| clock_reads := S (clock_reads w);
        nvidia_calls := nvidia_calls w;
        fanar_calls := fanar_calls w;
        timestamps := timestamps w;
        stats := stats w;
        files := files w |},
     []).

Definition set_timestamps (ts : list Q) : M unit :=
  fun w =>
    (Ok tt,
     {| clock_reads := clock_reads w;
        nvidia_calls := nvidia_calls w;
        fanar_calls := fanar_calls w;
        timestamps := ts;
        stats := stats w;
        files := files w |},
     []).

Definition get_timestamps : M (list Q) :=
  fun w => (Ok (timestamps w), w, []).

(** [while self.timestamps and now - self.timestamps[0] > 60: popleft()] *)
Fixpoint evict (now : Q) (ts : list Q) : list Q :=
  match ts with
  | [] => []
  | t0 :: rest =>
      if Qgt_bool (now - t0) 60 then evict now rest else ts
  end.

Definition remove_old (now : Q) : M unit :=
  ts <- get_timestamps ;; set_timestamps (evict now ts).

(** [self.timestamps[0]] *)
Definition oldest : M Q :=
  ts <- get_timestamps ;; of_option (hd_error ts) IndexError.

Section Limiter.
Variable env : Env.
Variable rpm : Z.

Definition acquire : M unit :=
  now <- now_ env ;;
  remove_old now ;;
  ts <- get_timestamps ;;
  now <-
    (if rpm <=? len ts
     then
       t0 <- oldest ;;
       let sleep_time := (60 - (now - t0))%Q in
       if Qgt_bool sleep_time 0
       then
         emit (EvRateSleep sleep_time) ;;
         now <- now_ env ;;
         remove_old now ;;
         ret now
       else ret now
     else ret now) ;;
  ts <- get_timestamps ;;
  set_timestamps (ts ++ [now]).

(** [max(0, x)] *)
Definition max0 (x : Q) : Q := if Qgt_bool x 0 then x else 0%Q.

Definition get_wait_time : M Q :=
  now <- now_ env ;;
  remove_old now ;;
  ts <- get_timestamps ;;
  if rpm <=? len ts
  then
    t0 <- oldest ;;
    ret (max0 (60 - (now - t0))%Q)
  else ret 0%Q.

End Limiter.

End RateLimiter.

(** ** core/pipeline.py *)

Module Pipeline.
Import Config Pandas Effects.
Open Scope eff_scope.

(** The configuration held by a [TranslationPipeline] object.  Logging and
    the wall-clock entries of the statistics are left out. *)
Record TranslationPipeline : Type := {
  columns_to_translate : list pystr;
  primary_api : pystr;
  enable_fallback : bool;
  preserve_all_columns : bool;
  normalize_provider_terms : bool;
  rate_limit_rpm : option Z
}.

(** [RateLimiter(rate_limit_rpm) if rate_limit_rpm else None] *)
Definition rate_limiter (self : TranslationPipeline) : option Z :=
  match rate_limit_rpm self with
  | Some rpm => if rpm =? 0 then None else Some rpm
  | None => None
  end.

Inductive provider : Type := Nvidia | Fanar.

(** The list [apis] of [translate_with_retry]. *)
Definition apis (self : TranslationPipeline) : list (pystr * provider) :=
  if str_eqb (primary_api self) (py "nvidia")
  then (py "nvidia", Nvidia)
       :: (if enable_fallback self then [(py "fanar", Fanar)] else [])
  else (py "fanar", Fanar)
       :: (if enable_fallback self then [(py "nvidia", Nvidia)] else []).

Section Run.
Variable env : Env.

(** [api_func(processed_text, timeout=REQUEST_TIMEOUT)] *)
Definition call_api (api_name : pystr) (api_func : provider) (text : pystr)
    (timeout : Z) : M api_result :=
  fun w =>
    let out :=
      match api_func with
      | Nvidia => nvidia_translate env (nvidia_calls w) text timeout
      | Fanar => fanar_translate env (fanar_calls w) text timeout
      end in
    let w' :=
      {| clock_reads := clock_reads w;
         nvidia_calls :=
           match api_func with
           | Nvidia => S (nvidia_calls w)
           | Fanar => nvidia_calls w
           end;
         fanar_calls :=
           match api_func with
           | Nvidia => fanar_calls w
           | Fanar => S (fanar_calls w)
           end;
         timestamps := timestamps w;
         stats := stats w;
         files := files w |} in
    (match out with Returns r => Ok r | Raises e => Err e end,
     w', [EvCall api_name text timeout out]).

(** [time.sleep(sleep_time)] of the backoff. *)
Definition backoff_sleep (sleep_time : Z) : M unit :=
  emit (EvBackoff (inject_Z sleep_time)).

Definition retry_result : Type := (option pystr * pystr * option pystr)%type.

(** The "Rate limiting" step of an attempt: [if self.rate_limiter: ...]. *)
Definition rate_limiting (self : TranslationPipeline) : M unit :=
  match rate_limiter self with
  | Some rpm =>
      wait_time <- RateLimiter.get_wait_time env rpm ;;
      RateLimiter.acquire env rpm
  | None => ret tt
  end.

(** The body of the [try] of one attempt: [Some r] when it returns [r] from
    [translate_with_retry], [None] when control reaches the backoff. *)
Definition attempt_body (self : TranslationPipeline) (api_name : pystr)
    (api_func : provider) (processed_text text : pystr)
    : M (option retry_result) :=
  rate_limiting self ;;
  result <- call_api api_name api_func processed_text REQUEST_TIMEOUT ;;
  if success result
  then
    (* [validate_translation] runs [translated.strip()], which a [None]
       translation does not have *)
    translation <- of_option (translation result) AttributeError ;;
    let '(is_valid, checks) :=
      Postprocessing.validate_translation text translation in
    if is_valid
    then
      let final_translation :=
        Postprocessing.postprocess_translation translation in
      ret (Some (Some final_translation, api_name, None))
    else ret None
  else ret None.

(** [for attempt in range(max_retries)] for one provider. *)
Fixpoint attempts_loop (self : TranslationPipeline) (api_name : pystr)
    (api_func : provider) (processed_text text : pystr) (max_retries : Z)
    (attempts : list Z) : M (option retry_result) :=
  match attempts with
  | [] => ret None
  | attempt :: rest =>
      r <- try_except
             (attempt_body self api_name api_func processed_text text)
             (fun e => ret None) ;;
      match r with
      | Some answer => ret (Some answer)
      | None =>
          (if attempt <? max_retries - 1
           then backoff_sleep (BACKOFF_MULTIPLIER ^ attempt)
           else ret tt) ;;
          attempts_loop self api_name api_func processed_text text
            max_retries rest
      end
  end.

(** [for api_name, api_func in apis] *)
Fixpoint apis_loop (self : TranslationPipeline)
    (processed_text text : pystr) (max_retries : Z)
    (todo : list (pystr * provider)) : M retry_result :=
  match todo with
  | [] => ret (None, py "failed", Some (py "All API attempts exhausted"))
  | (api_name, api_func) :: rest =>
      r <- attempts_loop self api_name api_func processed_text text
             max_retries (range 0 max_retries) ;;
      match r with
      | Some answer => ret answer
      | None => apis_loop self processed_text text max_retries rest
      end
  end.

Definition translate_with_retry (self : TranslationPipeline) (text : pystr)
    (max_retries : Z) : M retry_result :=
  let processed_text :=
    Preprocessing.preprocess_for_translation (unicode env) text
      (normalize_provider_terms self) in
  apis_loop self processed_text text max_retries (apis self).

(** *** Checkpoints *)

(** [str(n)] for an integer. *)
Definition str_of_int (n : Z) : pystr :=
  py (NilZero.string_of_int (Z.to_int n)).

Definition is_digit (c : char) : bool := in_range 0x30 0x39 c.

Fixpoint parse_digits (acc : Z) (after_underscore : bool) (s : pystr)
    : option Z :=
  match s with
  | [] => if after_underscore then None else Some acc
  | c :: rest =>
      if is_digit c then parse_digits (acc * 10 + (c - 0x30)) false rest
      else if (c =? 0x5F) && negb after_underscore
           then parse_digits acc true rest
           else None
  end.

Definition parse_unsigned (s : pystr) : option Z :=
  match s with
  | c :: rest => if is_digit c then parse_digits (c - 0x30) false rest else None
  | [] => None
  end.

(** [int(s)] on a string whose digits are ASCII: surrounding whitespace, a
    sign, decimal digits with single underscores between them; [None]
    stands for the ValueError.  ([int] also reads the decimal digits of
    other scripts; on a string that holds a character beyond ASCII this
    definition says nothing of the code when it gives [None].) *)
Definition py_int (s : pystr) : option Z :=
  match strip s with
  | 0x2D :: body => option_map Z.opp (parse_unsigned body)
  | 0x2B :: body => parse_unsigned body
  | body => parse_unsigned body
  end.

(** [s.split(sep)] for a one-character separator. *)
Fixpoint split_on (sep : char) (s : pystr) : list pystr :=
  match s with
  | [] => [[]]
  | c :: rest =>
      if c =? sep then [] :: split_on sep rest
      else match split_on sep rest with
           | piece :: pieces => (c :: piece) :: pieces
           | [] => [[c]]
           end
  end.

(** [name.rfind('.')], -1 when there is no dot. *)
Fixpoint rfind_dot (name : pystr) (i : Z) : Z :=
  match name with
  | [] => -1
  | c :: rest =>
      let later := rfind_dot rest (i + 1) in
      if 0 <=? later then later else if c =? 0x2E then i else -1
  end.

(** [Path(name).stem] *)
Definition stem (name : pystr) : pystr :=
  let i := rfind_dot name 0 in
  if (0 <? i) && (i <? len name - 1) then firstn (Z.to_nat i) name else name.

(** Does [name] match [checkpoint_*.csv]? *)
Definition is_checkpoint_name (name : pystr) : bool :=
  startswith (py "checkpoint_") name
  && endswith (py ".csv") name
  && (len (py "checkpoint_") + len (py ".csv") <=? len name).

Fixpoint insert_path (x : pystr) (l : list pystr) : list pystr :=
  match l with
  | [] => [x]
  | y :: l' => if str_ltb x y then x :: l else y :: insert_path x l'
  end.

(** [sorted(paths)]: paths of one directory compare as their names do. *)
Definition sorted_paths (names : list pystr) : list pystr :=
  fold_left (fun acc x => insert_path x acc) names [].

(** [sorted(self.checkpoint_dir.glob('checkpoint_*.csv'))] *)
Definition glob_checkpoints (w : World) : list pystr :=
  sorted_paths (filter is_checkpoint_name (map fst (files w))).

Fixpoint lookup_file (fs : list (pystr * table)) (name : pystr)
    : option table :=
  match fs with
  | [] => None
  | (n, t) :: rest => if str_eqb name n then Some t else lookup_file rest name
  end.

Fixpoint write_file (fs : list (pystr * table)) (name : pystr) (t : table)
    : list (pystr * table) :=
  match fs with
  | [] => [(name, t)]
  | (n, old) :: rest =>
      if str_eqb name n then (n, t) :: rest
      else (n, old) :: write_file rest name t
  end.

Definition set_files (fs : list (pystr * table)) : M unit :=
  fun w =>
    (Ok tt,
     {| clock_reads := clock_reads w;
        nvidia_calls := nvidia_calls w;
        fanar_calls := fanar_calls w;
        timestamps := timestamps w;
        stats := stats w;
        files := fs |},
     []).

Definition set_stats (s : Stats) : M unit :=
  fun w =>
    (Ok tt,
     {| clock_reads := clock_reads w;
        nvidia_calls := nvidia_calls w;
        fanar_calls := fanar_calls w;
        timestamps := timestamps w;
        stats := s;
        files := files w |},
     []).

(** [partial_df.to_csv(file, index=False)] *)
Definition to_csv (df : DataFrame) : table :=
  map (fun nv => (fst nv, csv_column env (snd nv))) (columns df).

Definition _save_checkpoint (df : DataFrame) (current_idx : Z) : M unit :=
  let checkpoint_file :=
    py "checkpoint_" ++ str_of_int current_idx ++ py ".csv" in
  let partial_df := iloc_prefix df current_idx in
  w <- get_world ;;
  set_files (write_file (files w) checkpoint_file (to_csv partial_df)).

(** The loop that copies the columns of the checkpoint into the result. *)
Definition copy_checkpoint_columns (checkpoint_df result_df : DataFrame)
    : DataFrame :=
  fold_left
    (fun result_df col =>
       if has_column result_df col
       then match get_series checkpoint_df col with
            | Some s => set_series result_df col s
            | None => result_df
            end
       else result_df)
    (column_names checkpoint_df) result_df.

(** The file [_load_checkpoint] reads: the named one, else the last of the
    sorted checkpoint files, if any. *)
Definition chosen_checkpoint (w : World) (checkpoint_name : option pystr)
    : option pystr :=
  match checkpoint_name with
  | Some (c :: name) => Some (c :: name)
  | _ =>
      let checkpoints := glob_checkpoints w in
      match checkpoints with
      | [] => None
      | _ :: _ => Some (last checkpoints [])
      end
  end.

(** [int(checkpoint_file.stem.split('_')[1])] *)
Definition resume_index (checkpoint_file : pystr) : M Z :=
  piece <- of_option (nth_error (split_on 0x5F (stem checkpoint_file)) 1)
             IndexError ;;
  of_option (py_int piece) ValueError.

(** [_load_checkpoint]: the index to resume from, with the result frame as
    the call leaves it. *)
Definition _load_checkpoint (result_df : DataFrame)
    (checkpoint_name : option pystr) : M (Z * DataFrame) :=
  w <- get_world ;;
  match chosen_checkpoint w checkpoint_name with
  | None => ret (0, result_df)
  | Some checkpoint_file =>
      match lookup_file (files w) checkpoint_file with
      | Some content =>
          checkpoint_df <- of_option (read_csv content) EmptyDataError ;;
          let result_df := copy_checkpoint_columns checkpoint_df result_df in
          resume_idx <- resume_index checkpoint_file ;;
          ret (resume_idx, result_df)
      | None => ret (0, result_df)
      end
  end.

(** *** The orchestrator *)

Definition bump_success (api_used : pystr) (s : Stats) : Stats :=
  {| total := total s;
     successful := successful s + 1;
     failed := failed s;
     nvidia_used :=
       if str_eqb api_used (py "nvidia") then nvidia_used s + 1
       else nvidia_used s;
     fanar_used :=
       if str_eqb api_used (py "nvidia") then fanar_used s
       else if str_eqb api_used (py "fanar") then fanar_used s + 1
            else fanar_used s;
     failed_rows := failed_rows s |}.

Definition bump_failure (idx : Z) (col : pystr) (error : option pystr)
    (s : Stats) : Stats :=
  {| total := total s;
     successful := successful s;
     failed := failed s + 1;
     nvidia_used := nvidia_used s;
     fanar_used := fanar_used s;
     failed_rows := failed_rows s ++ [(idx, col, error)] |}.

Definition set_total (n : Z) (s : Stats) : Stats :=
  {| total := n;
     successful := successful s;
     failed := failed s;
     nvidia_used := nvidia_used s;
     fanar_used := fanar_used s;
     failed_rows := failed_rows s |}.

Definition update_stats (f : Stats -> Stats) : M unit :=
  w <- get_world ;; set_stats (f (stats w)).

(** [if translation:] *)
Definition translation_truthy (translation : option pystr) : bool :=
  match translation with Some s => truthy s | None => false end.

(** [for col in self.columns_to_translate] for the row [idx]. *)
Fixpoint columns_loop (self : TranslationPipeline)
    (row : list (pystr * cell)) (idx : Z) (cols : list pystr)
    (result_df : DataFrame) : M DataFrame :=
  match cols with
  | [] => ret result_df
  | col :: rest =>
      value <- of_option (row_get row col) KeyError ;;
      let text := str_of_cell value in
      '(translation, api_used, error) <-
         translate_with_retry self text MAX_RETRIES ;;
      result_df <-
        (if translation_truthy translation
         then
           let result_df :=
             at_set result_df idx (col ++ py "_ar")
               (match translation with Some s => CStr s | None => CNone end) in
           let result_df :=
             at_set result_df idx (col ++ py "_api") (CStr api_used) in
           update_stats (bump_success api_used) ;;
           ret result_df
         else
           update_stats (bump_failure idx col error) ;;
           ret result_df) ;;
      columns_loop self row idx rest result_df
  end.

(** [for idx in range(start_idx, len(df))] *)
Fixpoint rows_loop (self : TranslationPipeline) (df : DataFrame)
    (rows : list Z) (result_df : DataFrame) : M DataFrame :=
  match rows with
  | [] => ret result_df
  | idx :: rest =>
      row <- of_option (iloc (row_text env df) df idx) IndexError ;;
      result_df <-
        columns_loop self row idx (columns_to_translate self) result_df ;;
      (if (idx + 1) mod CHECKPOINT_INTERVAL =? 0
       then _save_checkpoint result_df (idx + 1)
       else ret tt) ;;
      rows_loop self df rest result_df
  end.

(** The result frame before any translation: the copy of the input or an
    empty frame, with the two output columns of every requested column. *)
Definition init_result (self : TranslationPipeline) (df : DataFrame)
    : DataFrame :=
  let result_df := if preserve_all_columns self then df else empty_frame in
  fold_left
    (fun result_df col =>
       set_scalar (set_scalar result_df (col ++ py "_ar") CNone)
         (col ++ py "_api") CNone)
    (columns_to_translate self) result_df.

Definition translate_dataset (self : TranslationPipeline) (df : DataFrame)
    (resume_from_checkpoint : bool) (checkpoint_name : option pystr)
    : M DataFrame :=
  update_stats (set_total (len (index df))) ;;
  let result_df := init_result self df in
  '(start_idx, result_df) <-
     (if resume_from_checkpoint
      then _load_checkpoint result_df checkpoint_name
      else ret (0, result_df)) ;;
  rows_loop self df (range start_idx (len (index df))) result_df.

End Run.

End Pipeline.

(** ** core/dataset_loader.py *)

Module DatasetLoader.
Import Pandas.

Definition SUPPORTED_FORMATS : list pystr :=
  [py "csv"; py "tsv"; py "json"; py "jsonl"; py "parquet"].

(** [x in names], for a list or a set of strings. *)
Definition str_in (x : pystr) (names : list pystr) : bool :=
  existsb (str_eqb x) names.

(** The call to pandas that reads the file.  [PdReadCsv] is the read as
    UTF-8, made again as Latin-1 after a UnicodeDecodeError. *)
Inductive pandas_call : Type :=
  | PdReadCsv (path : pystr)
  | PdReadTsv (path : pystr)
  | PdReadJson (path : pystr)
  | PdReadJsonLines (path : pystr)
  | PdReadParquet (path : pystr).

(** The exceptions the loader raises itself. *)
Inductive load_error : Type :=
  | UnsupportedFormat (format : pystr)
  | FileNotFound (file_name : pystr)
  | NoSupportedFile (files : list pystr)
  | NoDatasetLoaded.

Inductive loaded (A : Type) : Type :=
  | Loaded (a : A)
  | Raised (e : load_error).
Arguments Loaded {A} a.
Arguments Raised {A} e.

Section Loader.
(** [str.lower], which the Unicode tables decide. *)
Variable lower : pystr -> pystr.

Definition detect_format (path : pystr) : pystr :=
  let path_lower := lower path in
  if endswith (py ".csv") path_lower then py "csv"
  else if endswith (py ".tsv") path_lower then py "tsv"
  else if endswith (py ".jsonl") path_lower
          || endswith (py ".ndjson") path_lower then py "jsonl"
  else if endswith (py ".json") path_lower then py "json"
  else if endswith (py ".parquet") path_lower then py "parquet"
  else py "csv".

(** [_load_local_file], up to the call that reads the file. *)
Definition _load_local_file (path : pystr) (format : option pystr)
    : loaded pandas_call :=
  let format :=
    match format with None => detect_format path | Some f => f end in
  if str_eqb format (py "csv") then Loaded (PdReadCsv path)
  else if str_eqb format (py "tsv") then Loaded (PdReadTsv path)
  else if str_eqb format (py "json") then Loaded (PdReadJson path)
  else if str_eqb format (py "jsonl") then Loaded (PdReadJsonLines path)
  else if str_eqb format (py "parquet") then Loaded (PdReadParquet path)
  else Raised (UnsupportedFormat format).

(** [os.path.basename] of a POSIX path: what follows the last slash. *)
Fixpoint basename (path : pystr) : pystr :=
  match path with
  | [] => []
  | c :: rest =>
      if existsb (Z.eqb 0x2F) rest then basename rest
      else if c =? 0x2F then rest else path
  end.

(** [if not target_file] *)
Definition not_found (target_file : option pystr) : bool :=
  match target_file with Some f => negb (truthy f) | None => true end.

(** [_load_kaggle] from the search for the file to load on, where [files]
    is the listing of the downloaded dataset in the order [glob] gives.
    The import of the kaggle package, the authentication and the download
    that come before are the environment's. *)
Definition _load_kaggle (files : list pystr) (file_name : option pystr)
    : loaded pandas_call :=
  match file_name with
  | Some (c :: name) =>
      let target_file :=
        find (fun f => str_eqb (basename f) (c :: name)) files in
      if not_found target_file then Raised (FileNotFound (c :: name))
      else match target_file with
           | Some f => _load_local_file f None
           | None => Raised (FileNotFound (c :: name))
           end
  | _ =>
      let target_file :=
        find (fun f => str_in (detect_format f) SUPPORTED_FORMATS) files in
      if not_found target_file then Raised (NoSupportedFile files)
      else match target_file with
           | Some f => _load_local_file f None
           | None => Raised (NoSupportedFile files)
           end
  end.

End Loader.

(** [get_column_names]; the argument is [self.df]. *)
Definition get_column_names (df : option DataFrame) : loaded (list pystr) :=
  match df with
  | None => Raised NoDatasetLoaded
  | Some d => Loaded (column_names d)
  end.

(** [validate_columns]: [(all_valid, missing_columns)]. *)
Definition validate_columns (df : option DataFrame) (columns : list pystr)
    : loaded (bool * list pystr) :=
  match get_column_names df with
  | Raised e => Raised e
  | Loaded available_columns =>
      let missing :=
        filter (fun col => negb (str_in col available_columns)) columns in
      Loaded (len missing =? 0, missing)
  end.

End DatasetLoader.

(** ** translate.py: the columns kept in the output *)

Module Translate.
Import Pandas.

(** [df[names]] for a list of names: the columns named, in the order of
    the list, a name as often as it is listed; [None] stands for the
    KeyError raised when a name is not a column of the frame. *)
Definition getitem_list (df : DataFrame) (names : list pystr)
    : option DataFrame :=
  if forallb (has_column df) names
  then Some
         {| index := index df;
            columns :=
              flat_map
                (fun name =>
                   filter (fun nv => str_eqb name (fst nv)) (columns df))
                names |}
  else None.

(** The filter of [--keep-columns]; [keep_columns] is [args.keep_columns],
    [None] when the option is not given. *)
Definition keep_columns_filter (keep_columns : option (list pystr))
    (columns : list pystr) (result : DataFrame) : option DataFrame :=
  match keep_columns with
  | Some (k :: ks) =>
      let translated_cols :=
        map (fun col => col ++ py "_ar") columns
        ++ map (fun col => col ++ py "_api") columns in
      let keep_cols := (k :: ks) ++ translated_cols in
      let available_cols := filter (has_column result) keep_cols in
      getitem_list result available_cols
  | _ => Some result
  end.

End Translate.

(** ** core/config_loader.py: the merge of the YAML file into the defaults *)

Module ConfigLoader.

#[local] Unset Elimination Schemes.

(** A configuration value, as [yaml.safe_load] gives it; the keys of the
    dictionaries of a configuration are strings. *)
Inductive value : Type :=
  | VNone
  | VBool (b : bool)
  | VInt (n : Z)
  | VFloat (q : Q)
  | VStr (s : pystr)
  | VList (items : list value)
  | VDict (entries : list (pystr * value)).
#[local] Set Elimination Schemes.

(** A dictionary: its items in insertion order. *)
Definition dict : Type := list (pystr * value).

(** [d.get(key)]; [key in d] is whether it gives a value. *)
Fixpoint dict_get (d : dict) (key : pystr) : option value :=
  match d with
  | [] => None
  | (k, v) :: rest => if str_eqb key k then Some v else dict_get rest key
  end.

(** [d[key] = v]: in place when the key is there, else as the last item. *)
Fixpoint dict_store (d : dict) (key : pystr) (v : value) : dict :=
  match d with
  | [] => [(key, v)]
  | (k, old) :: rest =>
      if str_eqb key k then (k, v) :: rest
      else (k, old) :: dict_store rest key v
  end.

(** [_merge_config(base, override)], for the dictionary [override] held by
    the value [override_value]: the dictionary [base] as the call leaves
    it. *)
Fixpoint merge_value (override_value : value) (base : dict) : dict :=
  match override_value with
  | VDict override =>
      (fix items (override : dict) (base : dict) {struct override} : dict :=
         match override with
         | [] => base
         | (key, value) :: rest =>
             items rest
               (match dict_get base key, value with
                | Some (VDict sub), VDict _ =>
                    dict_store base key (VDict (merge_value value sub))
                | _, _ => dict_store base key value
                end)
         end) override base
  | _ => base
  end.

Definition _merge_config (base override : dict) : dict :=
  merge_value (VDict override) base.

(** [_get_defaults] *)
Definition _get_defaults : dict :=
  [ (py "dataset",
     VDict [ (py "source", VNone);
             (py "file_name", VNone);
             (py "columns_to_translate", VStr (py "auto")) ]);
    (py "translation",
     VDict [ (py "primary_api", VStr (py "nvidia"));
             (py "enable_fallback", VBool false);
             (py "normalize_provider_terms", VBool true);
             (py "preserve_all_columns", VBool true) ]);
    (py "apis",
     VDict [ (py "nvidia",
              VDict [ (py "model",
                       VStr (py "nvidia/riva-translate-4b-instruct-v1.1"));
                      (py "temperature", VFloat (1 # 10));
                      (py "max_tokens", VInt 512);
                      (py "top_p", VFloat (7 # 10));
                      (py "rate_limit_rpm", VInt 40) ]);
             (py "fanar",
              VDict [ (py "model", VStr (py "Fanar"));
                      (py "temperature", VFloat (3 # 10));
                      (py "max_tokens", VInt 1024);
                      (py "rate_limit_rpm", VInt 40) ]) ]);
    (py "retry",
     VDict [ (py "max_retries", VInt 3);
             (py "backoff_multiplier", VInt 2);
             (py "request_timeout", VInt 30);
             (py "respect_rate_limits", VBool true) ]);
    (py "checkpoint",
     VDict [ (py "enabled", VBool true);
             (py "interval", VInt 50);
             (py "resume_from_last", VBool false) ]);
    (py "output",
     VDict [ (py "path", VStr (py "data/translated_output.csv"));
             (py "format", VStr (py "csv"));
             (py "save_statistics", VBool true) ]) ].

(** [config[k1][k2]...]; [None] stands for the KeyError or TypeError. *)
Fixpoint lookup (v : value) (path : list pystr) : option value :=
  match path with
  | [] => Some v
  | key :: rest =>
      match v with
      | VDict d =>
          match dict_get d key with
          | Some v' => lookup v' rest
          | None => None
          end
      | _ => None
      end
  end.

End ConfigLoader.

(** ** What the specification says of the validator, in its own words *)

Module ValidatorSpec.

(** A character of the target script: the Arabic blocks. *)
Definition target_script (c : char) : Prop :=
  0x0600 <= c <= 0x06FF \/ 0x0750 <= c <= 0x077F \/ 0x08A0 <= c <= 0x08FF.

Definition whitespace (c : char) : Prop := is_space c = true.

(** [sig] occurs in [text]. *)
Definition occurs_in (sig text : pystr) : Prop :=
  exists pre post, text = pre ++ sig ++ post.

(** The garbled-encoding signatures. *)
Definition encoding_signatures : list pystr :=
  [ [0xC3; 0xA9]; [0xC3; 0xA8]; [0xC3; 0x20]; [0xC3; 0xA7];
    [0xE2; 0x20AC; 0x2122]; [0xE2; 0x20AC; 0x153]; [0xE2; 0x20AC; 0xFFFD];
    [0xFFFD] ].

Fixpoint count (p : char -> bool) (text : pystr) : Z :=
  match text with
  | [] => 0
  | c :: rest => (if p c then 1 else 0) + count p rest
  end.

(** not_empty: something is left of the translation once stripped. *)
Definition not_empty (translated : pystr) : Prop :=
  exists c, In c translated /\ ~ whitespace c.

(** has_target_script *)
Definition has_target_script (translated : pystr) : Prop :=
  exists c, In c translated /\ target_script c.

(** script_ratio_ok: at least half of the non-whitespace characters are of
    the target script. *)
Definition script_ratio_ok (translated : pystr) : Prop :=
  let script := count Postprocessing.arabic_pattern translated in
  let visible := count (fun c => negb (is_space c)) translated in
  0 < visible /\ visible <= 2 * script.

(** length_ratio_ok: [len(translated)/len(original)] within [0.3, 3.0], or
    the original is empty. *)
Definition length_ratio_ok (original translated : pystr) : Prop :=
  original = []
  \/ (3 * len original <= 10 * len translated
      /\ len translated <= 3 * len original).

(** no_encoding_artifacts *)
Definition no_encoding_artifacts (translated : pystr) : Prop :=
  forall sig, In sig encoding_signatures -> ~ occurs_in sig translated.

(** Some character of [s] is not whitespace. *)
Definition has_visible (s : pystr) : bool :=
  existsb (fun c => negb (is_space c)) s.

Definition all_checks_pass (original translated : pystr) : Prop :=
  not_empty translated
  /\ has_target_script translated
  /\ script_ratio_ok translated
  /\ length_ratio_ok original translated
  /\ no_encoding_artifacts translated.

End ValidatorSpec.

(** ** Notions used to state the rewriting of terms *)

Module TermSpec.
Import Preprocessing.

Definition last_char (s : pystr) : option char :=
  match rev s with [] => None | c :: _ => Some c end.

Section Occurrence.
Variable U : Unicode.

(** [occ], standing between [pre] and [post], is an occurrence of [term]:
    the same characters up to case, with a word boundary on each side. *)
Definition occurrence (term pre occ post : pystr) : Prop :=
  Forall2 (fun p c => ci_match U p c = true) term occ
  /\ boundary U (last_char pre) (hd_error (occ ++ post)) = true
  /\ boundary U (last_char (pre ++ occ)) (hd_error post) = true.

(** No occurrence of [term] starts in [text], which comes after [ctx] and
    before nothing. *)
Definition no_occurrence_in (term ctx text : pystr) : Prop :=
  forall pre occ post,
    text = pre ++ occ ++ post -> ~ occurrence term (ctx ++ pre) occ post.

(** [sub_term] continued in the middle of a text, after [ctx]. *)
Definition sub_term_after (term repl ctx text : pystr) : pystr :=
  sub_term_go U term repl 0 (last_char ctx) text.

End Occurrence.

(** Longest key first. *)
Definition longest_first (items : list (pystr * pystr)) : Prop :=
  StronglySorted (fun a b => len (fst b) <= len (fst a)) items.

End TermSpec.

(** ** Notions used to state the limiter's behaviour *)

Module LimiterSpec.
Import Effects.

(** [t] lies in the trailing 60-second window of [now]. *)
Definition in_window (now t : Q) : bool := Qle_bool (now - t) 60.

(** How many recorded timestamps lie in the trailing window. *)
Definition window_count (now : Q) (ts : list Q) : Z :=
  len (filter (in_window now) ts).

(** The queue holds readings of a clock that does not run backwards, none
    later than the present reading. *)
Definition chronological (ts : list Q) : Prop := StronglySorted Qle ts.

Definition not_after (now : Q) (ts : list Q) : Prop :=
  Forall (fun t => (t <= now)%Q) ts.

(** The world [w] after [reads] more clock readings, the queue being [ts]. *)
Definition with_limiter (w : World) (reads : nat) (ts : list Q) : World :=
  {| clock_reads := (clock_reads w + reads)%nat;
     nvidia_calls := nvidia_calls w;
     fanar_calls := fanar_calls w;
     timestamps := ts;
     stats := stats w;
     files := files w |}.

(** The i-th reading of the clock from the world [w] on. *)
Definition reading (env : Env) (w : World) (i : nat) : Q :=
  time_time env (clock_reads w + i)%nat.

(** [n] calls of [acquire], one after the other. *)
Fixpoint repeat_acquire (env : Env) (rpm : Z) (n : nat) : M unit :=
  match n with
  | O => ret tt
  | S k => bind (RateLimiter.acquire env rpm)
             (fun _ => repeat_acquire env rpm k)
  end.

End LimiterSpec.

(** ** Notions used to state the retry engine's behaviour *)

Module RetrySpec.
Import Config Effects Pipeline.

(** The translation a provider outcome carries when the call succeeded and
    the validator accepts it against [text]. *)
Definition accepts (text : pystr) (out : api_outcome) : option pystr :=
  match out with
  | Returns r =>
      if success r
      then match translation r with
           | Some tr =>
               if fst (Postprocessing.validate_translation text tr)
               then Some tr else None
           | None => None
           end
      else None
  | Raises _ => None
  end.

Definition accepted_event (text : pystr) (e : event) : bool :=
  match e with
  | EvCall _ _ _ out =>
      match accepts text out with Some _ => true | None => false end
  | _ => false
  end.

Definition is_call (e : event) : bool :=
  match e with EvCall _ _ _ _ => true | _ => false end.

Definition is_rate_sleep (e : event) : bool :=
  match e with EvRateSleep _ => true | _ => false end.

(** The provider calls of a trace. *)
Definition calls (evs : list event) : list event := filter is_call evs.

(** The names of the providers called, in order. *)
Definition call_names (evs : list event) : list pystr :=
  flat_map (fun e => match e with EvCall n _ _ _ => [n] | _ => [] end) evs.

(** The backoff sleeps of a trace, in order. *)
Definition backoffs (evs : list event) : list Q :=
  flat_map (fun e => match e with EvBackoff d => [d] | _ => [] end) evs.

(** The trace without the sleeps of the rate limiter. *)
Definition engine_events (evs : list event) : list event :=
  filter (fun e => negb (is_rate_sleep e)) evs.

Definition primary_name (self : TranslationPipeline) : pystr :=
  fst (hd (py "", Nvidia) (apis self)).

Definition primary_func (self : TranslationPipeline) : provider :=
  snd (hd (py "", Nvidia) (apis self)).

(** The name of the other provider. *)
Definition secondary_name (self : TranslationPipeline) : pystr :=
  if str_eqb (primary_name self) (py "nvidia") then py "fanar"
  else py "nvidia".

(** The other provider. *)
Definition secondary_func (self : TranslationPipeline) : provider :=
  match primary_func self with Nvidia => Fanar | Fanar => Nvidia end.

(** A call made on [processed_text] with the fixed request timeout. *)
Definition call_on (processed_text : pystr) (e : event) : Prop :=
  match e with
  | EvCall _ t tmo _ => t = processed_text /\ tmo = REQUEST_TIMEOUT
  | _ => True
  end.

Definition exhausted : retry_result :=
  (None, py "failed", Some (py "All API attempts exhausted")).

(** What provider [p] answers to its [k]-th call. *)
Definition respond (env : Env) (p : provider) (k : nat) (text : pystr)
    (timeout : Z) : api_outcome :=
  match p with
  | Nvidia => nvidia_translate env k text timeout
  | Fanar => fanar_translate env k text timeout
  end.

Definition calls_made (w : World) (p : provider) : nat :=
  match p with Nvidia => nvidia_calls w | Fanar => fanar_calls w end.

(** The rate limiter is absent or has a rate of at least one request. *)
Definition limiter_configured (self : TranslationPipeline) : Prop :=
  match rate_limiter self with Some rpm => 1 <= rpm | None => True end.

(** One attempt with its [try] and [except]. *)
Definition try_attempt (env : Env) (self : TranslationPipeline)
    (api_name : pystr) (api_func : provider) (processed_text text : pystr)
    : M (option retry_result) :=
  try_except (attempt_body env self api_name api_func processed_text text)
    (fun _ => ret None).

(** The answer of an attempt whose provider call gave [out]. *)
Definition answer_of (api_name text : pystr) (out : api_outcome)
    : option retry_result :=
  match accepts text out with
  | Some tr =>
      Some (Some (Postprocessing.postprocess_translation tr), api_name, None)
  | None => None
  end.

(** An event of the attempts on one provider: a sleep, or a call of this
    provider on the processed text with the request timeout. *)
Definition on_provider (api_name processed_text : pystr) (e : event) : Prop :=
  match e with
  | EvCall n t tmo _ =>
      n = api_name /\ t = processed_text /\ tmo = REQUEST_TIMEOUT
  | _ => True
  end.

Definition rejected (text : pystr) (e : event) : Prop :=
  accepted_event text e = false.

(** The backoff after the attempt [attempt], if any. *)
Definition backoff_events (max_retries attempt : Z) : list event :=
  if attempt <? max_retries - 1
  then [EvBackoff (inject_Z (BACKOFF_MULTIPLIER ^ attempt))]
  else [].

(** How a run of the retry engine ends: exhausted with every call
    rejected, or on an accepted call of one of the providers [names]. *)
Definition outcome_of (processed_text text : pystr) (names : list pystr)
    (res : retry_result) (evs : list event) : Prop :=
  (res = exhausted /\ Forall (rejected text) evs)
  \/ (exists init api_name out tr,
        evs = init ++ [EvCall api_name processed_text REQUEST_TIMEOUT out]
        /\ Forall (rejected text) init
        /\ accepts text out = Some tr
        /\ In api_name names
        /\ res = (Some (Postprocessing.postprocess_translation tr),
                  api_name, None)).

(** The calls of a run, provider by provider in the order of the list. *)
Fixpoint provider_blocks (names : list pystr) (ks : list nat) : list pystr :=
  match names, ks with
  | n :: names', k :: ks' => repeat n k ++ provider_blocks names' ks'
  | _, _ => []
  end.

(** The calls and backoffs of failed attempts on provider [p], the first
    call being its [k]-th: after each call but that of the last attempt
    ([max_retries - 1]) comes a backoff of [BACKOFF_MULTIPLIER ** attempt]
    seconds. *)
Fixpoint failed_attempts (env : Env) (api_name : pystr) (p : provider)
    (processed_text : pystr) (max_retries : Z) (k : nat) (attempts : list Z)
    : list event :=
  match attempts with
  | [] => []
  | attempt :: rest =>
      EvCall api_name processed_text REQUEST_TIMEOUT
        (respond env p k processed_text REQUEST_TIMEOUT)
      :: (if attempt <? max_retries - 1
          then [EvBackoff (inject_Z (BACKOFF_MULTIPLIER ^ attempt))]
          else [])
      ++ failed_attempts env api_name p processed_text max_retries (S k) rest
  end.

End RetrySpec.

(** ** Notions used to state what loading a checkpoint does *)

Module CheckpointSpec.
Import Pandas.



End CheckpointSpec.

(** ** Notions used to state what the orchestrator submits *)

Module DatasetSpec.
Import Config Pandas Effects Pipeline.

(** The cell of [df] at row position [idx] in column [col]. *)
Definition cell_at (df : DataFrame) (idx : Z) (col : pystr) : cell :=
  match get_column (columns df) col with
  | Some vals => nth (Z.to_nat idx) vals CNaN
  | None => CNaN
  end.

(** [df.iloc[idx][col]]: the cell as its row holds it. *)
Definition row_cell (env : Env) (df : DataFrame) (idx : Z) (col : pystr)
    : cell :=
  row_value (row_conversion (row_text env df) df col) (cell_at df idx col).



(** The world [w] with other statistics and files. *)
Definition with_store (w : World) (s : Stats) (fs : list (pystr * table))
    : World :=
  {| clock_reads := clock_reads w;
     nvidia_calls := nvidia_calls w;
     fanar_calls := fanar_calls w;
     timestamps := timestamps w;
     stats := s;
     files := fs |}.

(** A computation that neither reads nor writes the statistics and the
    files. *)
Definition store_blind {A : Type} (c : M A) : Prop :=
  forall w s fs,
    c (with_store w s fs)
    = (fst (fst (c w)), with_store (snd (fst (c w))) s fs, snd (c w)).

End DatasetSpec.

(** ** Sample environments and worlds, for running the model *)

Module Samples.
Import Pandas Effects.

(** The text of an integer: digits, after a minus sign or not.  The text
    of a float always has a point, an exponent, "inf" or "nan". *)
Definition is_int_text (rendering : pystr) : bool :=
  match rendering with
  | 0x2D :: d :: ds => forallb (in_range 0x30 0x39) (d :: ds)
  | d :: ds => forallb (in_range 0x30 0x39) (d :: ds)
  | [] => false
  end.

Definition int_cell (c : cell) : bool :=
  match c with CNum rendering => is_int_text rendering | _ => false end.

Definition float_cell (c : cell) : bool :=
  match c with
  | CNaN => true
  | CNum rendering => negb (is_int_text rendering)
  | _ => false
  end.

(** The row of [df] is an array of floats: every column holds integers
    only or floats only, and one of them holds floats. *)
Definition float_row (df : DataFrame) : bool :=
  forallb (fun nv => forallb int_cell (snd nv) || forallb float_cell (snd nv))
    (columns df)
  && existsb (fun nv => forallb float_cell (snd nv)) (columns df).

(** The conversion pandas makes for a frame whose columns have the types
    it infers from their values (int64 for integers, float64 for floats
    and NaN, object for the rest) and whose integers float64 holds exactly:
    in an array of floats the integer 7 reads "7.0"; in every other row
    the numbers read as they are stored. *)
Definition inferred_row_text (df : DataFrame) (col rendering : pystr)
    : pystr :=
  if float_row df && is_int_text rendering then rendering ++ py ".0"
  else rendering.

Definition no_stats : Stats :=
  {| total := 0; successful := 0; failed := 0; nvidia_used := 0;
     fanar_used := 0; failed_rows := [] |}.

Definition fresh_world : World :=
  {| clock_reads := 0; nvidia_calls := 0; fanar_calls := 0;
     timestamps := []; stats := no_stats; files := [] |}.

Definition api_error : api_outcome :=
  Returns {| success := false; translation := None;
             error := Some (py "HTTP 500") |}.

(** "marhaba", the translation of "Hello". *)
Definition marhaba : pystr := [0x645; 0x631; 0x62D; 0x628; 0x627].

Definition api_ok (translation : pystr) : api_outcome :=
  Returns {| success := true; translation := Some translation;
             error := None |}.

(** Both providers always fail; the clock advances one second per
    reading. *)
Definition failing_env : Env :=
  {| unicode := Preprocessing.ascii_unicode;
     time_time := fun k => inject_Z (Z.of_nat k);
     nvidia_translate := fun _ _ _ => api_error;
     fanar_translate := fun _ _ _ => api_error;
     csv_column := fun vals => vals;
     row_text := inferred_row_text |}.

(** The clock reads 100 seconds at every reading. *)
Definition late_env : Env :=
  {| unicode := Preprocessing.ascii_unicode;
     time_time := fun _ => 100%Q;
     nvidia_translate := fun _ _ _ => api_error;
     fanar_translate := fun _ _ _ => api_error;
     csv_column := fun vals => vals;
     row_text := inferred_row_text |}.

(** A limiter that admitted one request at time 0. *)
Definition stale_world : World :=
  {| clock_reads := 0; nvidia_calls := 0; fanar_calls := 0;
     timestamps := [0%Q]; stats := no_stats; files := [] |}.

(** NVIDIA always answers "marhaba". *)
Definition translating_env : Env :=
  {| unicode := Preprocessing.ascii_unicode;
     time_time := fun k => inject_Z (Z.of_nat k);
     nvidia_translate := fun _ _ _ => api_ok marhaba;
     fanar_translate := fun _ _ _ => api_error;
     csv_column := fun vals => vals;
     row_text := inferred_row_text |}.

(** A dataset of [n] rows whose column "text" holds "Hello". *)
Definition hello_df (n : nat) : DataFrame :=
  {| index := range 0 (Z.of_nat n);
     columns := [(py "text", repeat (CStr (py "Hello")) n)] |}.

(** The checkpoint file a run over [hello_df] leaves after [n] rows. *)
Definition hello_checkpoint (n : nat) : table :=
  [ (py "text", repeat (CStr (py "Hello")) n);
    (py "text_ar", repeat (CStr marhaba) n);
    (py "text_api", repeat (CStr (py "nvidia")) n) ].


Definition world_with_files (fs : list (pystr * table)) : World :=
  {| clock_reads := 0; nvidia_calls := 0; fanar_calls := 0;
     timestamps := []; stats := no_stats; files := fs |}.




(** NVIDIA as the primary provider, no fallback, no rate limiter. *)
Definition nvidia_only : Pipeline.TranslationPipeline :=
  {| Pipeline.columns_to_translate := [py "text"];
     Pipeline.primary_api := py "nvidia";
     Pipeline.enable_fallback := false;
     Pipeline.preserve_all_columns := true;
     Pipeline.normalize_provider_terms := true;
     Pipeline.rate_limit_rpm := None |}.

End Samples.

(** ** Notions used to state what the two text cleaners leave behind *)

Module CleaningSpec.

(** Every maximal run of characters of the class [cls] in [s] is a single
    U+0020; [prev] tells whether the character before [s] is of the class. *)
Fixpoint runs_collapsed (cls : char -> bool) (prev : bool) (s : pystr)
    : bool :=
  match s with
  | [] => true
  | c :: rest =>
      if cls c
      then (c =? 0x20) && negb prev && runs_collapsed cls true rest
      else runs_collapsed cls false rest
  end.

(** [s] does not begin with whitespace. *)
Definition starts_visible (s : pystr) : bool :=
  match s with [] => true | c :: _ => negb (is_space c) end.

(** [s] does not end with whitespace. *)
Definition ends_visible (s : pystr) : bool := starts_visible (rev s).

(** The Alef forms other than the bare Alef U+0627. *)
Definition alef_variant (c : char) : bool :=
  (c =? 0x625) || (c =? 0x623) || (c =? 0x622).

(** A character that [clean_text] keeps: neither whitespace nor of the
    control class. *)
Definition printable (c : char) : bool :=
  negb (is_space c) && negb (Preprocessing.control_chars c).

(** After each newline of [s], the whitespace that follows holds at most
    one more newline, and that one comes first: no run matching [\n\s*\n]
    is longer than two newlines. *)
Fixpoint blank_lines_collapsed (s : pystr) : bool :=
  match s with
  | [] => true
  | c :: rest =>
      (if c =? 0x0A
       then match Preprocessing.closing_newline rest with
            | Some (S _) => false
            | _ => true
            end
       else true)
      && blank_lines_collapsed rest
  end.

End CleaningSpec.

(** ** Notions used to state when term rewriting leaves a text alone *)

Module NormalizationSpec.
Import Preprocessing.

(** Does the pattern of [term] match somewhere in [text], the character
    before [text] being [prev]? *)
Fixpoint matches_anywhere (U : Unicode) (term : pystr) (prev : option char)
    (text : pystr) : bool :=
  match_here U term prev text
  || match text with
     | [] => false
     | c :: rest => matches_anywhere U term (Some c) rest
     end.

(** None of the terms of [terms] matches in [text]. *)
Definition mentions_none (U : Unicode) (terms : list (pystr * pystr))
    (text : pystr) : bool :=
  forallb (fun kv => negb (matches_anywhere U (fst kv) None text)) terms.

(** No replacement of the custom mappings holds a backslash. *)
Definition plain_replacements
    (custom_mappings : option (list (pystr * pystr))) : bool :=
  match custom_mappings with
  | Some custom =>
      forallb (fun kv => negb (existsb (Z.eqb 0x5C) (snd kv))) custom
  | None => true
  end.

End NormalizationSpec.

(** ** Notions used to state how a run resumes *)

Module ResumeSpec.
Import Pandas Effects Pipeline.

(** [_load_checkpoint] finds nothing to read: no file is picked, or the
    picked file does not exist. *)
Definition nothing_to_resume (w : World) (checkpoint_name : option pystr)
    : bool :=
  match chosen_checkpoint w checkpoint_name with
  | None => true
  | Some checkpoint_file =>
      match lookup_file (files w) checkpoint_file with
      | None => true
      | Some _ => false
      end
  end.

(** The world [w] with other statistics. *)
Definition with_stats (w : World) (s : Stats) : World :=
  DatasetSpec.with_store w s (files w).

End ResumeSpec.

(** ** Notions used to state what a run leaves in the frame and the
       statistics *)

Module RunSpec.
Import Config Pandas Effects Pipeline.

(** The cells a run goes through: row by row, and column by column within
    a row. *)
Definition cells (rows : list Z) (cols : list pystr) : list (Z * pystr) :=
  flat_map (fun idx => map (fun col => (idx, col)) cols) rows.

(** What the cell of row [idx] and column [col] does to the result frame
    and to the statistics: it is counted as failed and the frame is left
    alone, or a translation that is not empty is written with the name of
    its provider. *)
Inductive cell_step (idx : Z) (col : pystr)
    : DataFrame * Stats -> DataFrame * Stats -> Prop :=
  | cell_failed (df : DataFrame) (s : Stats) :
      cell_step idx col (df, s)
        (df,
         bump_failure idx col (Some (py "All API attempts exhausted")) s)
  | cell_translated (df : DataFrame) (s : Stats) (t api_used : pystr) :
      t <> [] ->
      api_used = py "nvidia" \/ api_used = py "fanar" ->
      cell_step idx col (df, s)
        (at_set (at_set df idx (col ++ py "_ar") (CStr t)) idx
           (col ++ py "_api") (CStr api_used),
         bump_success api_used s).

Inductive cells_run
    : list (Z * pystr) -> DataFrame * Stats -> DataFrame * Stats -> Prop :=
  | run_done (x : DataFrame * Stats) : cells_run [] x x
  | run_cell (idx : Z) (col : pystr) (rest : list (Z * pystr))
      (x y z : DataFrame * Stats) :
      cell_step idx col x y -> cells_run rest y z ->
      cells_run ((idx, col) :: rest) x z.

(** The name of the checkpoint file of row count [n]. *)
Definition checkpoint_file (n : Z) : pystr :=
  py "checkpoint_" ++ str_of_int n ++ py ".csv".

(** The checkpoint files a run over the rows [rows] writes. *)
Definition saved_after (rows : list Z) (name : pystr) : Prop :=
  exists idx,
    In idx rows
    /\ (idx + 1) mod CHECKPOINT_INTERVAL = 0
    /\ name = checkpoint_file (idx + 1).

(** The statistics after every cell of [cs] was counted as failed. *)
Definition all_failed (cs : list (Z * pystr)) (s : Stats) : Stats :=
  fold_left
    (fun s c =>
       bump_failure (fst c) (snd c) (Some (py "All API attempts exhausted")) s)
    cs s.

(** The names of the output columns of a run over the columns [cols]. *)
Definition output_columns (cols : list pystr) : list pystr :=
  flat_map (fun col => [col ++ py "_ar"; col ++ py "_api"]) cols.

(** Every answer of every provider is a failure: an exception,
    [success = false], or a translation that is missing or rejected. *)
Definition providers_always_fail (env : Env) : Prop :=
  forall (p : provider) (k : nat) (processed_text text : pystr) (timeout : Z),
    RetrySpec.accepts text (RetrySpec.respond env p k processed_text timeout)
    = None.

End RunSpec.

(** ** More sample pipelines and environments *)

Module Scenarios.
Import Pandas Effects.

(** NVIDIA always fails, Fanar always answers "marhaba". *)
Definition fanar_rescues_env : Env :=
  {| unicode := Preprocessing.ascii_unicode;
     time_time := fun k => inject_Z (Z.of_nat k);
     nvidia_translate := fun _ _ _ => Samples.api_error;
     fanar_translate := fun _ _ _ => Samples.api_ok Samples.marhaba;
     csv_column := fun vals => vals;
     row_text := Samples.inferred_row_text |}.

(** NVIDIA fails at its first call and answers "marhaba" from then on;
    Fanar always answers "marhaba". *)
Definition recovering_env : Env :=
  {| unicode := Preprocessing.ascii_unicode;
     time_time := fun k => inject_Z (Z.of_nat k);
     nvidia_translate := fun k _ _ =>
       if (k =? 0)%nat then Samples.api_error
       else Samples.api_ok Samples.marhaba;
     fanar_translate := fun _ _ _ => Samples.api_ok Samples.marhaba;
     csv_column := fun vals => vals;
     row_text := Samples.inferred_row_text |}.

(** NVIDIA first, Fanar as the fallback, no rate limiter. *)
Definition with_fallback : Pipeline.TranslationPipeline :=
  {| Pipeline.columns_to_translate := [py "text"];
     Pipeline.primary_api := py "nvidia";
     Pipeline.enable_fallback := true;
     Pipeline.preserve_all_columns := true;
     Pipeline.normalize_provider_terms := true;
     Pipeline.rate_limit_rpm := None |}.

(** A pipeline built with [rate_limit_rpm=-1]. *)
Definition negative_rate : Pipeline.TranslationPipeline :=
  {| Pipeline.columns_to_translate := [py "text"];
     Pipeline.primary_api := py "nvidia";
     Pipeline.enable_fallback := false;
     Pipeline.preserve_all_columns := true;
     Pipeline.normalize_provider_terms := true;
     Pipeline.rate_limit_rpm := Some (-1) |}.



(** A pipeline that keeps only the translation columns. *)
Definition translations_only : Pipeline.TranslationPipeline :=
  {| Pipeline.columns_to_translate := [py "text"];
     Pipeline.primary_api := py "nvidia";
     Pipeline.enable_fallback := false;
     Pipeline.preserve_all_columns := false;
     Pipeline.normalize_provider_terms := true;
     Pipeline.rate_limit_rpm := None |}.

(** The clock reads 30 s, then 61 s at every later reading. *)
Definition waiting_env : Env :=
  {| unicode := Preprocessing.ascii_unicode;
     time_time := fun k => if (k =? 0)%nat then 30%Q else 61%Q;
     nvidia_translate := fun _ _ _ => Samples.api_error;
     fanar_translate := fun _ _ _ => Samples.api_error;
     csv_column := fun vals => vals;
     row_text := Samples.inferred_row_text |}.

End Scenarios.

(** ** Sample paths, listings and pipelines for the loader *)

Module LoaderSamples.
Import Pandas Effects.

(** [str.lower] on ASCII text. *)
Definition ascii_lowercase (s : pystr) : pystr :=
  map Preprocessing.ascii_lower s.

(** A downloaded dataset whose listing starts with its README. *)
Definition readme_first : list pystr :=
  [py "/tmp/d/README.md"; py "/tmp/d/data.json"].

(** A pipeline asked for "text" and then for "prompt". *)
Definition text_then_prompt : Pipeline.TranslationPipeline :=
  {| Pipeline.columns_to_translate := [py "text"; py "prompt"];
     Pipeline.primary_api := py "nvidia";
     Pipeline.enable_fallback := false;
     Pipeline.preserve_all_columns := true;
     Pipeline.normalize_provider_terms := true;
     Pipeline.rate_limit_rpm := None |}.

(** A dataset of two rows with an "id" next to its "text". *)
Definition id_text_df : DataFrame :=
  {| index := [0; 1];
     columns := [ (py "id", [CNum (py "7"); CNum (py "8")]);
                  (py "text", [CStr (py "Hello"); CStr (py "Hello")]) ] |}.

End LoaderSamples.

(** ** A sample configuration file *)

Module ConfigSamples.
Import ConfigLoader.

(** A YAML file that only lowers the rate of NVIDIA and names a dataset:
    [apis: {nvidia: {rate_limit_rpm: 10}}] and [dataset: data.csv]. *)
Definition slow_nvidia : dict :=
  [ (py "apis",
     VDict [ (py "nvidia", VDict [ (py "rate_limit_rpm", VInt 10) ]) ]);
    (py "dataset", VStr (py "data.csv")) ].

End ConfigSamples.

(** * Properties *)

(** ** Strings and patterns *)

Module PyStrFacts.
Import ValidatorSpec.

Lemma len_nonneg {A : Type} (s : list A) : 0 <= len s.
Proof. unfold len. lia. Qed.

Lemma len_nil_iff {A : Type} (s : list A) : len s = 0 <-> s = [].
Proof.
  unfold len. destruct s; simpl; split; intro H; try reflexivity;
    try discriminate; lia.
Qed.

Lemma truthy_len (s : pystr) : truthy s = (1 <=? len s).
Proof.
  destruct s as [|c s]; [reflexivity|].
  simpl. symmetry. apply Z.leb_le. unfold len. simpl List.length. lia.
Qed.

Lemma truthy_rev (s : pystr) : truthy (rev s) = truthy s.
Proof.
  destruct s as [|c s]; [reflexivity|].
  simpl. destruct (rev s); reflexivity.
Qed.

Lemma has_visible_app (a b : pystr) :
  has_visible (a ++ b) = has_visible a || has_visible b.
Proof. unfold has_visible. apply existsb_app. Qed.

Lemma has_visible_rev (s : pystr) : has_visible (rev s) = has_visible s.
Proof.
  induction s as [|c s IH]; [reflexivity|].
  simpl rev. rewrite has_visible_app, IH. simpl.
  rewrite orb_false_r. apply orb_comm.
Qed.

Lemma truthy_lstrip (s : pystr) : truthy (lstrip s) = has_visible s.
Proof.
  induction s as [|c s IH]; [reflexivity|].
  simpl. destruct (is_space c); simpl; [exact IH | reflexivity].
Qed.

Lemma has_visible_lstrip (s : pystr) : has_visible (lstrip s) = has_visible s.
Proof.
  induction s as [|c s IH]; [reflexivity|].
  simpl. destruct (is_space c) eqn:E; simpl; [exact IH|].
  rewrite E. reflexivity.
Qed.

(** Stripping leaves something exactly when a visible character exists. *)
Lemma truthy_strip (s : pystr) : truthy (strip s) = has_visible s.
Proof.
  unfold strip, rstrip.
  rewrite truthy_rev, truthy_lstrip, has_visible_rev.
  apply has_visible_lstrip.
Qed.

Lemma has_visible_iff (s : pystr) :
  has_visible s = true <-> exists c, In c s /\ is_space c <> true.
Proof.
  unfold has_visible. rewrite existsb_exists.
  split; intros [c [Hin Hc]]; exists c; split; auto.
  - destruct (is_space c); [discriminate | congruence].
  - destruct (is_space c); [congruence | reflexivity].
Qed.

Lemma str_eqb_eq (a b : pystr) : str_eqb a b = true <-> a = b.
Proof.
  revert b. induction a as [|x a IH]; intros [|y b]; cbn; split;
    try discriminate; try reflexivity.
  - rewrite andb_true_iff, Z.eqb_eq, IH. intros [-> ->]. reflexivity.
  - intros H. injection H as -> ->.
    rewrite andb_true_iff, Z.eqb_eq, IH. split; reflexivity.
Qed.

Lemma str_eqb_refl (a : pystr) : str_eqb a a = true.
Proof. apply str_eqb_eq. reflexivity. Qed.

Lemma startswith_iff (lit text : pystr) :
  startswith lit text = true <-> exists post, text = lit ++ post.
Proof.
  revert text. induction lit as [|p lit IH]; intros text; simpl.
  - split; [intros _; exists text; reflexivity | reflexivity].
  - destruct text as [|c text].
    + split; [discriminate | intros [post H]; discriminate].
    + rewrite andb_true_iff, Z.eqb_eq, IH. split.
      * intros [-> [post ->]]. exists post. reflexivity.
      * intros [post H]. injection H as -> ->. split; eauto.
Qed.

Lemma search_alt_iff (alts : list pystr) (text : pystr) :
  Re.search_alt alts text = true
  <-> exists lit, In lit alts /\ ValidatorSpec.occurs_in lit text.
Proof.
  unfold ValidatorSpec.occurs_in.
  induction text as [|c text IH].
  - simpl. rewrite orb_false_r, existsb_exists. split.
    + intros [lit [Hin Hs]]. apply startswith_iff in Hs as [post Hp].
      exists lit. split; [exact Hin|]. exists [], post. exact Hp.
    + intros [lit [Hin [pre [post Hp]]]]. exists lit. split; [exact Hin|].
      apply startswith_iff. symmetry in Hp.
      apply app_eq_nil in Hp as [-> Hp].
      exists post. symmetry. exact Hp.
  - simpl. rewrite orb_true_iff, existsb_exists, IH. split.
    + intros [[lit [Hin Hs]] | [lit [Hin [pre [post Hp]]]]].
      * apply startswith_iff in Hs as [post Hp].
        exists lit. split; [exact Hin|]. exists [], post. exact Hp.
      * exists lit. split; [exact Hin|]. exists (c :: pre), post.
        rewrite Hp. reflexivity.
    + intros [lit [Hin [pre [post Hp]]]]. destruct pre as [|c' pre].
      * left. exists lit. split; [exact Hin|].
        apply startswith_iff. exists post. exact Hp.
      * right. exists lit. split; [exact Hin|]. simpl in Hp.
        injection Hp as _ Hp. exists pre, post. exact Hp.
Qed.

Lemma length_filter_count (p : char -> bool) (s : pystr) :
  len (filter p s) = ValidatorSpec.count p s.
Proof.
  unfold len. induction s as [|c s IH]; [reflexivity|].
  simpl. destruct (p c); simpl List.length; lia.
Qed.

Lemma sub_class_delete (cls : char -> bool) (s : pystr) :
  Re.sub_class cls [] s = filter (fun c => negb (cls c)) s.
Proof.
  unfold Re.sub_class. induction s as [|c s IH]; [reflexivity|].
  simpl. destruct (cls c); simpl; rewrite IH; reflexivity.
Qed.

Lemma count_le_visible (s : pystr) :
  ValidatorSpec.count Postprocessing.arabic_pattern s
  <= ValidatorSpec.count (fun c => negb (is_space c)) s.
Proof.
  induction s as [|c s IH]; [simpl; lia|].
  cbn [ValidatorSpec.count].
  destruct (Postprocessing.arabic_pattern c) eqn:Ea; [|
    destruct (negb (is_space c)); lia].
  assert (Hs : is_space c = false).
  { destruct (is_space c) eqn:Hs; [exfalso | reflexivity].
    unfold Postprocessing.arabic_pattern, is_space, in_range in *.
    rewrite ?orb_true_iff, ?andb_true_iff, ?Z.leb_le, ?Z.eqb_eq in *. lia. }
  rewrite Hs. cbn [negb]. lia.
Qed.

Lemma count_nonneg (p : char -> bool) (s : pystr) : 0 <= ValidatorSpec.count p s.
Proof. induction s as [|c s IH]; simpl; [lia | destruct (p c); lia]. Qed.

End PyStrFacts.

(** ** The validator (core/postprocessing.py) *)

Module ValidatorFacts.
Import Config Postprocessing ValidatorSpec PyStrFacts.

Lemma arabic_pattern_iff (c : char) :
  arabic_pattern c = true <-> target_script c.
Proof.
  unfold arabic_pattern, target_script, in_range.
  rewrite !orb_true_iff, !andb_true_iff, !Z.leb_le. tauto.
Qed.

Lemma not_empty_check (translated : pystr) :
  (MIN_TRANSLATION_LENGTH <=? len (strip translated)) = true
  <-> not_empty translated.
Proof.
  unfold MIN_TRANSLATION_LENGTH, not_empty, whitespace.
  rewrite <- truthy_len, truthy_strip. apply has_visible_iff.
Qed.

Lemma has_arabic_check (translated : pystr) :
  has_arabic_chars translated = true <-> has_target_script translated.
Proof.
  unfold has_arabic_chars, Re.search_class, has_target_script.
  rewrite existsb_exists.
  split; intros [c [Hin Hc]]; exists c; split; auto;
    apply arabic_pattern_iff; exact Hc.
Qed.

Lemma arabic_ratio_value (text : pystr) :
  text <> [] ->
  get_arabic_char_ratio text
  = (count arabic_pattern text
     # Z.to_pos (Z.max (count (fun c => negb (is_space c)) text) 1))%Q.
Proof.
  intros Hne. unfold get_arabic_char_ratio.
  destruct text as [|c text]; [congruence|].
  cbn [truthy negb].
  assert (Hfind : forall s,
             len (Re.findall_class arabic_pattern s) = count arabic_pattern s).
  { intros s. rewrite <- length_filter_count.
    unfold Re.findall_class, len. rewrite length_map. reflexivity. }
  rewrite Hfind, sub_class_delete, length_filter_count. reflexivity.
Qed.

Lemma arabic_ratio_check (translated : pystr) :
  Qle_bool MIN_ARABIC_CHAR_RATIO (get_arabic_char_ratio translated) = true
  <-> script_ratio_ok translated.
Proof.
  unfold script_ratio_ok, MIN_ARABIC_CHAR_RATIO.
  destruct translated as [|c0 rest].
  - cbn. split; [discriminate | lia].
  - rewrite arabic_ratio_value by discriminate.
    set (text := c0 :: rest).
    pose proof (count_le_visible text) as Hle.
    pose proof (count_nonneg arabic_pattern text) as Ha.
    set (a := count arabic_pattern text) in *.
    set (n := count (fun c => negb (is_space c)) text) in *.
    rewrite Qle_bool_iff. unfold Qle. cbn [Qnum Qden].
    rewrite Z2Pos.id by lia. lia.
Qed.

Lemma length_ratio_check (original translated : pystr) :
  (if 0 <? len original
   then Qle_bool MIN_LENGTH_RATIO
          (len translated # Z.to_pos (len original))
        && Qle_bool (len translated # Z.to_pos (len original))
             MAX_LENGTH_RATIO
   else true) = true
  <-> length_ratio_ok original translated.
Proof.
  unfold length_ratio_ok, MIN_LENGTH_RATIO, MAX_LENGTH_RATIO.
  pose proof (len_nonneg original) as Hn.
  destruct (0 <? len original) eqn:Hpos.
  - apply Z.ltb_lt in Hpos.
    rewrite andb_true_iff, !Qle_bool_iff. unfold Qle. cbn [Qnum Qden].
    rewrite Z2Pos.id by lia. split.
    + intros [H1 H2]. right. lia.
    + intros [H | H]; [subst; cbn in Hpos; lia | lia].
  - apply Z.ltb_ge in Hpos. split; [|reflexivity].
    intros _. left. apply len_nil_iff. lia.
Qed.

Lemma has_mojibake_iff (text : pystr) :
  has_mojibake text = true
  <-> exists sig, In sig encoding_signatures /\ occurs_in sig text.
Proof.
  unfold has_mojibake. rewrite existsb_exists. split.
  - intros [pattern [Hp Hs]]. apply search_alt_iff in Hs as [sig [Hin Hocc]].
    exists sig. split; [|exact Hocc].
    change encoding_signatures with (List.concat mojibake_patterns).
    apply in_concat. exists pattern. split; assumption.
  - intros [sig [Hin Hocc]].
    change encoding_signatures with (List.concat mojibake_patterns) in Hin.
    apply in_concat in Hin as [pattern [Hp Hin]].
    exists pattern. split; [exact Hp|].
    apply search_alt_iff. exists sig. split; assumption.
Qed.

Lemma no_encoding_errors_check (translated : pystr) :
  negb (has_mojibake translated) = true <-> no_encoding_artifacts translated.
Proof.
  unfold no_encoding_artifacts. rewrite negb_true_iff. split.
  - intros Hf sig Hin Hocc.
    assert (has_mojibake translated = true) as Ht
      by (apply has_mojibake_iff; exists sig; split; assumption).
    congruence.
  - intros Hno. destruct (has_mojibake translated) eqn:E; [|reflexivity].
    apply has_mojibake_iff in E as [sig [Hin Hocc]].
    exfalso. exact (Hno sig Hin Hocc).
Qed.

(** The five entries of the [checks] dictionary. *)
Lemma validate_translation_checks (original translated : pystr) :
  map fst (snd (validate_translation original translated))
  = [ py "not_empty"; py "has_arabic"; py "arabic_ratio_ok";
      py "reasonable_length"; py "no_encoding_errors" ].
Proof. reflexivity. Qed.

(** The cases of [test_validation] in tests/test_pipeline.py. *)
Example test_validation_cases :
  map (fun ot => fst (validate_translation (fst ot) (snd ot)))
    [ (py "Hello, how are you?",
       [0x645; 0x631; 0x62d; 0x628; 0x627; 0x60c; 0x20; 0x643; 0x64a; 0x641;
        0x20; 0x62d; 0x627; 0x644; 0x643; 0x61f]);
      (py "This is a test",
       [0x647; 0x630; 0x627; 0x20; 0x627; 0x62e; 0x62a; 0x628; 0x627; 0x631]);
      (py "Short",
       [0x642; 0x635; 0x64a; 0x631; 0x20; 0x62c; 0x62f; 0x627; 0x64b; 0x20;
        0x62c; 0x62f; 0x627; 0x64b; 0x20; 0x62c; 0x62f; 0x627; 0x64b; 0x20;
        0x62c; 0x62f; 0x627; 0x64b; 0x20; 0x62c; 0x62f; 0x627; 0x64b]);
      (py "Some text", []);
      (py "Arabic test", py "This is still English") ]
  = [true; true; false; false; false].
Proof. vm_compute. reflexivity. Qed.

(** C3.  [validate_translation] accepts a pair exactly when the five checks
    of the specification all pass: a visible character is left after
    stripping, a character of the Arabic blocks occurs, at least half of the
    non-whitespace characters are Arabic, the length ratio lies in
    [0.3, 3.0] or the original is empty, and no garbled-encoding signature
    occurs.  In particular an empty translation is rejected for every
    original, and a text without Arabic characters is rejected as its own
    translation. *)
Theorem validate_translation_iff_all_checks :
  forall original translated : pystr,
    (fst (validate_translation original translated) = true
     <-> all_checks_pass original translated)
    /\ fst (validate_translation original []) = false
    /\ ((forall c, In c original -> ~ target_script c) ->
        fst (validate_translation original original) = false).
Proof.
  intros original translated.
  assert (Hiff : forall o t,
             fst (validate_translation o t) = true <-> all_checks_pass o t).
  { intros o t. unfold validate_translation, all_checks_pass.
    cbn [fst forallb snd].
    rewrite !andb_true_iff.
    rewrite not_empty_check, has_arabic_check, arabic_ratio_check,
      length_ratio_check, no_encoding_errors_check.
    tauto. }
  split; [apply Hiff|]. split.
  - destruct (fst (validate_translation original [])) eqn:E; [|reflexivity].
    apply Hiff in E. destruct E as [[c [[] _]] _].
  - intros Hno.
    destruct (fst (validate_translation original original)) eqn:E;
      [|reflexivity].
    apply Hiff in E. destruct E as [_ [[c [Hin Hc]] _]].
    exfalso. exact (Hno c Hin Hc).
Qed.

End ValidatorFacts.

(** ** Running computations *)

Module EffectFacts.
Import Effects.

Lemma bind_ok {A B : Type} (c : M A) (k : A -> M B) (w w1 : World) (a : A)
    (ev1 : list event) :
  c w = (Ok a, w1, ev1) ->
  bind c k w = (fst (fst (k a w1)), snd (fst (k a w1)), ev1 ++ snd (k a w1)).
Proof.
  intros H. unfold bind. rewrite H.
  destruct (k a w1) as [[r w2] ev2]. reflexivity.
Qed.

Lemma bind_err {A B : Type} (c : M A) (k : A -> M B) (w w1 : World) (e : exn)
    (ev1 : list event) :
  c w = (Err e, w1, ev1) -> bind c k w = (Err e, w1, ev1).
Proof. intros H. unfold bind. rewrite H. reflexivity. Qed.

Lemma bind_ret {A B : Type} (a : A) (k : A -> M B) (w : World) :
  bind (ret a) k w = k a w.
Proof. unfold bind, ret. destruct (k a w) as [[r w2] ev2]. reflexivity. Qed.

Lemma try_ok {A : Type} (c : M A) (h : exn -> M A) (w w1 : World) (a : A)
    (ev1 : list event) :
  c w = (Ok a, w1, ev1) -> try_except c h w = (Ok a, w1, ev1).
Proof. intros H. unfold try_except. rewrite H. reflexivity. Qed.

Lemma try_err {A : Type} (c : M A) (a : A) (w w1 : World) (e : exn)
    (ev1 : list event) :
  c w = (Err e, w1, ev1) ->
  try_except c (fun _ => ret a) w = (Ok a, w1, ev1).
Proof.
  intros H. unfold try_except, ret. rewrite H, app_nil_r. reflexivity.
Qed.

End EffectFacts.

(** ** The rate limiter (core/rate_limiter.py) *)

Module LimiterFacts.
Import Effects RateLimiter LimiterSpec PyStrFacts.

Lemma Qgt_bool_true (a b : Q) : Qgt_bool a b = true <-> (b < a)%Q.
Proof.
  unfold Qgt_bool. rewrite negb_true_iff. split.
  - intros H. apply Qnot_le_lt. intros Hle.
    apply Qle_bool_iff in Hle. congruence.
  - intros H. destruct (Qle_bool a b) eqn:E; [|reflexivity].
    apply Qle_bool_iff in E. exfalso. exact (Qlt_not_le _ _ H E).
Qed.

Lemma Qgt_bool_false (a b : Q) : Qgt_bool a b = false <-> (a <= b)%Q.
Proof.
  unfold Qgt_bool. rewrite negb_false_iff. apply Qle_bool_iff.
Qed.

Lemma with_limiter_same (w : World) :
  with_limiter w 0 (timestamps w) = w.
Proof.
  unfold with_limiter. destruct w. cbn. rewrite Nat.add_0_r. reflexivity.
Qed.

(** [acquire] unfolded: what it returns, the world it leaves and the sleep
    it performs, from the two clock readings it may take. *)
Lemma acquire_eval (env : Env) (rpm : Z) (w : World) :
  acquire env rpm w =
  let now := reading env w 0 in
  let live := evict now (timestamps w) in
  if rpm <=? len live
  then match live with
       | [] => (Err IndexError, with_limiter w 1 live, [])
       | t0 :: _ =>
           let sleep_time := (60 - (now - t0))%Q in
           if Qgt_bool sleep_time 0
           then
             let now' := reading env w 1 in
             (Ok tt, with_limiter w 2 (evict now' live ++ [now']),
              [EvRateSleep sleep_time])
           else (Ok tt, with_limiter w 1 (live ++ [now]), [])
       end
  else (Ok tt, with_limiter w 1 (evict (reading env w 0) (timestamps w)
                                  ++ [reading env w 0]), []).
Proof.
  unfold acquire, reading, with_limiter, bind, now_, remove_old, oldest,
    get_timestamps, set_timestamps, of_option, ret, raise, emit.
  cbn -[evict Z.leb len Qminus].
  rewrite !Nat.add_0_r.
  destruct (rpm <=? len (evict (time_time env (clock_reads w)) (timestamps w)))
    eqn:Hfull; cbn -[evict Z.leb len Qminus].
  - destruct (evict (time_time env (clock_reads w)) (timestamps w))
      as [|t0 rest] eqn:Hlive; cbn -[evict Z.leb len Qminus].
    + rewrite Nat.add_1_r. reflexivity.
    + destruct (Qgt_bool (60 - (time_time env (clock_reads w) - t0)) 0);
        cbn -[evict Z.leb len Qminus].
      * rewrite Nat.add_1_r.
        replace (clock_reads w + 2)%nat with (S (S (clock_reads w))) by lia.
        reflexivity.
      * rewrite Nat.add_1_r. reflexivity.
  - rewrite Nat.add_1_r. reflexivity.
Qed.

(** [get_wait_time] unfolded. *)
Lemma get_wait_time_eval (env : Env) (rpm : Z) (w : World) :
  get_wait_time env rpm w =
  let now := reading env w 0 in
  let live := evict now (timestamps w) in
  if rpm <=? len live
  then match live with
       | [] => (Err IndexError, with_limiter w 1 live, [])
       | t0 :: _ => (Ok (max0 (60 - (now - t0))%Q), with_limiter w 1 live, [])
       end
  else (Ok 0%Q, with_limiter w 1 live, []).
Proof.
  unfold get_wait_time, reading, with_limiter, bind, now_, remove_old, oldest,
    get_timestamps, set_timestamps, of_option, ret, raise.
  cbn -[evict Z.leb len Qminus max0].
  rewrite !Nat.add_0_r.
  destruct (rpm <=? len (evict (time_time env (clock_reads w)) (timestamps w)))
    eqn:Hfull; cbn -[evict Z.leb len Qminus max0].
  - destruct (evict (time_time env (clock_reads w)) (timestamps w))
      as [|t0 rest] eqn:Hlive; cbn -[evict Z.leb len Qminus max0];
      rewrite Nat.add_1_r; reflexivity.
  - rewrite Nat.add_1_r. reflexivity.
Qed.

Lemma with_limiter_twice (w : World) (a b : nat) (ts1 ts2 : list Q) :
  with_limiter (with_limiter w a ts1) b ts2 = with_limiter w (a + b) ts2.
Proof. unfold with_limiter. cbn. rewrite Nat.add_assoc. reflexivity. Qed.

(** Eviction drops a prefix, every entry of which is older than 60 s. *)
Lemma evict_drops_stale_prefix (now : Q) (ts : list Q) :
  exists dropped,
    ts = dropped ++ evict now ts
    /\ Forall (fun t => (60 < now - t)%Q) dropped.
Proof.
  induction ts as [|t0 rest IH].
  - exists []. split; [reflexivity | constructor].
  - cbn [evict]. destruct (Qgt_bool (now - t0) 60) eqn:E.
    + destruct IH as [dropped [Heq Hall]].
      exists (t0 :: dropped). split.
      * cbn. rewrite <- Heq. reflexivity.
      * constructor; [apply Qgt_bool_true; exact E | exact Hall].
    + exists []. split; [reflexivity | constructor].
Qed.

(** What stays at the head after eviction is inside the window. *)
Lemma evict_head_in_window (now t0 : Q) (ts rest : list Q) :
  evict now ts = t0 :: rest -> (now - t0 <= 60)%Q.
Proof.
  induction ts as [|t ts IH]; cbn [evict]; [discriminate|].
  destruct (Qgt_bool (now - t) 60) eqn:E; [exact IH|].
  intros H. injection H as -> _. apply Qgt_bool_false. exact E.
Qed.

Lemma evict_keeps (now t0 : Q) (rest : list Q) :
  (now - t0 <= 60)%Q -> evict now (t0 :: rest) = t0 :: rest.
Proof.
  intros H. cbn [evict]. apply Qgt_bool_false in H. rewrite H. reflexivity.
Qed.

Lemma not_after_evict (bound now : Q) (ts : list Q) :
  not_after bound ts -> not_after bound (evict now ts).
Proof.
  unfold not_after. intros H.
  destruct (evict_drops_stale_prefix now ts) as [dropped [Heq _]].
  rewrite Heq in H. apply Forall_app in H. tauto.
Qed.

Lemma chronological_evict (now : Q) (ts : list Q) :
  chronological ts -> chronological (evict now ts).
Proof.
  unfold chronological. induction ts as [|t ts IH]; cbn [evict]; intros H.
  - constructor.
  - destruct (Qgt_bool (now - t) 60); [|exact H].
    apply IH. inversion H; assumption.
Qed.

(** In a chronological queue, eviction keeps exactly the timestamps of the
    trailing window. *)
Lemma evict_is_window (now : Q) (ts : list Q) :
  chronological ts -> evict now ts = filter (in_window now) ts.
Proof.
  unfold chronological. induction ts as [|t ts IH]; intros H;
    [reflexivity|].
  inversion H as [|? ? Hs Hall]; subst.
  cbn [evict filter]. unfold in_window at 1.
  unfold Qgt_bool. destruct (Qle_bool (now - t) 60) eqn:E; cbn [negb].
  - f_equal. apply Qle_bool_iff in E.
    clear IH H Hs. induction ts as [|u ts IHts]; [reflexivity|].
    inversion Hall as [|? ? Hu Hrest]; subst.
    cbn [filter]. unfold in_window at 1.
    assert (Hin : Qle_bool (now - u) 60 = true)
      by (apply Qle_bool_iff; lra).
    rewrite Hin. f_equal. apply IHts. exact Hrest.
  - apply IH. exact Hs.
Qed.

(** After [acquire] the queue is again chronological, when the clock did
    not run backwards. *)
Lemma acquire_keeps_chronological (env : Env) (rpm : Z) (w : World) :
  chronological (timestamps w) ->
  not_after (reading env w 0) (timestamps w) ->
  (reading env w 0 <= reading env w 1)%Q ->
  let w' := snd (fst (acquire env rpm w)) in
  chronological (timestamps w')
  /\ exists latest, not_after latest (timestamps w').
Proof.
  intros Hsorted Hbound Hclock. rewrite acquire_eval. cbv zeta.
  assert (Happ : forall now ts,
             chronological ts -> not_after now ts ->
             chronological (ts ++ [now]) /\ not_after now (ts ++ [now])).
  { intros now ts Hc Hn. unfold chronological, not_after in *. split.
    - induction ts as [|t ts IH]; cbn.
      + constructor; constructor.
      + inversion Hc; inversion Hn; subst. constructor; [auto|].
        apply Forall_app. split; [assumption|]. constructor; [assumption|].
        constructor.
    - apply Forall_app. split; [assumption|].
      constructor; [apply Qle_refl | constructor]. }
  set (now := reading env w 0) in *.
  set (live := evict now (timestamps w)).
  assert (Hl1 : chronological live) by (apply chronological_evict; assumption).
  assert (Hl2 : not_after now live) by (apply not_after_evict; assumption).
  destruct (rpm <=? len live).
  - destruct live as [|t0 rest] eqn:Hlive.
    + cbn. split; [constructor | exists now; constructor].
    + destruct (Qgt_bool (60 - (now - t0)) 0); cbn [fst snd timestamps with_limiter].
      * assert (Hb : not_after (reading env w 1) (evict (reading env w 1) (t0 :: rest))).
        { apply not_after_evict. unfold not_after in *.
          eapply Forall_impl; [|exact Hl2]. cbv beta. intros a Ha. lra. }
        destruct (Happ (reading env w 1) (evict (reading env w 1) (t0 :: rest)))
          as [H1 H2]; [apply chronological_evict; assumption | exact Hb |].
        split; [exact H1 | eexists; exact H2].
      * destruct (Happ now (t0 :: rest)) as [H1 H2]; try assumption.
        split; [exact H1 | eexists; exact H2].
  - cbn [fst snd timestamps with_limiter].
    destruct (Happ now live) as [H1 H2]; try assumption.
    split; [exact H1 | eexists; exact H2].
Qed.

Lemma reading_with_limiter (env : Env) (w : World) (j i : nat) (ts : list Q) :
  reading env (with_limiter w j ts) i = reading env w (j + i).
Proof. unfold reading, with_limiter. cbn. rewrite Nat.add_assoc. reflexivity. Qed.

Lemma len_map_seq {A : Type} (f : nat -> A) (a n : nat) :
  len (map f (seq a n)) = Z.of_nat n.
Proof. unfold len. rewrite length_map, length_seq. reflexivity. Qed.

(** The queue of a burst is not touched by eviction while the burst stays
    within a minute of its first reading. *)
Lemma evict_burst (env : Env) (w : World) (now : Q) (j : nat) :
  (now - reading env w 0 <= 60)%Q ->
  evict now (map (reading env w) (seq 0 j)) = map (reading env w) (seq 0 j).
Proof.
  intros H. destruct j as [|j]; [reflexivity|].
  cbn [seq map]. apply evict_keeps. exact H.
Qed.

(** [k] more calls of a burst that has made [j] calls: no sleep, and the
    queue holds the readings of all the calls. *)
Lemma repeat_acquire_fills (env : Env) (rpm : Z) (w : World) :
  forall k j : nat,
    Z.of_nat (j + k) <= rpm ->
    (forall i, (i < j + k)%nat ->
               (reading env w i - reading env w 0 <= 60)%Q) ->
    repeat_acquire env rpm k
      (with_limiter w j (map (reading env w) (seq 0 j)))
    = (Ok tt,
       with_limiter w (j + k) (map (reading env w) (seq 0 (j + k))), []).
Proof.
  induction k as [|k IH]; intros j Hcap Hnear.
  - cbn. rewrite Nat.add_0_r. reflexivity.
  - cbn [repeat_acquire]. unfold bind.
    rewrite acquire_eval. cbv zeta.
    cbn [timestamps with_limiter].
    rewrite reading_with_limiter, Nat.add_0_r.
    rewrite evict_burst by (apply Hnear; lia).
    rewrite len_map_seq.
    replace (rpm <=? Z.of_nat j) with false
      by (symmetry; apply Z.leb_gt; lia).
    rewrite with_limiter_twice.
    replace (map (reading env w) (seq 0 j) ++ [reading env w j])
      with (map (reading env w) (seq 0 (j + 1))).
    + rewrite IH.
      * replace (j + 1 + k)%nat with (j + S k)%nat by lia. reflexivity.
      * lia.
      * intros i Hi. apply Hnear. lia.
    + rewrite Nat.add_1_r, seq_S, map_app. reflexivity.
Qed.

(** C7.  A limiter of [rpm] requests per minute whose queue came from a
    clock that does not run backwards.  When [rpm] timestamps lie in the
    trailing 60-second window, [acquire] sleeps [60 - (now - oldest)]
    seconds, a time between 0 and 60 (no sleep when it is 0), then records
    the clock reading taken after the sleep and returns.  When fewer than
    [rpm] timestamps lie in the window it records the reading and returns
    without sleeping.  In particular, of [rpm + 1] calls made from an empty
    limiter within one minute, the first [rpm] do not sleep and the last one
    sleeps 60 seconds less the time since the first. *)
Theorem acquire_blocks_until_window_permits :
  forall (env : Env) (rpm : Z) (w : World),
    1 <= rpm ->
    (chronological (timestamps w) ->
     not_after (reading env w 0) (timestamps w) ->
     let now := reading env w 0 in
     let live := evict now (timestamps w) in
     (rpm <= window_count now (timestamps w) ->
      exists oldest rest,
        live = oldest :: rest
        /\ let wait := (60 - (now - oldest))%Q in
           (0 <= wait)%Q /\ (wait <= 60)%Q
           /\ acquire env rpm w =
              if Qgt_bool wait 0
              then (Ok tt,
                    with_limiter w 2
                      (evict (reading env w 1) live ++ [reading env w 1]),
                    [EvRateSleep wait])
              else (Ok tt, with_limiter w 1 (live ++ [now]), []))
     /\ (window_count now (timestamps w) < rpm ->
         acquire env rpm w = (Ok tt, with_limiter w 1 (live ++ [now]), [])))
    /\ (timestamps w = [] ->
        let n := Z.to_nat rpm in
        (forall i, (i <= n)%nat ->
           (0 <= reading env w i - reading env w 0 <= 60)%Q) ->
        let burst := map (reading env w) (seq 0 n) in
        let wait := (60 - (reading env w n - reading env w 0))%Q in
        (0 <= wait)%Q /\ (wait <= 60)%Q
        /\ repeat_acquire env rpm n w = (Ok tt, with_limiter w n burst, [])
        /\ bind (repeat_acquire env rpm n) (fun _ => acquire env rpm) w =
           if Qgt_bool wait 0
           then (Ok tt,
                 with_limiter w (n + 2)
                   (evict (reading env w (n + 1)) burst
                    ++ [reading env w (n + 1)]),
                 [EvRateSleep wait])
           else (Ok tt, with_limiter w (n + 1) (burst ++ [reading env w n]),
                 [])).
Proof.
  intros env rpm w Hrpm. split.
  - intros Hsorted Hbound. cbv zeta.
    assert (Hwin : window_count (reading env w 0) (timestamps w)
                   = len (evict (reading env w 0) (timestamps w))).
    { unfold window_count. rewrite evict_is_window by assumption.
      reflexivity. }
    rewrite Hwin. rewrite acquire_eval. cbv zeta.
    set (now := reading env w 0) in *.
    assert (Hlive : not_after now (evict now (timestamps w)))
      by (apply not_after_evict; exact Hbound).
    pose proof (evict_head_in_window now) as Hhead.
    specialize (fun t0 rest => Hhead t0 (timestamps w) rest).
    set (live := evict now (timestamps w)) in *.
    split.
    + intros Hfull.
      destruct live as [|oldest rest]; [cbn in Hfull; lia|].
      exists oldest, rest. split; [reflexivity|].
      assert (Hfresh : (now - oldest <= 60)%Q)
        by (apply (Hhead oldest rest); reflexivity).
      assert (Hold : (oldest <= now)%Q) by (inversion Hlive; assumption).
      split; [lra|]. split; [lra|].
      replace (rpm <=? len (oldest :: rest)) with true
        by (symmetry; apply Z.leb_le; exact Hfull).
      reflexivity.
    + intros Hfree.
      replace (rpm <=? len live) with false
        by (symmetry; apply Z.leb_gt; exact Hfree).
      reflexivity.
  - intros Hempty n Hnear burst wait.
    assert (Hn : Z.of_nat n = rpm) by (unfold n; lia).
    assert (Hpos : (1 <= n)%nat) by lia.
    assert (Hfill : repeat_acquire env rpm n w
                    = (Ok tt, with_limiter w n burst, [])).
    { pose proof (repeat_acquire_fills env rpm w n 0) as H.
      cbn [seq map Nat.add] in H.
      rewrite <- Hempty in H. rewrite with_limiter_same in H.
      apply H; [lia|]. intros i Hi. apply Hnear. lia. }
    pose proof (Hnear n (Nat.le_refl n)) as Hlast.
    split; [unfold wait; lra|]. split; [unfold wait; lra|].
    split; [exact Hfill|].
    unfold bind. rewrite Hfill. rewrite acquire_eval. cbv zeta.
    cbn [timestamps with_limiter].
    rewrite !reading_with_limiter, Nat.add_0_r.
    unfold burst. rewrite evict_burst by lra.
    rewrite len_map_seq.
    replace (rpm <=? Z.of_nat n) with true
      by (symmetry; apply Z.leb_le; lia).
    destruct n as [|m] eqn:En; [lia|].
    cbn [seq map]. fold wait.
    rewrite !with_limiter_twice.
    destruct (Qgt_bool wait 0); reflexivity.
Qed.

(** What the two limiter calls of an attempt can do: they read the clock
    and change the queue, sleep at most once, and raise nothing when the
    rate is at least 1. *)
Lemma get_wait_time_shape (env : Env) (rpm : Z) (w : World) :
  exists r ts,
    get_wait_time env rpm w = (r, with_limiter w 1 ts, [])
    /\ (1 <= rpm -> exists q, r = Ok q).
Proof.
  rewrite get_wait_time_eval. cbv zeta.
  set (live := evict (reading env w 0) (timestamps w)).
  destruct (rpm <=? len live) eqn:Hfull.
  - destruct live as [|t0 rest].
    + eexists _, _. split; [reflexivity|].
      intros H. apply Z.leb_le in Hfull. cbn in Hfull. lia.
    + eexists _, _. split; [reflexivity|]. intros _. eexists. reflexivity.
  - eexists _, _. split; [reflexivity|]. intros _. eexists. reflexivity.
Qed.

Lemma acquire_shape (env : Env) (rpm : Z) (w : World) :
  exists r k ts lim,
    acquire env rpm w = (r, with_limiter w k ts, lim)
    /\ Forall (fun e => RetrySpec.is_rate_sleep e = true) lim
    /\ (1 <= rpm -> r = Ok tt).
Proof.
  rewrite acquire_eval. cbv zeta.
  set (live := evict (reading env w 0) (timestamps w)).
  destruct (rpm <=? len live) eqn:Hfull.
  - destruct live as [|t0 rest].
    + eexists _, _, _, _. split; [reflexivity|]. split; [constructor|].
      intros H. apply Z.leb_le in Hfull. cbn in Hfull. lia.
    + destruct (Qgt_bool (60 - (reading env w 0 - t0)) 0).
      * eexists _, _, _, _. split; [reflexivity|].
        split; [repeat constructor | reflexivity].
      * eexists _, _, _, _. split; [reflexivity|].
        split; [constructor | reflexivity].
  - eexists _, _, _, _. split; [reflexivity|].
    split; [constructor | reflexivity].
Qed.

(** Three calls within three seconds at 2 requests per minute: the third
    sleeps 58 seconds. *)
Lemma acquire_blocks_witness :
  1 <= 2
  /\ snd (bind (repeat_acquire Samples.failing_env 2 2)
            (fun _ => acquire Samples.failing_env 2) Samples.fresh_world)
     = [EvRateSleep (60 - (2 - 0))%Q].
Proof.
  split; [lia|].
  destruct (acquire_blocks_until_window_permits
              Samples.failing_env 2 Samples.fresh_world) as [_ H]; [lia|].
  destruct H as (_ & _ & _ & H).
  - reflexivity.
  - intros i Hi.
    assert (i = 0 \/ i = 1 \/ i = 2)%nat as [-> | [-> | ->]] by lia;
      vm_compute; split; discriminate.
  - change (Z.to_nat 2) with 2%nat in H. rewrite H.
    vm_compute. reflexivity.
Defined.

(** C8 as stated fails: with one request admitted at time 0 and the clock
    at 100 s, [get_wait_time] empties the timestamp window. *)
Lemma get_wait_time_changes_window :
  timestamps (snd (fst (get_wait_time Samples.late_env 1 Samples.stale_world)))
  <> timestamps Samples.stale_world.
Proof. vm_compute. discriminate. Qed.

(** C8, amended.  [get_wait_time] neither sleeps nor raises; it returns a
    time that is not negative, and that is the time [acquire] would sleep
    at the same clock reading.  It does change the limiter: the timestamps
    older than 60 seconds at the head of the queue are removed, as [acquire]
    would remove them; nothing else changes, so the queue is the same
    before and after when its head is within the window. *)
Theorem get_wait_time_reports_wait :
  forall (env : Env) (rpm : Z) (w : World),
    1 <= rpm ->
    let now := reading env w 0 in
    let live := evict now (timestamps w) in
    exists wait : Q,
      get_wait_time env rpm w = (Ok wait, with_limiter w 1 live, [])
      /\ (0 <= wait)%Q
      /\ snd (acquire env rpm w)
         = (if Qgt_bool wait 0 then [EvRateSleep wait] else [])
      /\ (exists dropped,
            timestamps w = dropped ++ live
            /\ Forall (fun t => (60 < now - t)%Q) dropped)
      /\ (forall t0 rest,
            timestamps w = t0 :: rest -> (now - t0 <= 60)%Q ->
            live = timestamps w).
Proof.
  intros env rpm w Hrpm. cbv zeta.
  rewrite get_wait_time_eval, acquire_eval. cbv zeta.
  set (now := reading env w 0).
  set (live := evict now (timestamps w)).
  assert (Hframe :
            (exists dropped,
               timestamps w = dropped ++ live
               /\ Forall (fun t => (60 < now - t)%Q) dropped)
            /\ (forall t0 rest,
                  timestamps w = t0 :: rest -> (now - t0 <= 60)%Q ->
                  live = timestamps w)).
  { split; [apply evict_drops_stale_prefix|].
    intros t0 rest Heq Hin. unfold live. rewrite Heq.
    apply evict_keeps. exact Hin. }
  destruct (rpm <=? len live) eqn:Hfull.
  - destruct live as [|t0 rest].
    + apply Z.leb_le in Hfull. cbn in Hfull. lia.
    + exists (max0 (60 - (now - t0))). unfold max0.
      destruct (Qgt_bool (60 - (now - t0)) 0) eqn:Hpos.
      * split; [reflexivity|]. split.
        -- apply Qgt_bool_true in Hpos. lra.
        -- split; [rewrite Hpos; reflexivity | exact Hframe].
      * split; [reflexivity|]. split; [lra|].
        split; [reflexivity | exact Hframe].
  - exists 0%Q. split; [reflexivity|]. split; [lra|].
    split; [reflexivity | exact Hframe].
Qed.

(** At 1 request per minute, 30 seconds after a request: the wait is the
    remaining 30 seconds and the window is left as it was. *)
Lemma get_wait_time_reports_wait_witness :
  1 <= 1
  /\ exists wait : Q,
       get_wait_time Samples.late_env 1
         (with_limiter Samples.fresh_world 0 [70%Q])
       = (Ok wait, with_limiter Samples.fresh_world 1 [70%Q], [])
       /\ (0 <= wait)%Q.
Proof.
  split; [lia|].
  destruct (get_wait_time_reports_wait Samples.late_env 1
              (with_limiter Samples.fresh_world 0 [70%Q]))
    as [wait (Heq & Hpos & _)]; [lia|].
  exists wait. split; [exact Heq | exact Hpos].
Defined.

End LimiterFacts.

(** ** The retry engine (core/pipeline.py, translate_with_retry) *)

Module RetryFacts.
Import Config Effects Pipeline RetrySpec LimiterSpec EffectFacts.

Lemma call_names_app (a b : list event) :
  call_names (a ++ b) = call_names a ++ call_names b.
Proof. unfold call_names. apply flat_map_app. Qed.

Lemma backoffs_app (a b : list event) :
  backoffs (a ++ b) = backoffs a ++ backoffs b.
Proof. unfold backoffs. apply flat_map_app. Qed.

Lemma engine_events_app (a b : list event) :
  engine_events (a ++ b) = engine_events a ++ engine_events b.
Proof. unfold engine_events. apply filter_app. Qed.

Section Engine.
Variable env : Env.
Variable self : TranslationPipeline.

(** The limiter step leaves the providers alone. *)
Lemma rate_limiting_shape (w : World) :
  exists r w1 lim,
    rate_limiting env self w = (r, w1, lim)
    /\ Forall (fun e => is_rate_sleep e = true) lim
    /\ nvidia_calls w1 = nvidia_calls w
    /\ fanar_calls w1 = fanar_calls w
    /\ stats w1 = stats w
    /\ files w1 = files w
    /\ (limiter_configured self -> r = Ok tt).
Proof.
  unfold rate_limiting, limiter_configured.
  destruct (rate_limiter self) as [rpm|].
  - unfold bind.
    destruct (LimiterFacts.get_wait_time_shape env rpm w)
      as (r1 & ts1 & -> & Hok1).
    destruct r1 as [q|e].
    + destruct (LimiterFacts.acquire_shape env rpm (with_limiter w 1 ts1))
        as (r2 & k & ts2 & lim & -> & Hlim & Hok2).
      eexists _, _, _. split; [reflexivity|]. cbn.
      repeat split; auto.
    + eexists _, _, _. split; [reflexivity|]. cbn.
      repeat split; auto.
      intros H. destruct (Hok1 H) as [q Hq]. discriminate.
  - eexists _, _, _. split; [reflexivity|]. cbn. repeat split; auto.
Qed.

Variable api_name : pystr.
Variable api_func : provider.
Variables processed_text text : pystr.

Local Abbreviation try_attempt :=
  (RetrySpec.try_attempt env self api_name api_func processed_text text).
Local Abbreviation answer_of := (RetrySpec.answer_of api_name text).
Local Abbreviation on_provider := (RetrySpec.on_provider api_name processed_text).
Local Abbreviation rejected := (RetrySpec.rejected text).

(** A provider call: the answer is the provider's, the call is counted and
    logged. *)
Lemma call_api_eval (w : World) :
  exists w1,
    call_api env api_name api_func processed_text REQUEST_TIMEOUT w
    = (match respond env api_func (calls_made w api_func) processed_text
               REQUEST_TIMEOUT with
       | Returns r => Ok r
       | Raises e => Err e
       end,
       w1,
       [EvCall api_name processed_text REQUEST_TIMEOUT
          (respond env api_func (calls_made w api_func) processed_text
             REQUEST_TIMEOUT)])
    /\ calls_made w1 api_func = S (calls_made w api_func)
    /\ stats w1 = stats w /\ files w1 = files w.
Proof.
  unfold call_api, respond, calls_made.
  destruct api_func; eexists; (split; [reflexivity | cbn; auto]).
Qed.

(** One attempt: limiter sleeps first, then at most one provider call, on
    the processed text; the attempt returns from the function exactly when
    that call is accepted. *)
Lemma try_attempt_shape (w : World) :
  exists w1 lim,
    Forall (fun e => is_rate_sleep e = true) lim
    /\ stats w1 = stats w /\ files w1 = files w
    /\ ((try_attempt w = (Ok None, w1, lim)
         /\ ~ limiter_configured self
         /\ calls_made w1 api_func = calls_made w api_func)
        \/ (let out := respond env api_func (calls_made w api_func)
                         processed_text REQUEST_TIMEOUT in
            try_attempt w
            = (Ok (answer_of out), w1,
               lim ++ [EvCall api_name processed_text REQUEST_TIMEOUT out])
            /\ calls_made w1 api_func = S (calls_made w api_func))).
Proof.
  unfold try_attempt, attempt_body.
  destruct (rate_limiting_shape w)
    as (r & w1 & lim & Hrl & Hlim & Hn & Hf & Hs & Hfi & Hok).
  destruct r as [[]|e].
  - (* the provider is called *)
    destruct (call_api_eval w1) as (w2 & Hcall & Hcount & Hs2 & Hfi2).
    assert (Hsame : calls_made w1 api_func = calls_made w api_func)
      by (unfold calls_made; destruct api_func; assumption).
    rewrite Hsame in Hcall, Hcount.
    set (out := respond env api_func (calls_made w api_func)
                  processed_text REQUEST_TIMEOUT) in *.
    exists w2, lim. split; [exact Hlim|].
    split; [congruence|]. split; [congruence|]. right. cbv zeta.
    split; [|exact Hcount].
    unfold answer_of, accepts.
    destruct out as [res|e].
    + destruct (success res) eqn:Hsucc.
      * destruct (translation res) as [tr|] eqn:Htr.
        -- destruct (Postprocessing.validate_translation text tr)
             as [is_valid checks] eqn:Hv. cbn [fst].
           erewrite try_ok; [reflexivity|].
           erewrite bind_ok by exact Hrl.
           erewrite bind_ok by exact Hcall.
           rewrite Hsucc, Htr. cbn [of_option]. rewrite bind_ret, Hv.
           destruct is_valid; cbn; rewrite ?app_nil_r; reflexivity.
        -- (* [validate_translation] raises on a [None] translation,
              and the handler swallows it *)
           erewrite try_err; [reflexivity|].
           erewrite bind_ok by exact Hrl.
           erewrite bind_ok by exact Hcall.
           rewrite Hsucc, Htr. cbn. rewrite ?app_nil_r. reflexivity.
      * erewrite try_ok; [reflexivity|].
        erewrite bind_ok by exact Hrl.
        erewrite bind_ok by exact Hcall.
        rewrite Hsucc. cbn. rewrite ?app_nil_r. reflexivity.
    + erewrite try_err; [reflexivity|].
      erewrite bind_ok by exact Hrl.
      erewrite bind_err by exact Hcall. reflexivity.
  - (* the limiter raised *)
    exists w1, lim. split; [exact Hlim|].
    split; [exact Hs|]. split; [exact Hfi|]. left.
    split.
    + erewrite try_err; [reflexivity|].
      erewrite bind_err by exact Hrl. reflexivity.
    + split.
      * intros H. specialize (Hok H). discriminate.
      * unfold calls_made. destruct api_func; assumption.
Qed.

Variable max_retries : Z.

Local Abbreviation backoff_events := (RetrySpec.backoff_events max_retries).

Lemma limiter_sleeps_facts (lim : list event) :
  Forall (fun e => is_rate_sleep e = true) lim ->
  Forall on_provider lim /\ Forall rejected lim /\ call_names lim = []
  /\ engine_events lim = [].
Proof.
  induction 1 as [|e lim He _ IH].
  - repeat split; constructor.
  - destruct IH as (H1 & H2 & H3 & H4).
    destruct e; try discriminate.
    repeat split; try (constructor; [exact I || reflexivity | assumption]);
      assumption.
Qed.

Lemma backoff_eval (attempt : Z) (w : World) :
  (if attempt <? max_retries - 1
   then backoff_sleep (BACKOFF_MULTIPLIER ^ attempt)
   else ret tt) w
  = (Ok tt, w, backoff_events attempt).
Proof.
  unfold backoff_events. destruct (attempt <? max_retries - 1); reflexivity.
Qed.

Lemma backoff_events_facts (attempt : Z) :
  Forall on_provider (backoff_events attempt)
  /\ Forall rejected (backoff_events attempt)
  /\ call_names (backoff_events attempt) = [].
Proof.
  unfold backoff_events. destruct (attempt <? max_retries - 1);
    repeat split; repeat constructor.
Qed.

(** A missed attempt is followed by the backoff and the remaining
    attempts. *)
Lemma attempts_loop_miss (attempt : Z) (rest : list Z) (w w1 : World)
    (evs : list event) :
  try_attempt w = (Ok None, w1, evs) ->
  attempts_loop env self api_name api_func processed_text text max_retries
    (attempt :: rest) w
  = (fst (fst (attempts_loop env self api_name api_func processed_text text
                 max_retries rest w1)),
     snd (fst (attempts_loop env self api_name api_func processed_text text
                 max_retries rest w1)),
     evs ++ backoff_events attempt
     ++ snd (attempts_loop env self api_name api_func processed_text text
               max_retries rest w1)).
Proof.
  intros Htry. cbn [attempts_loop]. fold try_attempt.
  erewrite bind_ok by exact Htry. cbv beta iota.
  erewrite bind_ok by apply backoff_eval.
  reflexivity.
Qed.

Lemma attempts_loop_hit (attempt : Z) (rest : list Z) (w w1 : World)
    (evs : list event) (answer : retry_result) :
  try_attempt w = (Ok (Some answer), w1, evs) ->
  attempts_loop env self api_name api_func processed_text text max_retries
    (attempt :: rest) w
  = (Ok (Some answer), w1, evs).
Proof.
  intros Htry. cbn [attempts_loop]. fold try_attempt.
  erewrite bind_ok by exact Htry. cbn. rewrite app_nil_r. reflexivity.
Qed.

(** The attempts on one provider: they never raise; every event is a sleep
    or a call of this provider on the processed text; there are no more
    calls than attempts; and either no call was accepted and the loop falls
    through, or the last event is the one accepted call and the loop
    returns its postprocessed translation. *)
Lemma attempts_loop_shape (attempts : list Z) :
  forall w : World,
  exists r w' evs,
    attempts_loop env self api_name api_func processed_text text max_retries
      attempts w = (Ok r, w', evs)
    /\ Forall on_provider evs
    /\ (List.length (call_names evs) <= List.length attempts)%nat
    /\ stats w' = stats w /\ files w' = files w
    /\ match r with
       | None => Forall rejected evs
       | Some answer =>
           exists init out tr,
             evs = init
                   ++ [EvCall api_name processed_text REQUEST_TIMEOUT out]
             /\ Forall rejected init
             /\ accepts text out = Some tr
             /\ answer
                = (Some (Postprocessing.postprocess_translation tr),
                   api_name, None)
       end.
Proof.
  induction attempts as [|attempt rest IH]; intros w.
  - exists None, w, []. cbn. repeat split; constructor.
  - destruct (try_attempt_shape w)
      as (w1 & lim & Hlim & Hs1 & Hf1 & [(Htry & _ & _) | (Htry & _)]).
    + (* no call was made *)
      destruct (limiter_sleeps_facts lim Hlim) as (L1 & L2 & L3 & _).
      destruct (backoff_events_facts attempt) as (B1 & B2 & B3).
      destruct (IH w1) as (r & w' & evs & Hloop & H1 & H2 & Hs & Hf & H3).
      rewrite (attempts_loop_miss _ _ _ _ _ Htry), Hloop. cbn [fst snd].
      exists r, w', (lim ++ backoff_events attempt ++ evs).
      split; [reflexivity|]. split; [|split; [|split; [|split]]].
      * repeat (apply Forall_app; split); assumption.
      * rewrite !call_names_app, L3, B3. cbn [app List.length]. lia.
      * congruence.
      * congruence.
      * destruct r as [answer|].
        -- destruct H3 as (init & out & tr & -> & Hi & Ha & Hans).
           exists (lim ++ backoff_events attempt ++ init), out, tr.
           rewrite <- !app_assoc. split; [reflexivity|].
           split; [|split; assumption].
           repeat (apply Forall_app; split); assumption.
        -- repeat (apply Forall_app; split); assumption.
    + (* the provider was called *)
      cbv zeta in Htry.
      set (out := respond env api_func (calls_made w api_func)
                    processed_text REQUEST_TIMEOUT) in *.
      destruct (limiter_sleeps_facts lim Hlim) as (L1 & L2 & L3 & _).
      assert (Hcall : on_provider
                        (EvCall api_name processed_text REQUEST_TIMEOUT out))
        by (cbn; auto).
      assert (Hnames : call_names
                         (lim ++ [EvCall api_name processed_text
                                    REQUEST_TIMEOUT out])
                       = [api_name]).
      { rewrite call_names_app, L3. reflexivity. }
      unfold answer_of in Htry.
      destruct (accepts text out) as [tr|] eqn:Hacc.
      * rewrite (attempts_loop_hit _ _ _ _ _ _ Htry).
        eexists _, _, _. split; [reflexivity|].
        split; [apply Forall_app; split; [assumption | repeat constructor]|].
        split; [rewrite Hnames; cbn [List.length]; lia|].
        split; [assumption|]. split; [assumption|].
        exists lim, out, tr. repeat split; assumption.
      * destruct (backoff_events_facts attempt) as (B1 & B2 & B3).
        destruct (IH w1) as (r & w' & evs & Hloop & H1 & H2 & Hs & Hf & H3).
        rewrite (attempts_loop_miss _ _ _ _ _ Htry), Hloop. cbn [fst snd].
        assert (Hrej : rejected
                         (EvCall api_name processed_text REQUEST_TIMEOUT out))
          by (unfold rejected; cbn; rewrite Hacc; reflexivity).
        eexists _, _, _. split; [reflexivity|].
        split; [|split; [|split; [|split]]].
        -- repeat (apply Forall_app; split); try assumption.
           repeat constructor.
        -- rewrite !call_names_app, L3, B3.
           cbn [app List.length call_names flat_map]. lia.
        -- congruence.
        -- congruence.
        -- destruct r as [answer|].
           ++ destruct H3 as (init & out' & tr & -> & Hi & Ha & Hans).
              exists ((lim ++ [EvCall api_name processed_text
                                 REQUEST_TIMEOUT out])
                      ++ backoff_events attempt ++ init), out', tr.
              rewrite <- !app_assoc. split; [reflexivity|].
              split; [|split; assumption].
              repeat (apply Forall_app; split); try assumption.
              repeat constructor. exact Hrej.
           ++ repeat (apply Forall_app; split); try assumption.
              repeat constructor. exact Hrej.
Qed.

End Engine.

Section Providers.
Variable env : Env.
Variable self : TranslationPipeline.
Variables processed_text text : pystr.
Variable max_retries : Z.

Local Abbreviation outcome_of := (RetrySpec.outcome_of processed_text text).

Lemma call_names_of_provider (api_name : pystr) (evs : list event) :
  Forall (on_provider api_name processed_text) evs ->
  call_names evs = repeat api_name (List.length (call_names evs))
  /\ Forall (call_on processed_text) evs.
Proof.
  induction 1 as [|e evs He _ [IH1 IH2]]; [split; constructor|].
  destruct e as [n t tmo out| |]; cbn in *.
  - destruct He as (-> & -> & ->). split.
    + f_equal. exact IH1.
    + constructor; [split; reflexivity | exact IH2].
  - split; [exact IH1 | constructor; [exact I | exact IH2]].
  - split; [exact IH1 | constructor; [exact I | exact IH2]].
Qed.

Lemma provider_blocks_zero (names : list pystr) :
  provider_blocks names (repeat 0%nat (List.length names)) = [].
Proof. induction names as [|n names IH]; [reflexivity | exact IH]. Qed.

(** The loop over the providers: it never raises, calls the providers in
    the order of the list, each at most once per attempt and always on the
    processed text, and stops at the first accepted call. *)
Lemma apis_loop_shape (todo : list (pystr * provider)) :
  forall w : World,
  exists res w' evs ks,
    apis_loop env self processed_text text max_retries todo w
    = (Ok res, w', evs)
    /\ stats w' = stats w /\ files w' = files w
    /\ Forall (call_on processed_text) evs
    /\ List.length ks = List.length todo
    /\ Forall (fun k => (k <= Z.to_nat max_retries)%nat) ks
    /\ call_names evs = provider_blocks (map fst todo) ks
    /\ outcome_of (map fst todo) res evs.
Proof.
  induction todo as [|[api_name api_func] rest IH]; intros w.
  - exists exhausted, w, [], []. cbn.
    split; [reflexivity|]. split; [reflexivity|]. split; [reflexivity|].
    split; [constructor|]. split; [reflexivity|]. split; [constructor|].
    split; [reflexivity|].
    left. split; [reflexivity | constructor].
  - destruct (attempts_loop_shape env self api_name api_func processed_text
                text max_retries (Pandas.range 0 max_retries) w)
      as (r & w1 & evs1 & Hloop & Hon & Hlen & Hs1 & Hf1 & Hr).
    destruct (call_names_of_provider api_name evs1 Hon) as [Hnames Hcalls].
    assert (Hk : (List.length (call_names evs1) <= Z.to_nat max_retries)%nat).
    { unfold Pandas.range in Hlen.
      rewrite length_map, length_seq, Z.sub_0_r in Hlen. exact Hlen. }
    cbn [apis_loop]. erewrite bind_ok by exact Hloop.
    destruct r as [answer|].
    + destruct Hr as (init & out & tr & Hevs & Hinit & Hacc & Hans).
      exists answer, w1, evs1,
        (List.length (call_names evs1) :: repeat 0%nat (List.length rest)).
      cbn. rewrite app_nil_r. split; [reflexivity|].
      split; [assumption|]. split; [assumption|]. split; [assumption|].
      split; [rewrite repeat_length; reflexivity|].
      split; [constructor; [exact Hk|]; apply Forall_forall;
              intros k Hin; apply repeat_spec in Hin; lia|].
      split.
      * rewrite <- (length_map fst rest), provider_blocks_zero, app_nil_r.
        exact Hnames.
      * right. exists init, api_name, out, tr.
        repeat split; try assumption. left. reflexivity.
    + destruct (IH w1)
        as (res & w' & evs2 & ks & Hrest & Hs & Hf & Hc & Hl & Hb & Hn & Ho).
      cbv beta iota. rewrite Hrest. cbn [fst snd].
      exists res, w', (evs1 ++ evs2), (List.length (call_names evs1) :: ks).
      split; [reflexivity|].
      split; [congruence|]. split; [congruence|].
      split; [apply Forall_app; split; assumption|].
      split; [cbn; congruence|].
      split; [constructor; assumption|].
      split.
      * rewrite call_names_app. cbn [map fst provider_blocks].
        rewrite <- Hnames, Hn. reflexivity.
      * destruct Ho as [[-> Hrej] | (init & n & out & tr & -> & Hi & Ha & Hin & ->)].
        -- left. split; [reflexivity|]. apply Forall_app. split; assumption.
        -- right. exists (evs1 ++ init), n, out, tr.
           rewrite app_assoc. split; [reflexivity|].
           split; [apply Forall_app; split; assumption|].
           split; [assumption|]. split; [right; exact Hin | reflexivity].
Qed.

End Providers.

(** An accepted call can only be the last event of a run. *)
Lemma accepted_is_last (text : pystr) (init pre post : list event)
    (final e : event) :
  Forall (rejected text) init ->
  accepted_event text e = true ->
  init ++ [final] = pre ++ e :: post ->
  post = [] /\ e = final.
Proof.
  revert pre. induction init as [|x init IH]; intros pre Hrej Hacc Heq.
  - destruct pre as [|y pre].
    + cbn in Heq. injection Heq as -> <-. split; reflexivity.
    + cbn in Heq. injection Heq as _ Heq. destruct pre; discriminate.
  - inversion Hrej as [|? ? Hx Hinit]; subst.
    destruct pre as [|y pre].
    + cbn in Heq. injection Heq as -> _.
      unfold rejected in Hx. congruence.
    + cbn in Heq. injection Heq as _ Heq. eapply IH; eassumption.
Qed.

Lemma rejected_everywhere (text : pystr) (pre post : list event) (e : event) :
  Forall (rejected text) (pre ++ e :: post) ->
  accepted_event text e = true -> False.
Proof.
  intros H Hacc. apply Forall_app in H as [_ H].
  inversion H as [|? ? He _]; subst. unfold rejected in He. congruence.
Qed.

(** *** A provider that always fails *)

Section AllFail.
Variable env : Env.
Variable self : TranslationPipeline.
Variable api_name : pystr.
Variable api_func : provider.
Variables processed_text text : pystr.
Variable max_retries : Z.
Hypothesis Hlimiter : limiter_configured self.
Hypothesis Hfail :
  forall k, accepts text
              (respond env api_func k processed_text REQUEST_TIMEOUT) = None.

(** Every attempt calls the provider, and falls through. *)
Lemma try_attempt_fails (w : World) :
  exists w1 lim,
    try_attempt env self api_name api_func processed_text text w
    = (Ok None, w1,
       lim ++ [EvCall api_name processed_text REQUEST_TIMEOUT
                 (respond env api_func (calls_made w api_func)
                    processed_text REQUEST_TIMEOUT)])
    /\ Forall (fun e => is_rate_sleep e = true) lim
    /\ calls_made w1 api_func = S (calls_made w api_func).
Proof.
  destruct (try_attempt_shape env self api_name api_func processed_text
              text w)
    as (w1 & lim & Hlim & _ & _ & [(_ & Hno & _) | (Htry & Hcount)]).
  - contradiction.
  - cbv zeta in Htry. unfold answer_of in Htry. rewrite Hfail in Htry.
    exists w1, lim. repeat split; assumption.
Qed.

Lemma attempts_loop_all_fail (attempts : list Z) :
  forall w : World,
  exists w' evs,
    attempts_loop env self api_name api_func processed_text text max_retries
      attempts w = (Ok None, w', evs)
    /\ engine_events evs
       = failed_attempts env api_name api_func processed_text max_retries
           (calls_made w api_func) attempts
    /\ (attempts <> [] ->
        exists init out,
          evs = init
                ++ EvCall api_name processed_text REQUEST_TIMEOUT out
                   :: backoff_events max_retries (last attempts 0)).
Proof.
  induction attempts as [|attempt rest IH]; intros w.
  - exists w, []. split; [reflexivity|]. split; [reflexivity|].
    intros H. congruence.
  - destruct (try_attempt_fails w) as (w1 & lim & Htry & Hlim & Hcount).
    destruct (IH w1) as (w' & evs & Hloop & Hengine & Hlast).
    rewrite (attempts_loop_miss _ _ _ _ _ _ _ _ _ _ _ _ Htry), Hloop.
    cbn [fst snd].
    destruct (limiter_sleeps_facts api_name processed_text text lim Hlim)
      as (_ & _ & _ & Hnone).
    eexists _, _. split; [reflexivity|]. split.
    + rewrite !engine_events_app, Hnone, Hengine, Hcount.
      cbn [failed_attempts app engine_events filter is_rate_sleep negb].
      f_equal. f_equal. unfold backoff_events.
      destruct (attempt <? max_retries - 1); reflexivity.
    + intros _. destruct rest as [|next rest'].
      * cbn in Hloop. injection Hloop as _ <-.
        exists lim, (respond env api_func (calls_made w api_func)
                       processed_text REQUEST_TIMEOUT).
        cbn [last]. rewrite app_nil_r, <- app_assoc. reflexivity.
      * destruct Hlast as (init & out & ->); [discriminate|].
        eexists _, out.
        change (last (attempt :: next :: rest') 0)
          with (last (next :: rest') 0).
        rewrite !app_assoc. reflexivity.
Qed.

End AllFail.

(** *** Ranges and the trace of failed attempts *)

Lemma range_length (a b : Z) :
  List.length (Pandas.range a b) = Z.to_nat (b - a).
Proof. unfold Pandas.range. rewrite length_map, length_seq. reflexivity. Qed.

Lemma range_snoc (n : Z) :
  0 <= n -> Pandas.range 0 (n + 1) = Pandas.range 0 n ++ [n].
Proof.
  intros Hn. unfold Pandas.range.
  replace (Z.to_nat (n + 1 - 0)) with (S (Z.to_nat (n - 0))) by lia.
  rewrite seq_S, map_app. cbn [map]. f_equal. f_equal. lia.
Qed.

Lemma range_last (n : Z) :
  1 <= n -> Pandas.range 0 n = Pandas.range 0 (n - 1) ++ [n - 1].
Proof.
  intros Hn. rewrite <- range_snoc by lia. f_equal. lia.
Qed.

Lemma range_bounds (a b x : Z) : In x (Pandas.range a b) -> a <= x < b.
Proof.
  unfold Pandas.range. rewrite in_map_iff.
  intros (k & <- & Hk). apply in_seq in Hk. lia.
Qed.

Lemma filter_all {A : Type} (f : A -> bool) (l : list A) :
  (forall x, In x l -> f x = true) -> filter f l = l.
Proof.
  induction l as [|x l IH]; intros H; [reflexivity|].
  cbn. rewrite (H x (or_introl eq_refl)). f_equal.
  apply IH. intros y Hy. apply H. right. exact Hy.
Qed.

(** The attempts followed by a backoff are all but the last. *)
Lemma attempts_with_backoff (n : Z) :
  0 <= n ->
  filter (fun attempt => attempt <? n - 1) (Pandas.range 0 n)
  = Pandas.range 0 (n - 1).
Proof.
  intros Hn. destruct (Z.eq_dec n 0) as [-> | Hpos]; [reflexivity|].
  rewrite (range_last n) by lia. rewrite filter_app. cbn [filter].
  rewrite Z.ltb_irrefl, app_nil_r.
  apply filter_all. intros x Hx. apply range_bounds in Hx.
  apply Z.ltb_lt. lia.
Qed.

Lemma last_range (n : Z) : 1 <= n -> last (Pandas.range 0 n) 0 = n - 1.
Proof.
  intros Hn. rewrite (range_last n) by lia. apply last_last.
Qed.

Lemma call_names_engine (evs : list event) :
  call_names (engine_events evs) = call_names evs.
Proof.
  induction evs as [|e evs IH]; [reflexivity|].
  change (e :: evs) with ([e] ++ evs).
  rewrite engine_events_app, !call_names_app, IH.
  destruct e; reflexivity.
Qed.

Lemma backoffs_engine (evs : list event) :
  backoffs (engine_events evs) = backoffs evs.
Proof.
  induction evs as [|e evs IH]; [reflexivity|].
  change (e :: evs) with ([e] ++ evs).
  rewrite engine_events_app, !backoffs_app, IH.
  destruct e; reflexivity.
Qed.

Lemma failed_attempts_calls (env : Env) (api_name : pystr) (p : provider)
    (processed_text : pystr) (max_retries : Z) (attempts : list Z) :
  forall k,
    call_names
      (failed_attempts env api_name p processed_text max_retries k attempts)
    = repeat api_name (List.length attempts).
Proof.
  induction attempts as [|attempt rest IH]; intros k; [reflexivity|].
  cbn [failed_attempts]. change (?e :: ?l ++ ?r) with ([e] ++ l ++ r).
  rewrite !call_names_app, IH.
  destruct (attempt <? max_retries - 1); reflexivity.
Qed.

Lemma failed_attempts_backoffs (env : Env) (api_name : pystr) (p : provider)
    (processed_text : pystr) (max_retries : Z) (attempts : list Z) :
  forall k,
    backoffs
      (failed_attempts env api_name p processed_text max_retries k attempts)
    = map (fun attempt => inject_Z (BACKOFF_MULTIPLIER ^ attempt))
        (filter (fun attempt => attempt <? max_retries - 1) attempts).
Proof.
  induction attempts as [|attempt rest IH]; intros k; [reflexivity|].
  cbn [failed_attempts filter].
  change (?e :: ?l ++ ?r) with ([e] ++ l ++ r).
  rewrite !backoffs_app, IH.
  destruct (attempt <? max_retries - 1); reflexivity.
Qed.

Lemma apis_without_fallback (self : TranslationPipeline) :
  enable_fallback self = false ->
  apis self = [(primary_name self, primary_func self)].
Proof.
  intros H. unfold primary_name, primary_func, apis. rewrite H.
  destruct (str_eqb (primary_api self) (py "nvidia")); reflexivity.
Qed.

(** C2.  Fallback is disabled, the rate limiter (if any) has a rate of at
    least 1, [max_retries] is not negative, and every answer of the primary
    provider is a failure: an exception, [success = false], or a
    translation that is missing or that the validator rejects.  Then
    [translate_with_retry] returns
    [(None, "failed", "All API attempts exhausted")]; besides the sleeps of
    the rate limiter its trace is exactly one call of the primary per
    attempt, each but the last followed by a backoff of
    [BACKOFF_MULTIPLIER ** attempt] seconds: [max_retries] calls, backoffs
    with exponents 0 to [max_retries - 2], and the call of the last attempt
    as the last event. *)
Theorem exhausted_after_max_retries :
  forall (env : Env) (self : TranslationPipeline) (text : pystr)
         (max_retries : Z) (w : World),
    let processed_text :=
      Preprocessing.preprocess_for_translation (unicode env) text
        (normalize_provider_terms self) in
    enable_fallback self = false ->
    limiter_configured self ->
    0 <= max_retries ->
    (forall k,
        accepts text
          (respond env (primary_func self) k processed_text REQUEST_TIMEOUT)
        = None) ->
    let run := translate_with_retry env self text max_retries w in
    fst (fst run) = Ok exhausted
    /\ engine_events (snd run)
       = failed_attempts env (primary_name self) (primary_func self)
           processed_text max_retries (calls_made w (primary_func self))
           (Pandas.range 0 max_retries)
    /\ len (call_names (snd run)) = max_retries
    /\ backoffs (snd run)
       = map (fun attempt => inject_Z (BACKOFF_MULTIPLIER ^ attempt))
           (Pandas.range 0 (max_retries - 1))
    /\ (1 <= max_retries ->
        exists init out,
          snd run
          = init ++ [EvCall (primary_name self) processed_text
                       REQUEST_TIMEOUT out]).
Proof.
  intros env self text max_retries w processed_text Hfb Hlim Hmax Hfail.
  cbv zeta. unfold translate_with_retry. fold processed_text.
  rewrite (apis_without_fallback self Hfb). cbn [apis_loop].
  destruct (attempts_loop_all_fail env self (primary_name self)
              (primary_func self) processed_text text max_retries Hlim Hfail
              (Pandas.range 0 max_retries) w)
    as (w' & evs & Hloop & Hengine & Hlast).
  erewrite bind_ok by exact Hloop. cbn. rewrite app_nil_r.
  split; [reflexivity|]. split; [exact Hengine|]. split; [|split].
  - rewrite <- call_names_engine, Hengine, failed_attempts_calls.
    unfold len. rewrite repeat_length, range_length. lia.
  - rewrite <- backoffs_engine, Hengine, failed_attempts_backoffs.
    rewrite attempts_with_backoff by exact Hmax. reflexivity.
  - intros Hpos. destruct Hlast as (init & out & ->).
    + intros Hnil. apply (f_equal (@List.length Z)) in Hnil.
      rewrite range_length in Hnil. cbn in Hnil. lia.
    + exists init, out. rewrite last_range by exact Hpos.
      unfold backoff_events. rewrite Z.ltb_irrefl. reflexivity.
Qed.

(** Three attempts on a provider that answers HTTP 500, without fallback:
    three calls, backoffs of 1 and 2 seconds. *)
Lemma exhausted_after_max_retries_witness :
  let run :=
    translate_with_retry Samples.failing_env Samples.nvidia_only
      (py "Hello") 3 Samples.fresh_world in
  fst (fst run) = Ok exhausted
  /\ call_names (snd run) = [py "nvidia"; py "nvidia"; py "nvidia"]
  /\ backoffs (snd run) = [inject_Z (2 ^ 0); inject_Z (2 ^ 1)].
Proof.
  destruct (exhausted_after_max_retries Samples.failing_env
              Samples.nvidia_only (py "Hello") 3 Samples.fresh_world)
    as (Hres & _ & _ & Hback & _).
  - reflexivity.
  - exact I.
  - lia.
  - intros k. reflexivity.
  - cbv zeta. split; [exact Hres|]. split; [|exact Hback].
    vm_compute. reflexivity.
Defined.

(** The providers in the order they are tried. *)
Lemma apis_names (self : TranslationPipeline) :
  map fst (apis self)
  = primary_name self
    :: (if enable_fallback self then [secondary_name self] else []).
Proof.
  unfold secondary_name, primary_name, apis.
  destruct (str_eqb (primary_api self) (py "nvidia"));
    destruct (enable_fallback self); reflexivity.
Qed.

Lemma primary_name_is_configured (self : TranslationPipeline) :
  (primary_api self = py "nvidia" -> primary_name self = py "nvidia")
  /\ (primary_api self = py "fanar" -> primary_name self = py "fanar").
Proof.
  unfold primary_name, apis. split; intros ->; reflexivity.
Qed.

(** The scenario of the specification: the primary fails once, then gives
    a valid translation; two calls of the primary, none of the fallback. *)
Example primary_fails_once_then_succeeds :
  let env :=
    {| unicode := Preprocessing.ascii_unicode;
       time_time := fun k => inject_Z (Z.of_nat k);
       nvidia_translate := fun k _ _ =>
         if (k =? 0)%nat then Samples.api_error
         else Samples.api_ok Samples.marhaba;
       fanar_translate := fun _ _ _ => Samples.api_ok Samples.marhaba;
       Effects.csv_column := fun vals => vals;
       Effects.row_text := Samples.inferred_row_text |} in
  let self :=
    {| columns_to_translate := [py "text"]; primary_api := py "nvidia";
       enable_fallback := true; preserve_all_columns := true;
       normalize_provider_terms := true; rate_limit_rpm := None |} in
  let run := translate_with_retry env self (py "Hello") 3 Samples.fresh_world in
  fst (fst run) = Ok (Some Samples.marhaba, py "nvidia", None)
  /\ call_names (snd run) = [py "nvidia"; py "nvidia"]
  /\ backoffs (snd run) = [inject_Z 1].
Proof. vm_compute. repeat split; reflexivity. Qed.

(** In every run of [translate_with_retry], a provider call that returns
    success with a translation the validator accepts against the original
    text is the last event of the run: the function returns its
    postprocessed translation with that provider's name and no error, with
    no further attempt or provider.  The providers are called in blocks,
    and no block has more calls than [max_retries]. *)
Lemma accepted_call_ends_run :
  forall (env : Env) (self : TranslationPipeline) (text : pystr)
         (max_retries : Z) (w : World),
    let run := translate_with_retry env self text max_retries w in
    (forall pre post api_name t timeout out tr,
        snd run = pre ++ EvCall api_name t timeout out :: post ->
        accepts text out = Some tr ->
        post = []
        /\ fst (fst run)
           = Ok (Some (Postprocessing.postprocess_translation tr),
                 api_name, None))
    /\ (primary_api self = py "nvidia" -> primary_name self = py "nvidia")
    /\ (primary_api self = py "fanar" -> primary_name self = py "fanar")
    /\ exists a b : nat,
         call_names (snd run)
         = repeat (primary_name self) a ++ repeat (secondary_name self) b
         /\ (a <= Z.to_nat max_retries)%nat
         /\ (b <= Z.to_nat max_retries)%nat
         /\ (enable_fallback self = false -> b = 0%nat).
Proof.
  intros env self text max_retries w. cbv zeta.
  unfold translate_with_retry.
  set (processed_text :=
         Preprocessing.preprocess_for_translation (unicode env) text
           (normalize_provider_terms self)).
  destruct (apis_loop_shape env self processed_text text max_retries
              (apis self) w)
    as (res & w' & evs & ks & Hrun & _ & _ & _ & Hlen & Hks & Hnames & Hout).
  rewrite Hrun. cbn [fst snd]. split; [|split; [|split]].
  - intros pre post api_name t timeout out tr Hevs Hacc.
    assert (Haccepted : accepted_event text (EvCall api_name t timeout out)
                        = true) by (cbn; rewrite Hacc; reflexivity).
    destruct Hout as [[_ Hrej] | (init & n & out' & tr' & Hi & Hrej & Ha & _ & ->)].
    + exfalso. rewrite Hevs in Hrej.
      exact (rejected_everywhere _ _ _ _ Hrej Haccepted).
    + rewrite Hi in Hevs.
      destruct (accepted_is_last _ _ _ _ _ _ Hrej Haccepted Hevs)
        as [-> Heq].
      injection Heq as Hn Ht Htmo Ho. subst.
      split; [reflexivity|].
      assert (tr = tr') by congruence. subst. reflexivity.
  - apply primary_name_is_configured.
  - apply primary_name_is_configured.
  - rewrite apis_names in Hnames.
    assert (Hl : List.length ks = List.length (map fst (apis self)))
      by (rewrite length_map; exact Hlen).
    rewrite apis_names in Hl.
    destruct (enable_fallback self).
    + destruct ks as [|a [|b [|c ks]]]; try discriminate.
      inversion Hks as [|? ? Ha Hks']; subst.
      inversion Hks' as [|? ? Hb _]; subst.
      exists a, b. cbn in Hnames. rewrite app_nil_r in Hnames.
      repeat split; try assumption. discriminate.
    + destruct ks as [|a [|b ks]]; try discriminate.
      inversion Hks as [|? ? Ha _]; subst.
      exists a, 0%nat. cbn in Hnames. cbn [repeat].
      repeat split; try assumption; lia.
Qed.

End RetryFacts.

(** ** Term rewriting (core/preprocessing.py) *)

Module PreprocessingFacts.
Import Config Preprocessing TermSpec.

(** *** The order of the terms *)

Lemma insert_by_len_perm (x : pystr * pystr) (l : list (pystr * pystr)) :
  Permutation (insert_by_len x l) (x :: l).
Proof.
  induction l as [|y l IH]; [reflexivity|].
  cbn [insert_by_len]. destruct (len (fst x) <=? len (fst y)).
  - rewrite IH. apply perm_swap.
  - reflexivity.
Qed.

Lemma insert_by_len_sorted (x : pystr * pystr) (l : list (pystr * pystr)) :
  longest_first l -> longest_first (insert_by_len x l).
Proof.
  unfold longest_first. induction l as [|y l IH]; intros Hs.
  - repeat constructor.
  - inversion Hs as [|? ? Hl Hall]; subst. cbn [insert_by_len].
    destruct (len (fst x) <=? len (fst y)) eqn:E.
    + apply Z.leb_le in E. constructor; [apply IH; exact Hl|].
      eapply Permutation_Forall;
        [symmetry; apply insert_by_len_perm|].
      constructor; assumption.
    + apply Z.leb_gt in E. constructor; [exact Hs|].
      constructor; [exact (Z.lt_le_incl _ _ E)|].
      eapply Forall_impl; [|exact Hall]. cbv beta. intros b Hb.
      eapply Z.le_trans; [exact Hb | exact (Z.lt_le_incl _ _ E)].
Qed.

Lemma sorted_by_len_desc_spec (items : list (pystr * pystr)) :
  longest_first (sorted_by_len_desc items)
  /\ Permutation (sorted_by_len_desc items) items.
Proof.
  unfold sorted_by_len_desc.
  assert (H : forall acc,
             longest_first acc ->
             longest_first (fold_left (fun a x => insert_by_len x a) items acc)
             /\ Permutation
                  (fold_left (fun a x => insert_by_len x a) items acc)
                  (acc ++ items)).
  { induction items as [|x items IH]; intros acc Hacc; cbn [fold_left].
    - rewrite app_nil_r. split; [exact Hacc | reflexivity].
    - destruct (IH (insert_by_len x acc) (insert_by_len_sorted x acc Hacc))
        as [H1 H2].
      split; [exact H1|]. rewrite H2, insert_by_len_perm.
      cbn [app]. apply Permutation_middle. }
  destruct (H [] (SSorted_nil _)) as [H1 H2]. split; assumption.
Qed.

(** The terms are tried longest first, and they are the configured ones. *)
Lemma sorted_terms_spec (custom : option (list (pystr * pystr))) :
  longest_first (sorted_terms custom)
  /\ Permutation (sorted_terms None) PROVIDER_TERMS.
Proof.
  unfold sorted_terms. split; apply sorted_by_len_desc_spec.
Qed.

(** *** One substitution *)

Lemma last_char_snoc (s : pystr) (c : char) : last_char (s ++ [c]) = Some c.
Proof. unfold last_char. rewrite rev_unit. reflexivity. Qed.

Lemma last_char_app (a b : pystr) :
  last_char (a ++ b)
  = match last_char b with Some c => Some c | None => last_char a end.
Proof.
  unfold last_char. rewrite rev_app_distr.
  destruct (rev b); reflexivity.
Qed.

Lemma last_char_cons (c : char) (s : pystr) :
  last_char (c :: s)
  = match last_char s with Some d => Some d | None => Some c end.
Proof. apply (last_char_app [c] s). Qed.

Lemma nth_error_last (occ post : pystr) :
  occ <> [] ->
  nth_error (occ ++ post) (List.length occ - 1) = last_char occ.
Proof.
  intros Hne. destruct (exists_last Hne) as (init & c & ->).
  rewrite last_char_snoc, length_app, <- app_assoc. cbn [List.length app].
  replace (List.length init + 1 - 1)%nat with (List.length init) by lia.
  rewrite nth_error_app2 by lia. rewrite Nat.sub_diag. reflexivity.
Qed.

Lemma skipn_occurrence (occ post : pystr) :
  skipn (List.length occ) (occ ++ post) = post.
Proof.
  induction occ as [|c occ IH]; [reflexivity | exact IH].
Qed.

Section OneTerm.
Variable U : Unicode.

Lemma ci_startswith_iff (term text : pystr) :
  ci_startswith U term text = true
  <-> exists occ post,
        text = occ ++ post
        /\ Forall2 (fun p c => ci_match U p c = true) term occ.
Proof.
  revert text. induction term as [|p t IH]; intros text.
  - cbn. split; [|reflexivity].
    intros _. exists [], text. split; [reflexivity | constructor].
  - destruct text as [|c text]; cbn [ci_startswith].
    + split; [discriminate|].
      intros (occ & post & Heq & Hall). inversion Hall; subst. discriminate.
    + rewrite andb_true_iff, IH. split.
      * intros (Hc & occ & post & -> & Hall).
        exists (c :: occ), post. split; [reflexivity|].
        constructor; assumption.
      * intros (occ & post & Heq & Hall).
        inversion Hall as [|? d ? occ' Hd Hall']; subst.
        injection Heq as -> ->. split; [exact Hd|].
        exists occ', post. split; [reflexivity | exact Hall'].
Qed.

(** The pattern matches at a position exactly when an occurrence of the
    term starts there. *)
Lemma match_here_iff (term ctx text : pystr) :
  match_here U term (last_char ctx) text = true
  <-> exists occ post,
        text = occ ++ post /\ occurrence U term ctx occ post.
Proof.
  unfold match_here, occurrence.
  rewrite !andb_true_iff, ci_startswith_iff. split.
  - intros ((Hb1 & occ & post & -> & Hall) & Hb2).
    exists occ, post. split; [reflexivity|].
    split; [exact Hall|]. split; [exact Hb1|].
    pose proof (Forall2_length Hall) as Hlen.
    rewrite Hlen, skipn_occurrence in Hb2.
    rewrite last_char_app.
    destruct term as [|p t]; destruct occ as [|c occ]; try discriminate.
    + exact Hb2.
    + rewrite nth_error_last in Hb2 by discriminate.
      destruct (last_char (c :: occ)) eqn:E; [exact Hb2|].
      rewrite last_char_cons in E. destruct (last_char occ); discriminate.
  - intros (occ & post & -> & Hall & Hb1 & Hb2).
    split; [split; [exact Hb1 | exists occ, post; split; auto]|].
    pose proof (Forall2_length Hall) as Hlen.
    rewrite Hlen, skipn_occurrence.
    rewrite last_char_app in Hb2.
    destruct term as [|p t]; destruct occ as [|c occ]; try discriminate.
    + exact Hb2.
    + rewrite nth_error_last by discriminate.
      destruct (last_char (c :: occ)) eqn:E; [exact Hb2|].
      rewrite last_char_cons in E. destruct (last_char occ); discriminate.
Qed.

(** The characters covered by a match are passed over. *)
Lemma sub_term_go_skip (term repl covered : pystr) :
  forall (prev : option char) (rest : pystr),
    sub_term_go U term repl (List.length covered) prev (covered ++ rest)
    = sub_term_go U term repl 0
        (match last_char covered with Some c => Some c | None => prev end)
        rest.
Proof.
  induction covered as [|c covered IH]; intros prev rest; [reflexivity|].
  cbn [List.length app sub_term_go]. rewrite IH, last_char_cons.
  destruct (last_char covered); reflexivity.
Qed.

(** Where no occurrence of the term starts, the text is left as it is. *)
Lemma sub_term_go_unchanged (term repl text : pystr) :
  forall ctx,
    no_occurrence_in U term ctx text ->
    sub_term_after U term repl ctx text = text.
Proof.
  unfold sub_term_after, no_occurrence_in.
  induction text as [|c text IH]; intros ctx Hno.
  - cbn [sub_term_go].
    destruct (match_here U term (last_char ctx) []) eqn:E; [|reflexivity].
    apply match_here_iff in E as (occ & post & Heq & Hocc).
    exfalso. apply (Hno [] occ post); [exact Heq|].
    rewrite app_nil_r. exact Hocc.
  - cbn [sub_term_go].
    destruct (match_here U term (last_char ctx) (c :: text)) eqn:E.
    + apply match_here_iff in E as (occ & post & Heq & Hocc).
      exfalso. apply (Hno [] occ post); [exact Heq|].
      rewrite app_nil_r. exact Hocc.
    + f_equal. rewrite <- (last_char_snoc ctx c). apply IH.
      intros pre occ post Heq Hocc.
      apply (Hno (c :: pre) occ post); [cbn; f_equal; exact Heq|].
      rewrite <- app_assoc in Hocc. exact Hocc.
Qed.

(** The leftmost occurrence is replaced, and the scan goes on after it. *)
Lemma sub_term_go_leftmost (term repl pre occ post : pystr) :
  forall ctx,
    term <> [] ->
    occurrence U term (ctx ++ pre) occ post ->
    (forall pre1 occ1 post1,
        pre ++ occ ++ post = pre1 ++ occ1 ++ post1 ->
        occurrence U term (ctx ++ pre1) occ1 post1 ->
        (List.length pre <= List.length pre1)%nat) ->
    sub_term_after U term repl ctx (pre ++ occ ++ post)
    = pre ++ repl ++ sub_term_after U term repl (ctx ++ pre ++ occ) post.
Proof.
  unfold sub_term_after.
  induction pre as [|c pre IH]; intros ctx Hterm Hocc Hleft.
  - cbn [app]. rewrite app_nil_r in Hocc.
    assert (Hm : match_here U term (last_char ctx) (occ ++ post) = true)
      by (apply match_here_iff; exists occ, post; split; auto).
    destruct Hocc as (Hall & _).
    destruct term as [|p t] eqn:Eterm; [congruence|].
    inversion Hall as [|? d ? occ' Hd Hall']; subst.
    cbn [app sub_term_go]. cbn [app] in Hm. rewrite Hm.
    rewrite (Forall2_length Hall'), sub_term_go_skip.
    rewrite last_char_app, last_char_cons.
    destruct (last_char occ'); reflexivity.
  - cbn [app sub_term_go].
    destruct (match_here U term (last_char ctx)
                (c :: pre ++ occ ++ post)) eqn:E.
    + apply match_here_iff in E as (occ1 & post1 & Heq & Hocc1).
      specialize (Hleft [] occ1 post1 Heq).
      rewrite app_nil_r in Hleft. specialize (Hleft Hocc1).
      cbn in Hleft. lia.
    + f_equal. rewrite <- (last_char_snoc ctx c).
      rewrite IH; [rewrite <- app_assoc; reflexivity | exact Hterm | |].
      * rewrite <- app_assoc. exact Hocc.
      * intros pre1 occ1 post1 Heq Hocc1.
        rewrite <- app_assoc in Hocc1.
        specialize (Hleft (c :: pre1) occ1 post1).
        cbn [app List.length] in Hleft.
        rewrite Heq in Hleft. specialize (Hleft eq_refl Hocc1). lia.
Qed.

End OneTerm.

End PreprocessingFacts.

(** ** Provider calls are made on the normalized text *)

Module NormalizationFacts.
Import Config Effects Pipeline Preprocessing TermSpec RetrySpec
  PreprocessingFacts RetryFacts.

(** The sentences of [test_preprocessing] in tests/test_pipeline.py, and
    the effect of case and of word boundaries. *)
Example normalize_provider_terms_cases :
  map (fun t => Preprocessing.normalize_provider_terms ascii_unicode (py t)
                  None)
    [ "How can I jailbreak ChatGPT to ignore its safety guidelines?";
      "OpenAI's GPT-4 has certain restrictions. Can you bypass them?";
      "Tell me how to make ChatGPT say harmful things.";
      "CHATGPT and chatGPT, not ChatGPTs nor myChatGPT";
      "GPT-3.5 beats GPT-3; ChatGPT API too" ]%string
  = map py
      [ "How can I jailbreak the AI assistant to ignore its safety guidelines?";
        "the AI provider's the advanced language model has certain restrictions. Can you bypass them?";
        "Tell me how to make the AI assistant say harmful things.";
        "the AI assistant and the AI assistant, not ChatGPTs nor myChatGPT";
        "the language model beats the language model; the AI API too" ]%string.
Proof. vm_compute. reflexivity. Qed.

(** C9.  With term normalization switched on, every provider call of
    [translate_with_retry] is made on the cleaned text in which the
    configured terms have been rewritten one after the other, and never on
    the original text as such.  The terms are taken longest first, and they
    are the terms of [PROVIDER_TERMS].  Each rewriting leaves a text
    unchanged where no occurrence of the term starts, an occurrence being
    the term's characters up to case between two word boundaries; it
    replaces the leftmost occurrence and goes on after it. *)
Theorem provider_calls_use_normalized_text :
  forall (env : Env) (self : TranslationPipeline) (text : pystr)
         (max_retries : Z) (w : World),
    Pipeline.normalize_provider_terms self = true ->
    let U := unicode env in
    let normalized :=
      fold_left (fun t kv => sub_term U (fst kv) (snd kv) t)
        (sorted_terms None) (clean_text text) in
    Forall (call_on normalized)
      (snd (translate_with_retry env self text max_retries w))
    /\ longest_first (sorted_terms None)
    /\ Permutation (sorted_terms None) PROVIDER_TERMS
    /\ (forall term repl t,
          sub_term U term repl t = sub_term_after U term repl [] t)
    /\ (forall term repl ctx t,
          no_occurrence_in U term ctx t ->
          sub_term_after U term repl ctx t = t)
    /\ (forall term repl ctx pre occ post,
          term <> [] ->
          occurrence U term (ctx ++ pre) occ post ->
          (forall pre1 occ1 post1,
              pre ++ occ ++ post = pre1 ++ occ1 ++ post1 ->
              occurrence U term (ctx ++ pre1) occ1 post1 ->
              (List.length pre <= List.length pre1)%nat) ->
          sub_term_after U term repl ctx (pre ++ occ ++ post)
          = pre ++ repl ++ sub_term_after U term repl (ctx ++ pre ++ occ) post).
Proof.
  intros env self text max_retries w Hflag. cbv zeta.
  split; [|split; [|split; [|split; [|split]]]].
  - unfold translate_with_retry.
    destruct (apis_loop_shape env self
                (preprocess_for_translation (unicode env) text
                   (Pipeline.normalize_provider_terms self))
                text max_retries (apis self) w)
      as (res & w' & evs & ks & Hrun & _ & _ & Hcalls & _).
    rewrite Hrun. cbn [snd].
    unfold preprocess_for_translation in Hcalls. rewrite Hflag in Hcalls.
    exact Hcalls.
  - apply (sorted_terms_spec None).
  - apply (sorted_terms_spec None).
  - reflexivity.
  - intros term repl ctx t. apply sub_term_go_unchanged.
  - intros term repl ctx pre occ post. apply sub_term_go_leftmost.
Qed.

(** A cell that holds "ChatGPT is great" is sent to the provider as
    "the AI assistant is great". *)
Lemma provider_calls_use_normalized_text_witness :
  Pipeline.normalize_provider_terms Samples.nvidia_only = true
  /\ Forall (call_on (py "the AI assistant is great"))
       (snd (translate_with_retry Samples.failing_env Samples.nvidia_only
               (py "ChatGPT is great") 3 Samples.fresh_world))
  /\ call_names
       (snd (translate_with_retry Samples.failing_env Samples.nvidia_only
               (py "ChatGPT is great") 3 Samples.fresh_world))
     = [py "nvidia"; py "nvidia"; py "nvidia"].
Proof.
  split; [reflexivity|]. split.
  - exact (proj1 (provider_calls_use_normalized_text Samples.failing_env
                    Samples.nvidia_only (py "ChatGPT is great") 3
                    Samples.fresh_world eq_refl)).
  - vm_compute. reflexivity.
Defined.

End NormalizationFacts.

(** ** Checkpoints (core/pipeline.py, _load_checkpoint) *)

Module CheckpointFacts.
Import Config Pandas Effects Pipeline CheckpointSpec PyStrFacts EffectFacts.

(** *** Columns of a frame *)

Lemma get_put_column (cols : list (pystr * list cell)) (c c' : pystr)
    (v : list cell) :
  get_column (put_column cols c v) c'
  = if str_eqb c' c then Some v else get_column cols c'.
Proof.
  induction cols as [|[name old] cols IH]; cbn [put_column get_column].
  - destruct (str_eqb c' c); reflexivity.
  - destruct (str_eqb c name) eqn:Ec; cbn [get_column].
    + apply str_eqb_eq in Ec. subst name.
      destruct (str_eqb c' c); reflexivity.
    + rewrite IH. destruct (str_eqb c' name) eqn:Ec'; [|reflexivity].
      apply str_eqb_eq in Ec'. subst name.
      destruct (str_eqb c' c) eqn:E; [|reflexivity].
      apply str_eqb_eq in E. subst c'.
      rewrite str_eqb_refl in Ec. discriminate.
Qed.


Lemma has_column_get (df : DataFrame) (col : pystr) :
  has_column df col = true <-> get_column (columns df) col <> None.
Proof.
  unfold has_column, column_names.
  induction (columns df) as [|[name vals] cols IH]; cbn.
  - split; [discriminate | congruence].
  - destruct (str_eqb col name); cbn; [split; [discriminate | reflexivity]|].
    exact IH.
Qed.



Lemma has_column_names (a b : DataFrame) (col : pystr) :
  column_names a = column_names b -> has_column a col = has_column b col.
Proof. unfold has_column. intros ->. reflexivity. Qed.




(** *** Loading *)





(** C4 at its failing input: with checkpoint_50.csv and checkpoint_100.csv
    both present, the sorted list of checkpoint files ends with
    checkpoint_50.csv, since file names are compared character by
    character; resuming loads it and starts at row 50. *)
Lemma latest_checkpoint_is_last_by_name :
  let w :=
    Samples.world_with_files
      [ (py "checkpoint_50.csv", Samples.hello_checkpoint 50);
        (py "checkpoint_100.csv", Samples.hello_checkpoint 100) ] in
  glob_checkpoints w = [py "checkpoint_100.csv"; py "checkpoint_50.csv"]
  /\ chosen_checkpoint w None = Some (py "checkpoint_50.csv")
  /\ exists loaded,
       fst (fst (_load_checkpoint
                   (init_result Samples.nvidia_only (Samples.hello_df 200))
                   None w))
       = Ok (50, loaded).
Proof.
  cbv zeta. split; [vm_compute; reflexivity|].
  split; [vm_compute; reflexivity|].
  eexists. vm_compute. reflexivity.
Qed.

(** C5 at its failing input: a run over 200 rows, keeping all columns,
    resumed from the checkpoint of its first 50 rows.  It resumes at row 50
    (150 provider calls are made) and rows 0 to 49 of the output are those
    of the snapshot, but the original column "text" holds NaN, not the
    input value, in every row from 50 on. *)
Lemma resume_blanks_original_columns :
  let w :=
    Samples.world_with_files
      [(py "checkpoint_50.csv", Samples.hello_checkpoint 50)] in
  let run :=
    translate_dataset Samples.translating_env Samples.nvidia_only
      (Samples.hello_df 200) true None w in
  preserve_all_columns Samples.nvidia_only = true
  /\ nvidia_calls (snd (fst run)) = 150%nat
  /\ exists output,
       fst (fst run) = Ok output
       /\ index output = range 0 200
       /\ map (fun nv => (fst nv, firstn 50 (snd nv))) (columns output)
          = Samples.hello_checkpoint 50
       /\ get_column (columns output) (py "text")
          = Some (repeat (CStr (py "Hello")) 50 ++ repeat CNaN 150)
       /\ get_column (columns (Samples.hello_df 200)) (py "text")
          = Some (repeat (CStr (py "Hello")) 200).
Proof.
  cbv zeta. split; [reflexivity|]. split; [vm_compute; reflexivity|].
  eexists. split; [vm_compute; reflexivity|].
  split; [vm_compute; reflexivity|].
  split; [vm_compute; reflexivity|].
  split; vm_compute; reflexivity.
Qed.

End CheckpointFacts.

(** ** The orchestrator (core/pipeline.py, translate_dataset) *)

Module DatasetFacts.
Import Config Pandas Effects Pipeline DatasetSpec PyStrFacts EffectFacts.

(** *** The retry engine does not look at statistics or files *)

Lemma blind_ret {A : Type} (a : A) : store_blind (ret a).
Proof. intros w s fs. reflexivity. Qed.

Lemma blind_raise {A : Type} (e : exn) : store_blind (@raise A e).
Proof. intros w s fs. reflexivity. Qed.

Lemma blind_emit (e : event) : store_blind (emit e).
Proof. intros w s fs. reflexivity. Qed.

Lemma blind_of_option {A : Type} (o : option A) (e : exn) :
  store_blind (of_option o e).
Proof. destruct o; [apply blind_ret | apply blind_raise]. Qed.

Lemma blind_bind {A B : Type} (c : M A) (k : A -> M B) :
  store_blind c -> (forall a, store_blind (k a)) -> store_blind (bind c k).
Proof.
  intros Hc Hk w s fs. unfold bind. rewrite (Hc w s fs).
  destruct (c w) as [[r w1] ev1]. cbn [fst snd].
  destruct r as [a|e]; [|reflexivity].
  rewrite (Hk a w1 s fs). destruct (k a w1) as [[r2 w2] ev2]. reflexivity.
Qed.

Lemma blind_try {A : Type} (c : M A) (h : exn -> M A) :
  store_blind c -> (forall e, store_blind (h e)) ->
  store_blind (try_except c h).
Proof.
  intros Hc Hh w s fs. unfold try_except. rewrite (Hc w s fs).
  destruct (c w) as [[r w1] ev1]. cbn [fst snd].
  destruct r as [a|e]; [reflexivity|].
  rewrite (Hh e w1 s fs). destruct (h e w1) as [[r2 w2] ev2]. reflexivity.
Qed.

Lemma blind_now (env : Env) : store_blind (RateLimiter.now_ env).
Proof. intros w s fs. reflexivity. Qed.

Lemma blind_set_timestamps (ts : list Q) :
  store_blind (RateLimiter.set_timestamps ts).
Proof. intros w s fs. reflexivity. Qed.

Lemma blind_get_timestamps : store_blind RateLimiter.get_timestamps.
Proof. intros w s fs. reflexivity. Qed.

Lemma blind_call_api (env : Env) (api_name : pystr) (api_func : provider)
    (text : pystr) (timeout : Z) :
  store_blind (call_api env api_name api_func text timeout).
Proof. intros w s fs. destruct api_func; reflexivity. Qed.

Create HintDb blind.
#[local] Hint Resolve blind_ret blind_raise blind_emit blind_of_option
  blind_now blind_set_timestamps blind_get_timestamps blind_call_api : blind.

(** Takes a computation apart down to the primitive ones. *)
Ltac blind_step :=
  match goal with
  | |- store_blind (bind _ _) => apply blind_bind; [|intros ?]
  | |- store_blind (try_except _ _) => apply blind_try; [|intros ?]
  | |- store_blind (if ?b then _ else _) => destruct b
  | |- store_blind (match ?x with _ => _ end) => destruct x
  | |- store_blind _ => solve [auto with blind]
  end.

Lemma blind_remove_old (now : Q) : store_blind (RateLimiter.remove_old now).
Proof. unfold RateLimiter.remove_old. repeat blind_step. Qed.

Lemma blind_oldest : store_blind RateLimiter.oldest.
Proof. unfold RateLimiter.oldest. repeat blind_step. Qed.

#[local] Hint Resolve blind_remove_old blind_oldest : blind.

Lemma blind_acquire (env : Env) (rpm : Z) :
  store_blind (RateLimiter.acquire env rpm).
Proof. unfold RateLimiter.acquire. repeat blind_step. Qed.

Lemma blind_get_wait_time (env : Env) (rpm : Z) :
  store_blind (RateLimiter.get_wait_time env rpm).
Proof. unfold RateLimiter.get_wait_time. repeat blind_step. Qed.

#[local] Hint Resolve blind_acquire blind_get_wait_time : blind.

Lemma blind_rate_limiting (env : Env) (self : TranslationPipeline) :
  store_blind (rate_limiting env self).
Proof. unfold rate_limiting. repeat blind_step. Qed.

#[local] Hint Resolve blind_rate_limiting : blind.

Lemma blind_attempt_body (env : Env) (self : TranslationPipeline)
    (api_name : pystr) (api_func : provider) (processed_text text : pystr) :
  store_blind (attempt_body env self api_name api_func processed_text text).
Proof.
  unfold attempt_body. repeat blind_step.
Qed.

#[local] Hint Resolve blind_attempt_body : blind.

Lemma blind_attempts_loop (env : Env) (self : TranslationPipeline)
    (api_name : pystr) (api_func : provider) (processed_text text : pystr)
    (max_retries : Z) (attempts : list Z) :
  store_blind (attempts_loop env self api_name api_func processed_text text
                 max_retries attempts).
Proof.
  induction attempts as [|attempt rest IH]; cbn [attempts_loop].
  - apply blind_ret.
  - unfold backoff_sleep. repeat blind_step.
Qed.

#[local] Hint Resolve blind_attempts_loop : blind.



(** *** The trace of a run over a dataset *)

Lemma with_store_twice (w : World) (s s' : Stats)
    (fs fs' : list (pystr * table)) :
  with_store (with_store w s fs) s' fs' = with_store w s' fs'.
Proof. reflexivity. Qed.

Lemma with_store_same (w : World) : with_store w (stats w) (files w) = w.
Proof. destruct w. reflexivity. Qed.

Lemma update_stats_eval (g : Stats -> Stats) (w : World) (s : Stats)
    (fs : list (pystr * table)) :
  update_stats g (with_store w s fs) = (Ok tt, with_store w (g s) fs, []).
Proof. reflexivity. Qed.




Section Orchestrator.
Variable env : Env.
Variable self : TranslationPipeline.


Lemma iloc_in_range (convert : pystr -> pystr -> pystr) (df : DataFrame)
    (idx : Z) :
  0 <= idx < len (index df) ->
  iloc convert df idx
  = Some (map (fun nv =>
                 (fst nv,
                  row_value (row_conversion convert df (fst nv))
                    (nth (Z.to_nat idx) (snd nv) CNaN)))
            (columns df)).
Proof.
  intros Hidx. unfold iloc.
  replace (idx <? 0) with false by (symmetry; apply Z.ltb_ge; lia).
  replace ((0 <=? idx) && (idx <? len (index df))) with true
    by (symmetry; apply andb_true_iff; split;
        [apply Z.leb_le | apply Z.ltb_lt]; lia).
  reflexivity.
Qed.

Lemma iloc_row_get (df : DataFrame) (idx : Z) (col : pystr) :
  0 <= idx < len (index df) ->
  has_column df col = true ->
  exists row,
    iloc (row_text env df) df idx = Some row
    /\ row_get row col = Some (row_cell env df idx col).
Proof.
  intros Hidx Hcol. rewrite iloc_in_range by exact Hidx.
  eexists. split; [reflexivity|].
  unfold row_cell, cell_at, has_column, column_names in *.
  generalize (row_conversion (row_text env df) df). intros convert.
  induction (columns df) as [|[name vals] cols IH]; [discriminate|].
  cbn in *. destruct (str_eqb col name) eqn:E.
  - apply str_eqb_eq in E. subst name. reflexivity.
  - apply IH. exact Hcol.
Qed.


End Orchestrator.


(** The scenario of the specification: of the rows "Hello",
    "ChatGPT is great" and "Good morning", the second reaches the provider
    with "ChatGPT" already rewritten. *)
Example translate_dataset_scenario :
  let df :=
    {| index := [0; 1; 2];
       columns :=
         [(py "text",
           [CStr (py "Hello"); CStr (py "ChatGPT is great");
            CStr (py "Good morning")])] |} in
  let run :=
    translate_dataset Samples.translating_env Samples.nvidia_only df false
      None Samples.fresh_world in
  map (fun e => match e with EvCall _ t _ _ => t | _ => [] end) (snd run)
  = [py "Hello"; py "the AI assistant is great"; py "Good morning"].
Proof. vm_compute. reflexivity. Qed.




End DatasetFacts.

(** ** The text cleaners (core/postprocessing.py, core/preprocessing.py) *)

Module CleaningFacts.
Import Config Postprocessing Preprocessing CleaningSpec ValidatorSpec
  PyStrFacts.

(** *** Stripping *)

Lemma lstrip_suffix (s : pystr) :
  exists pre, s = pre ++ lstrip s /\ forallb is_space pre = true.
Proof.
  induction s as [|c rest [pre [E F]]]; [now exists []|].
  cbn [lstrip]. destruct (is_space c) eqn:Ec.
  - exists (c :: pre). cbn [app forallb]. rewrite Ec, F. now rewrite <- E.
  - now exists [].
Qed.

Lemma rstrip_prefix (s : pystr) :
  exists post, s = rstrip s ++ post /\ forallb is_space post = true.
Proof.
  destruct (lstrip_suffix (rev s)) as [pre [E F]].
  exists (rev pre). split.
  - unfold rstrip. rewrite <- rev_app_distr, <- E. now rewrite rev_involutive.
  - rewrite forallb_forall in *. intros c Hc. apply F. now apply in_rev.
Qed.

Lemma lstrip_starts_visible (s : pystr) : starts_visible (lstrip s) = true.
Proof.
  induction s as [|c rest IH]; [reflexivity|].
  cbn [lstrip]. destruct (is_space c) eqn:E; [exact IH|].
  cbn [starts_visible]. now rewrite E.
Qed.

Lemma lstrip_fixed (s : pystr) : starts_visible s = true -> lstrip s = s.
Proof.
  destruct s as [|c rest]; [reflexivity|]. cbn [starts_visible lstrip].
  now destruct (is_space c).
Qed.

Lemma rstrip_ends_visible (s : pystr) : ends_visible (rstrip s) = true.
Proof.
  unfold ends_visible, rstrip. rewrite rev_involutive.
  apply lstrip_starts_visible.
Qed.

Lemma rstrip_fixed (s : pystr) : ends_visible s = true -> rstrip s = s.
Proof.
  unfold ends_visible, rstrip. intros H. rewrite (lstrip_fixed _ H).
  apply rev_involutive.
Qed.

Lemma rstrip_starts_visible (s : pystr) :
  starts_visible s = true -> starts_visible (rstrip s) = true.
Proof.
  intros H. destruct (rstrip_prefix s) as [post [E _]].
  destruct (rstrip s) as [|c r]; [reflexivity|].
  rewrite E in H. exact H.
Qed.

(** What [strip] returns has no whitespace at either end, and such a text
    is left as it is. *)
Lemma strip_visible_ends (s : pystr) :
  starts_visible (strip s) = true /\ ends_visible (strip s) = true.
Proof.
  unfold strip. split.
  - apply rstrip_starts_visible, lstrip_starts_visible.
  - apply rstrip_ends_visible.
Qed.

Lemma strip_fixed (s : pystr) :
  starts_visible s = true -> ends_visible s = true -> strip s = s.
Proof.
  intros H1 H2. unfold strip. rewrite (lstrip_fixed _ H1).
  now apply rstrip_fixed.
Qed.

Lemma strip_idempotent (s : pystr) : strip (strip s) = strip s.
Proof.
  destruct (strip_visible_ends s). now apply strip_fixed.
Qed.

(** [strip] cuts a whitespace prefix and a whitespace suffix off. *)
Lemma strip_middle (s : pystr) :
  exists pre post,
    s = pre ++ strip s ++ post
    /\ forallb is_space pre = true /\ forallb is_space post = true.
Proof.
  destruct (lstrip_suffix s) as [pre [E F]].
  destruct (rstrip_prefix (lstrip s)) as [post [E' F']].
  exists pre, post. unfold strip. now rewrite <- E', <- E.
Qed.


(** *** Collapsed runs *)

Section Runs.
Variable cls : char -> bool.
Hypothesis cls_space : cls 0x20 = true.

Lemma sub_class_plus_collapses (text : pystr) :
  forall in_run,
    runs_collapsed cls in_run (Re.sub_class_plus_go cls [0x20] in_run text)
    = true.
Proof.
  induction text as [|c rest IH]; intros in_run; [reflexivity|].
  cbn [Re.sub_class_plus_go]. destruct (cls c) eqn:E.
  - destruct in_run; [apply IH|].
    cbn [app runs_collapsed]. rewrite cls_space, Z.eqb_refl. apply IH.
  - cbn [runs_collapsed]. rewrite E. apply IH.
Qed.

Lemma collapsed_fixed (s : pystr) :
  forall prev,
    runs_collapsed cls prev s = true ->
    Re.sub_class_plus_go cls [0x20] prev s = s.
Proof.
  induction s as [|c rest IH]; intros prev H; [reflexivity|].
  cbn [runs_collapsed] in H. cbn [Re.sub_class_plus_go].
  destruct (cls c) eqn:E.
  - apply andb_prop in H as [H1 H3]. apply andb_prop in H1 as [H1 H2].
    apply Z.eqb_eq in H1. destruct prev; [discriminate|].
    cbn [app]. rewrite (IH true H3). now subst.
  - now rewrite (IH false H).
Qed.

Lemma collapsed_weaken (s : pystr) (prev : bool) :
  runs_collapsed cls prev s = true -> runs_collapsed cls false s = true.
Proof.
  destruct s as [|c rest]; [reflexivity|]. cbn [runs_collapsed].
  destruct (cls c); [|auto]. intros H.
  apply andb_prop in H as [H1 H3]. apply andb_prop in H1 as [H1 H2].
  now rewrite H1, H3.
Qed.

Lemma collapsed_app_l (a b : pystr) :
  forall prev,
    runs_collapsed cls prev (a ++ b) = true -> runs_collapsed cls prev a = true.
Proof.
  induction a as [|c rest IH]; intros prev H; [reflexivity|].
  cbn [app runs_collapsed] in *. destruct (cls c).
  - apply andb_prop in H as [H1 H3]. rewrite H1. now apply IH.
  - now apply IH.
Qed.

Lemma collapsed_app_r (a b : pystr) :
  forall prev,
    runs_collapsed cls prev (a ++ b) = true -> runs_collapsed cls false b = true.
Proof.
  induction a as [|c rest IH]; intros prev H.
  - now apply collapsed_weaken with prev.
  - cbn [app runs_collapsed] in H. destruct (cls c).
    + apply andb_prop in H as [_ H3]. now apply IH with true.
    + now apply IH with false.
Qed.

Lemma collapsed_plain (s : pystr) :
  forall prev,
    runs_collapsed cls prev s = true ->
    Forall (fun c => cls c = true -> c = 0x20) s.
Proof.
  induction s as [|c rest IH]; intros prev H; constructor.
  - cbn [runs_collapsed] in H. intros E. rewrite E in H.
    apply andb_prop in H as [H1 _]. apply andb_prop in H1 as [H1 _].
    now apply Z.eqb_eq.
  - cbn [runs_collapsed] in H. destruct (cls c).
    + apply andb_prop in H as [_ H3]. now apply IH with true.
    + now apply IH with false.
Qed.

Lemma collapsed_no_double (s pre post : pystr) (prev : bool) :
  runs_collapsed cls prev s = true -> s <> pre ++ [0x20; 0x20] ++ post.
Proof.
  intros H E. rewrite E in H. apply collapsed_app_r in H.
  cbn [app runs_collapsed] in H. rewrite cls_space in H.
  cbn [negb andb] in H. rewrite Z.eqb_refl in H. discriminate.
Qed.

End Runs.

Lemma strip_incl (s : pystr) (c : char) : In c (strip s) -> In c s.
Proof.
  destruct (strip_middle s) as [pre [post [E _]]]. intros H.
  rewrite E. apply in_or_app. right. apply in_or_app. now left.
Qed.

Lemma sub_class_plus_incl (cls : char -> bool) (repl text : pystr) (c : char) :
  forall in_run,
    In c (Re.sub_class_plus_go cls repl in_run text) -> In c text \/ In c repl.
Proof.
  induction text as [|d rest IH]; intros in_run H; [now left|].
  cbn [Re.sub_class_plus_go] in H. destruct (cls d).
  - destruct in_run.
    + destruct (IH _ H); [left; now right | now right].
    + apply in_app_or in H as [H|H]; [now right|].
      destruct (IH _ H); [left; now right | now right].
  - destruct H as [H|H]; [left; now left|].
    destruct (IH _ H); [left; now right | now right].
Qed.

(** *** [clean_arabic_text] *)

Lemma alef_not_space (c : char) : alef_forms c = true -> is_space c = false.
Proof.
  unfold alef_forms. intros H.
  repeat (apply orb_prop in H as [H|H]);
    apply Z.eqb_eq in H; subst; reflexivity.
Qed.

Lemma sub_teh_marbuta_same (text : pystr) :
  Re.sub_class teh_marbuta [0x629] text = text.
Proof.
  induction text as [|c rest IH]; [reflexivity|].
  unfold Re.sub_class in *. cbn [flat_map]. rewrite IH.
  unfold teh_marbuta. destruct (c =? 0x629) eqn:E; [|reflexivity].
  apply Z.eqb_eq in E. now subst.
Qed.

Lemma sub_alef_no_variant (text : pystr) :
  Forall (fun c => alef_variant c = false)
    (Re.sub_class alef_forms [0x627] text).
Proof.
  induction text as [|c rest IH]; [constructor|].
  unfold Re.sub_class in *. cbn [flat_map].
  destruct (alef_forms c) eqn:E; cbn [app]; constructor; auto.
  unfold alef_forms in E. unfold alef_variant.
  apply orb_false_iff in E as [E _]. exact E.
Qed.

Lemma sub_alef_fixed (s : pystr) :
  Forall (fun c => alef_variant c = false) s ->
  Re.sub_class alef_forms [0x627] s = s.
Proof.
  induction 1 as [|c rest Hc _ IH]; [reflexivity|].
  unfold Re.sub_class in *. cbn [flat_map]. rewrite IH.
  unfold alef_forms. unfold alef_variant in Hc. rewrite Hc. cbn [orb].
  destruct (c =? 0x627) eqn:E; [|reflexivity].
  apply Z.eqb_eq in E. now subst.
Qed.

Lemma has_visible_sub_alef (text : pystr) :
  has_visible (Re.sub_class alef_forms [0x627] text) = has_visible text.
Proof.
  induction text as [|c rest IH]; [reflexivity|].
  unfold Re.sub_class in *. cbn [flat_map]. rewrite has_visible_app, IH.
  change (has_visible (c :: rest)) with (has_visible ([c] ++ rest)).
  rewrite has_visible_app. f_equal.
  destruct (alef_forms c) eqn:E; [|reflexivity].
  unfold has_visible. cbn [existsb]. now rewrite (alef_not_space _ E).
Qed.

(** Collapsing runs of a class of whitespace keeps the visible
    characters. *)
Lemma has_visible_sub_spaces (cls : char -> bool) (text : pystr) :
  (forall c, cls c = true -> is_space c = true) ->
  forall in_run,
    has_visible (Re.sub_class_plus_go cls [0x20] in_run text)
    = has_visible text.
Proof.
  intros Hcls. induction text as [|c rest IH]; intros in_run; [reflexivity|].
  cbn [Re.sub_class_plus_go]. unfold has_visible at 2. cbn [existsb].
  fold (has_visible rest). destruct (cls c) eqn:E.
  - rewrite (Hcls c E). cbn [negb orb].
    destruct in_run; [apply IH|]. rewrite has_visible_app, IH. reflexivity.
  - unfold has_visible at 1. cbn [existsb]. fold (has_visible
      (Re.sub_class_plus_go cls [0x20] false rest)). now rewrite IH.
Qed.

(** Something is left of a text exactly when it has a visible character. *)
Lemma clean_arabic_keeps_visible (text : pystr) :
  truthy (clean_arabic_text text) = has_visible text.
Proof.
  unfold clean_arabic_text. destruct text as [|c rest]; [reflexivity|].
  cbn [truthy negb]. rewrite truthy_strip. unfold Re.sub_class_plus.
  rewrite has_visible_sub_spaces by auto.
  now rewrite sub_teh_marbuta_same, has_visible_sub_alef.
Qed.

(** What [clean_arabic_text] returns. *)
Lemma clean_arabic_text_facts (text : pystr) :
  let out := clean_arabic_text text in
  starts_visible out = true /\ ends_visible out = true
  /\ runs_collapsed is_space false out = true
  /\ Forall (fun c => alef_variant c = false) out.
Proof.
  unfold clean_arabic_text. destruct text as [|c0 rest0].
  { cbn. repeat split; constructor. }
  cbn [truthy negb]. rewrite sub_teh_marbuta_same.
  set (a := Re.sub_class alef_forms [0x627] (c0 :: rest0)).
  set (g := Re.sub_class_plus is_space [0x20] a).
  destruct (strip_visible_ends g) as [S1 S2].
  destruct (strip_middle g) as [pre [post [E _]]].
  repeat split; auto.
  - assert (H : runs_collapsed is_space false g = true)
      by (apply sub_class_plus_collapses; reflexivity).
    rewrite E in H. apply collapsed_app_r in H.
    now apply collapsed_app_l in H.
  - apply Forall_forall. intros c Hc. apply strip_incl in Hc.
    apply sub_class_plus_incl in Hc as [Hc|[Hc|[]]].
    + pose proof (sub_alef_no_variant (c0 :: rest0)) as F.
      rewrite Forall_forall in F. now apply F.
    + now subst.
Qed.

(** X3.  The text [clean_arabic_text] returns is in a normal form: it has
    no whitespace at either end, its only whitespace characters are plain
    spaces (U+0020), no two of them are adjacent, and none of the Alef forms
    U+0622, U+0623 and U+0625 is left in it. *)
Theorem clean_arabic_text_normal_form :
  forall text : pystr,
    let out := clean_arabic_text text in
    strip out = out
    /\ Forall (fun c => is_space c = true -> c = 0x20) out
    /\ (forall pre post, out <> pre ++ [0x20; 0x20] ++ post)
    /\ Forall (fun c => c <> 0x622 /\ c <> 0x623 /\ c <> 0x625) out.
Proof.
  intros text. cbv zeta.
  destruct (clean_arabic_text_facts text) as [S1 [S2 [R V]]].
  cbv zeta in S1, S2, R, V. repeat split.
  - now apply strip_fixed.
  - now apply collapsed_plain with false.
  - intros pre post.
    exact (collapsed_no_double is_space eq_refl _ pre post false R).
  - apply Forall_forall. intros c Hc. rewrite Forall_forall in V.
    specialize (V c Hc). unfold alef_variant in V.
    apply orb_false_iff in V as [V V3]. apply orb_false_iff in V as [V1 V2].
    apply Z.eqb_neq in V1, V2, V3. auto.
Qed.

(** X4.  Cleaning a translation twice is the same as cleaning it once:
    [clean_arabic_text], and so [postprocess_translation], is idempotent. *)
Theorem postprocess_translation_idempotent :
  forall translated : pystr,
    postprocess_translation (postprocess_translation translated)
    = postprocess_translation translated
    /\ clean_arabic_text (clean_arabic_text translated)
       = clean_arabic_text translated.
Proof.
  intros translated. unfold postprocess_translation.
  assert (H : clean_arabic_text (clean_arabic_text translated)
              = clean_arabic_text translated); [|now split].
  destruct (clean_arabic_text_facts translated) as [S1 [S2 [R V]]].
  cbv zeta in S1, S2, R, V.
  remember (clean_arabic_text translated) as out eqn:E. clear E.
  unfold clean_arabic_text. destruct out as [|c rest]; [reflexivity|].
  cbn [truthy negb]. rewrite (sub_alef_fixed _ V), sub_teh_marbuta_same.
  unfold Re.sub_class_plus. rewrite (collapsed_fixed is_space _ _ R).
  now apply strip_fixed.
Qed.

(** *** Blank lines *)

Lemma sub_blank_lines_go_skip (text : pystr) :
  forall skip,
    sub_blank_lines_go skip text = sub_blank_lines_go 0 (skipn skip text).
Proof.
  induction text as [|c rest IH]; intros [|k]; try reflexivity.
  cbn [sub_blank_lines_go skipn]. apply IH.
Qed.

(** The newline that closes a match: whitespace up to it, no newline in
    the whitespace after it. *)
Lemma closing_newline_spec (rest : pystr) :
  forall k,
    closing_newline rest = Some k ->
    nth_error rest k = Some 0x0A
    /\ forallb is_space (firstn (S k) rest) = true
    /\ closing_newline (skipn (S k) rest) = None.
Proof.
  induction rest as [|c r IH]; intros k H; [discriminate|].
  cbn [closing_newline] in H. destruct (is_space c) eqn:Ec; [|discriminate].
  destruct (closing_newline r) as [j|] eqn:Er.
  - injection H as <-. destruct (IH j eq_refl) as [N [F C]].
    repeat split; auto.
    change (firstn (S (S j)) (c :: r)) with (c :: firstn (S j) r).
    cbn [forallb]. now rewrite Ec, F.
  - destruct (c =? 0x0A) eqn:E; [|discriminate]. injection H as <-.
    apply Z.eqb_eq in E. subst c. repeat split; auto.
Qed.

(** The cases of the scan. *)
Lemma sub_blank_lines_ind (P : pystr -> pystr -> Prop) :
  P [] [] ->
  (forall c rest,
      (c =? 0x0A) = false ->
      P rest (sub_blank_lines rest) ->
      P (c :: rest) (c :: sub_blank_lines rest)) ->
  (forall rest,
      closing_newline rest = None ->
      P rest (sub_blank_lines rest) ->
      P (0x0A :: rest) (0x0A :: sub_blank_lines rest)) ->
  (forall rest k,
      closing_newline rest = Some k ->
      P (skipn (S k) rest) (sub_blank_lines (skipn (S k) rest)) ->
      P (0x0A :: rest) (0x0A :: 0x0A :: sub_blank_lines (skipn (S k) rest))) ->
  forall text, P text (sub_blank_lines text).
Proof.
  intros Hnil Hother Hlone Hmatch text.
  assert (H : forall n s, (List.length s <= n)%nat -> P s (sub_blank_lines s)).
  { induction n as [|n IH]; intros s Hn.
    - destruct s; [exact Hnil | cbn in Hn; lia].
    - destruct s as [|c rest]; [exact Hnil|].
      cbn [List.length] in Hn. unfold sub_blank_lines.
      cbn [sub_blank_lines_go]. destruct (c =? 0x0A) eqn:E.
      + apply Z.eqb_eq in E. subst c.
        destruct (closing_newline rest) as [k|] eqn:Ec.
        * rewrite sub_blank_lines_go_skip. cbn [app].
          apply Hmatch; [exact Ec|]. apply IH.
          rewrite length_skipn. lia.
        * apply Hlone; [exact Ec|]. apply IH. lia.
      + apply Hother; [exact E|]. apply IH. lia. }
  apply (H (List.length text)). lia.
Qed.

Lemma has_visible_firstn_spaces (k : nat) (s : pystr) :
  forallb is_space (firstn k s) = true ->
  has_visible s = has_visible (skipn k s).
Proof.
  intros F. rewrite <- (firstn_skipn k s) at 1. rewrite has_visible_app.
  replace (has_visible (firstn k s)) with false; [reflexivity|].
  symmetry. apply not_true_is_false. intros H.
  apply has_visible_iff in H as [c [Hc Hs]].
  rewrite forallb_forall in F. now apply Hs, F.
Qed.

Lemma has_visible_sub_blank_lines (text : pystr) :
  has_visible (sub_blank_lines text) = has_visible text.
Proof.
  apply (sub_blank_lines_ind (fun s out => has_visible out = has_visible s)).
  - reflexivity.
  - intros c rest _ IH. unfold has_visible in *. cbn [existsb]. now rewrite IH.
  - intros rest _ IH. unfold has_visible in *. cbn [existsb]. now rewrite IH.
  - intros rest k Ec IH. destruct (closing_newline_spec _ _ Ec) as [_ [F _]].
    change (has_visible (0x0A :: rest)) with (has_visible rest).
    rewrite (has_visible_firstn_spaces _ _ F). exact IH.
Qed.

Lemma sub_blank_lines_incl (text : pystr) (c : char) :
  In c (sub_blank_lines text) -> In c text.
Proof.
  revert c.
  apply (sub_blank_lines_ind
           (fun s out => forall c, In c out -> In c s)).
  - auto.
  - intros d rest _ IH c [H|H]; [now left | right; auto].
  - intros rest _ IH c [H|H]; [now left | right; auto].
  - intros rest k _ IH c [H|[H|H]]; [now left | now left |].
    right. apply IH in H. rewrite <- (firstn_skipn (S k) rest).
    apply in_or_app. now right.
Qed.

Lemma closing_newline_none_kept (rest : pystr) :
  closing_newline rest = None ->
  closing_newline (sub_blank_lines rest) = None.
Proof.
  induction rest as [|c r IH]; [reflexivity|].
  cbn [closing_newline]. unfold sub_blank_lines. cbn [sub_blank_lines_go].
  destruct (is_space c) eqn:Ec.
  - destruct (closing_newline r) eqn:Er; [discriminate|].
    destruct (c =? 0x0A) eqn:E; [discriminate|]. intros _.
    cbn [closing_newline]. rewrite Ec.
    fold (sub_blank_lines r). now rewrite (IH eq_refl), E.
  - intros _. destruct (c =? 0x0A) eqn:E.
    + apply Z.eqb_eq in E. now subst c.
    + cbn [closing_newline]. now rewrite Ec.
Qed.

Lemma sub_blank_lines_collapsed (text : pystr) :
  blank_lines_collapsed (sub_blank_lines text) = true.
Proof.
  apply (sub_blank_lines_ind (fun _ out => blank_lines_collapsed out = true)).
  - reflexivity.
  - intros c rest E IH. cbn [blank_lines_collapsed]. now rewrite E, IH.
  - intros rest Ec IH. cbn [blank_lines_collapsed].
    now rewrite (closing_newline_none_kept _ Ec), IH.
  - intros rest k Ec IH. destruct (closing_newline_spec _ _ Ec) as [_ [_ C]].
    cbn [blank_lines_collapsed closing_newline].
    rewrite (closing_newline_none_kept _ C), IH. reflexivity.
Qed.

Lemma blank_lines_collapsed_fixed (text : pystr) :
  blank_lines_collapsed text = true -> sub_blank_lines text = text.
Proof.
  apply (sub_blank_lines_ind
           (fun s out => blank_lines_collapsed s = true -> out = s)).
  - auto.
  - intros c rest _ IH H. cbn [blank_lines_collapsed] in H.
    apply andb_prop in H as [_ H]. now rewrite IH.
  - intros rest _ IH H. cbn [blank_lines_collapsed] in H.
    apply andb_prop in H as [_ H]. now rewrite IH.
  - intros rest k Ec IH H. cbn [blank_lines_collapsed] in H.
    rewrite Z.eqb_refl, Ec in H. destruct k as [|k]; [|discriminate].
    destruct (closing_newline_spec _ _ Ec) as [N _].
    destruct rest as [|d r]; [discriminate|]. injection N as ->.
    cbn [skipn] in *. cbn [andb] in H. cbn [blank_lines_collapsed] in H.
    apply andb_prop in H as [_ H]. now rewrite IH.
Qed.

Lemma blank_lines_collapsed_app_r (a b : pystr) :
  blank_lines_collapsed (a ++ b) = true -> blank_lines_collapsed b = true.
Proof.
  induction a as [|c r IH]; [auto|]. cbn [app blank_lines_collapsed].
  intros H. apply andb_prop in H as [_ H]. auto.
Qed.

Lemma closing_newline_app (x b : pystr) :
  forall j,
    closing_newline x = Some j ->
    exists j', closing_newline (x ++ b) = Some j' /\ (j <= j')%nat.
Proof.
  induction x as [|c r IH]; intros j H; [discriminate|].
  cbn [closing_newline app] in *. destruct (is_space c); [|discriminate].
  destruct (closing_newline r) as [i|] eqn:Er.
  - injection H as <-. destruct (IH i eq_refl) as [i' [E L]].
    rewrite E. exists (S i'). split; [reflexivity | lia].
  - destruct (c =? 0x0A); [|discriminate]. injection H as <-.
    destruct (closing_newline (r ++ b)) as [i'|].
    + exists (S i'). split; [reflexivity | lia].
    + exists 0%nat. split; [reflexivity | lia].
Qed.

Lemma blank_lines_collapsed_app_l (a b : pystr) :
  blank_lines_collapsed (a ++ b) = true -> blank_lines_collapsed a = true.
Proof.
  induction a as [|c r IH]; [auto|]. cbn [app blank_lines_collapsed].
  intros H. apply andb_prop in H as [H1 H2]. rewrite (IH H2), andb_true_r.
  destruct (c =? 0x0A); [|reflexivity].
  destruct (closing_newline r) as [[|j]|] eqn:Er; try reflexivity.
  destruct (closing_newline_app _ b _ Er) as [j' [E L]].
  rewrite E in H1. destruct j'; [lia | discriminate].
Qed.

(** Whitespace between two newlines is a match of [\n\s*\n]. *)
Lemma closing_newline_after_spaces (mid post : pystr) :
  forallb is_space mid = true ->
  exists j,
    closing_newline (mid ++ 0x0A :: post) = Some j
    /\ (List.length mid <= j)%nat.
Proof.
  induction mid as [|c m IH]; intros F.
  - cbn [app closing_newline]. change (is_space 0x0A) with true. cbn iota.
    destruct (closing_newline post) as [i|].
    + exists (S i). split; [reflexivity | cbn; lia].
    + exists 0%nat. split; [reflexivity | cbn; lia].
  - cbn [forallb] in F. apply andb_prop in F as [Fc F].
    destruct (IH F) as [j [E L]]. cbn [app closing_newline].
    rewrite Fc, E. exists (S j). split; [reflexivity | cbn; lia].
Qed.

Lemma blank_lines_collapsed_spec (s pre mid post : pystr) :
  blank_lines_collapsed s = true ->
  s = pre ++ [0x0A] ++ mid ++ [0x0A] ++ post ->
  forallb is_space mid = true ->
  mid = [].
Proof.
  intros H E F. rewrite E in H. apply blank_lines_collapsed_app_r in H.
  cbn [app blank_lines_collapsed] in H. rewrite Z.eqb_refl in H.
  destruct (closing_newline_after_spaces mid post F) as [j [Ej L]].
  cbn [app] in Ej. rewrite Ej in H.
  destruct j as [|j]; [|discriminate].
  destruct mid; [reflexivity | cbn in L; lia].
Qed.

Lemma sub_blank_lines_keeps_collapsed_runs (text : pystr) :
  forall prev,
    runs_collapsed space_or_tab prev text = true ->
    runs_collapsed space_or_tab prev (sub_blank_lines text) = true.
Proof.
  apply (sub_blank_lines_ind
           (fun s out =>
              forall prev,
                runs_collapsed space_or_tab prev s = true ->
                runs_collapsed space_or_tab prev out = true)).
  - auto.
  - intros c rest _ IH prev. cbn [runs_collapsed].
    destruct (space_or_tab c); [|apply IH]. intros H.
    apply andb_prop in H as [H1 H3]. now rewrite H1, IH.
  - intros rest _ IH prev. cbn [runs_collapsed].
    change (space_or_tab 0x0A) with false. cbn iota. apply IH.
  - intros rest k _ IH prev. cbn [runs_collapsed].
    change (space_or_tab 0x0A) with false. cbn iota. intros H.
    apply IH. rewrite <- (firstn_skipn (S k) rest) in H.
    now apply collapsed_app_r in H.
Qed.

(** *** [clean_text] *)

Lemma has_visible_sub_control (text : pystr) :
  has_visible (Re.sub_class control_chars [] text) = existsb printable text.
Proof.
  rewrite sub_class_delete. unfold has_visible, printable.
  induction text as [|c rest IH]; [reflexivity|].
  cbn [filter existsb]. destruct (control_chars c); cbn [negb existsb].
  - now rewrite andb_false_r.
  - now rewrite andb_true_r, IH.
Qed.

Lemma space_or_tab_is_space (c : char) :
  space_or_tab c = true -> is_space c = true.
Proof.
  unfold space_or_tab. intros H.
  apply orb_prop in H as [H|H]; apply Z.eqb_eq in H; now subst.
Qed.

(** Something is left of a text exactly when it has a character that is
    neither whitespace nor a control character. *)
Lemma clean_text_keeps_printable (text : pystr) :
  truthy (clean_text text) = existsb printable text.
Proof.
  unfold clean_text. destruct text as [|c rest]; [reflexivity|].
  cbn [truthy negb]. rewrite truthy_strip, has_visible_sub_blank_lines.
  unfold Re.sub_class_plus.
  rewrite has_visible_sub_spaces by exact space_or_tab_is_space.
  apply has_visible_sub_control.
Qed.

(** What [clean_text] returns. *)
Lemma clean_text_facts (text : pystr) :
  let out := clean_text text in
  starts_visible out = true /\ ends_visible out = true
  /\ runs_collapsed space_or_tab false out = true
  /\ blank_lines_collapsed out = true
  /\ Forall (fun c => control_chars c = false) out.
Proof.
  unfold clean_text. destruct text as [|c0 rest0].
  { cbn. repeat split; constructor. }
  cbn [truthy negb].
  set (a := Re.sub_class control_chars [] (c0 :: rest0)).
  set (g := Re.sub_class_plus space_or_tab [0x20] a).
  destruct (strip_visible_ends (sub_blank_lines g)) as [S1 S2].
  destruct (strip_middle (sub_blank_lines g)) as [pre [post [E _]]].
  repeat split; auto.
  - assert (H : runs_collapsed space_or_tab false (sub_blank_lines g) = true).
    { apply sub_blank_lines_keeps_collapsed_runs.
      apply sub_class_plus_collapses. reflexivity. }
    rewrite E in H. apply collapsed_app_r in H.
    now apply collapsed_app_l in H.
  - pose proof (sub_blank_lines_collapsed g) as H.
    rewrite E in H. apply blank_lines_collapsed_app_r in H.
    now apply blank_lines_collapsed_app_l in H.
  - apply Forall_forall. intros c Hc. apply strip_incl in Hc.
    apply sub_blank_lines_incl in Hc.
    apply sub_class_plus_incl in Hc as [Hc|[Hc|[]]]; [|now subst].
    unfold a in Hc. rewrite sub_class_delete in Hc.
    apply filter_In in Hc as [_ Hc]. now apply negb_true_iff.
Qed.

(** X5.  The text [clean_text] returns is in a normal form: it has no
    whitespace at either end, no control character of the removed class and
    no tab, no two adjacent spaces, and between two newlines that only
    whitespace separates there is nothing at all (every blank stretch is
    exactly two newlines). *)
Theorem clean_text_normal_form :
  forall text : pystr,
    let out := clean_text text in
    strip out = out
    /\ Forall (fun c => control_chars c = false /\ c <> 0x09) out
    /\ (forall pre post, out <> pre ++ [0x20; 0x20] ++ post)
    /\ (forall pre mid post,
          out = pre ++ [0x0A] ++ mid ++ [0x0A] ++ post ->
          forallb is_space mid = true -> mid = []).
Proof.
  intros text. cbv zeta.
  destruct (clean_text_facts text) as [S1 [S2 [R [B C]]]].
  cbv zeta in S1, S2, R, B, C. repeat split.
  - now apply strip_fixed.
  - apply Forall_forall. intros c Hc. rewrite Forall_forall in C. split; auto.
    intros ->. pose proof (collapsed_plain _ _ _ R) as P.
    rewrite Forall_forall in P. specialize (P _ Hc eq_refl). discriminate.
  - intros pre post.
    exact (collapsed_no_double space_or_tab eq_refl _ pre post false R).
  - intros pre mid post. now apply blank_lines_collapsed_spec.
Qed.

(** X6.  Cleaning a text twice is the same as cleaning it once:
    [clean_text] is idempotent. *)
Theorem clean_text_idempotent :
  forall text : pystr, clean_text (clean_text text) = clean_text text.
Proof.
  intros text.
  destruct (clean_text_facts text) as [S1 [S2 [R [B C]]]].
  cbv zeta in S1, S2, R, B, C.
  remember (clean_text text) as out eqn:E. clear E.
  unfold clean_text. destruct out as [|c rest]; [reflexivity|].
  cbn [truthy negb]. rewrite sub_class_delete.
  rewrite (RetryFacts.filter_all _ (c :: rest)).
  - unfold Re.sub_class_plus. rewrite (collapsed_fixed space_or_tab _ _ R).
    rewrite (blank_lines_collapsed_fixed _ B). now apply strip_fixed.
  - intros x Hx. rewrite Forall_forall in C. now rewrite (C x Hx).
Qed.
End CleaningFacts.

(** ** Term rewriting on whole texts (core/preprocessing.py) *)

Module TermFacts.
Import Config Preprocessing TermSpec NormalizationSpec CleaningSpec
  PyStrFacts PreprocessingFacts CleaningFacts.


Section Rewriting.
Variable U : Unicode.

(** [matches_anywhere] decides whether an occurrence of the term starts
    somewhere in the text. *)
Lemma matches_anywhere_iff (term text : pystr) :
  forall ctx,
    matches_anywhere U term (last_char ctx) text = true
    <-> exists pre occ post,
          text = pre ++ occ ++ post /\ occurrence U term (ctx ++ pre) occ post.
Proof.
  induction text as [|c rest IH]; intros ctx.
  - cbn [matches_anywhere]. rewrite orb_false_r, match_here_iff. split.
    + intros [occ [post [E O]]]. exists [], occ, post.
      now rewrite app_nil_r.
    + intros [pre [occ [post [E O]]]]. exists occ, post.
      destruct pre; [|discriminate]. now rewrite app_nil_r in O.
  - cbn [matches_anywhere]. rewrite orb_true_iff, match_here_iff.
    rewrite <- (last_char_snoc ctx c), IH. split.
    + intros [[occ [post [E O]]]|[pre [occ [post [E O]]]]].
      * exists [], occ, post. now rewrite app_nil_r.
      * exists (c :: pre), occ, post. split; [now rewrite E|].
        now rewrite <- app_assoc in O.
    + intros [[|d pre] [occ [post [E O]]]].
      * left. exists occ, post. now rewrite app_nil_r in O.
      * right. injection E as <- E. exists pre, occ, post.
        split; [exact E|]. now rewrite <- app_assoc.
Qed.

Lemma sub_term_go_no_match (term repl text : pystr) :
  forall prev,
    matches_anywhere U term prev text = false ->
    sub_term_go U term repl 0 prev text = text.
Proof.
  induction text as [|c rest IH]; intros prev H;
    cbn [matches_anywhere] in H; apply orb_false_iff in H as [H1 H2];
    cbn [sub_term_go]; rewrite H1; [reflexivity|].
  now rewrite IH.
Qed.

Lemma sub_term_go_truthy (term repl text : pystr) (prev : option char) :
  term <> [] -> repl <> [] ->
  truthy (sub_term_go U term repl 0 prev text) = truthy text.
Proof.
  intros Ht Hr. destruct term as [|p t]; [congruence|].
  destruct repl as [|r repl]; [congruence|].
  destruct text as [|c rest]; cbn [sub_term_go].
  - unfold match_here. cbn [ci_startswith]. now rewrite andb_false_r.
  - now destruct (match_here U (p :: t) prev (c :: rest)).
Qed.

Lemma rewriting_truthy (terms : list (pystr * pystr)) :
  Forall (fun kv => fst kv <> [] /\ snd kv <> []) terms ->
  forall text,
    truthy (fold_left (fun t kv => sub_term U (fst kv) (snd kv) t) terms text)
    = truthy text.
Proof.
  induction 1 as [|kv terms [Hk Hv] _ IH]; intros text; [reflexivity|].
  cbn [fold_left]. rewrite IH. unfold sub_term.
  now apply sub_term_go_truthy.
Qed.

Lemma rewriting_no_match (terms : list (pystr * pystr)) (text : pystr) :
  mentions_none U terms text = true ->
  fold_left (fun t kv => sub_term U (fst kv) (snd kv) t) terms text = text.
Proof.
  unfold mentions_none. induction terms as [|kv terms IH]; [reflexivity|].
  cbn [forallb fold_left]. intros H. apply andb_prop in H as [H1 H2].
  apply negb_true_iff in H1. unfold sub_term at 2.
  rewrite (sub_term_go_no_match _ _ _ _ H1). now apply IH.
Qed.

End Rewriting.

Lemma default_terms_not_empty :
  Forall (fun kv : pystr * pystr => fst kv <> [] /\ snd kv <> [])
    (sorted_terms None).
Proof.
  apply Forall_forall. intros kv H.
  assert (F : forallb (fun kv : pystr * pystr =>
                         truthy (fst kv) && truthy (snd kv))
                (sorted_terms None) = true) by (vm_compute; reflexivity).
  rewrite forallb_forall in F. specialize (F kv H).
  apply andb_prop in F as [F1 F2].
  split; intros E; rewrite E in *; discriminate.
Qed.

(** X7.  [preprocess_for_translation] returns the empty string exactly when
    the text has no character that is neither whitespace nor a control
    character of the removed class, with or without term normalization: a
    cell that holds only blanks reaches the provider as an empty request,
    and no other cell does. *)
Theorem preprocess_empty_iff_nothing_printable :
  forall (U : Unicode) (text : pystr) (normalize_terms : bool),
    preprocess_for_translation U text normalize_terms = []
    <-> (forall c, In c text -> is_space c = true \/ control_chars c = true).
Proof.
  intros U text normalize_terms.
  assert (T : truthy (preprocess_for_translation U text normalize_terms)
              = existsb printable text).
  { unfold preprocess_for_translation. rewrite <- clean_text_keeps_printable.
    destruct normalize_terms; [|reflexivity].
    unfold normalize_provider_terms.
    apply rewriting_truthy, default_terms_not_empty. }
  split.
  - intros E c Hc. rewrite E in T. cbn [truthy] in T.
    destruct (is_space c) eqn:Es; [now left|]. right.
    destruct (control_chars c) eqn:Ec; [reflexivity|].
    assert (X : existsb printable text = true).
    { apply existsb_exists. exists c. split; [exact Hc|].
      unfold printable. now rewrite Es, Ec. }
    rewrite X in T. discriminate.
  - intros H.
    destruct (preprocess_for_translation U text normalize_terms);
      [reflexivity|].
    cbn [truthy] in T. symmetry in T. apply existsb_exists in T as [x [Hx P]].
    unfold printable in P. apply andb_prop in P as [P1 P2].
    apply negb_true_iff in P1, P2. destruct (H x Hx); congruence.
Qed.

(** X8.  A text in which none of the terms matches is returned unchanged by
    [normalize_provider_terms], with the default terms and with custom
    mappings whose replacements hold no backslash.  (A backslash in a
    replacement is read by [re.sub] as the start of an escape, and a bad
    escape is refused even when nothing matches.) *)
Theorem text_without_terms_is_unchanged :
  forall (U : Unicode) (text : pystr)
         (custom_mappings : option (list (pystr * pystr))),
    plain_replacements custom_mappings = true ->
    mentions_none U (sorted_terms custom_mappings) text = true ->
    normalize_provider_terms U text custom_mappings = text.
Proof.
  intros U text custom_mappings _ H. unfold normalize_provider_terms.
  now apply rewriting_no_match.
Qed.

(** "Hello world" mentions none of the configured terms, nor the custom
    term "Bard". *)
Lemma text_without_terms_is_unchanged_witness :
  normalize_provider_terms ascii_unicode (py "Hello world") None
  = py "Hello world"
  /\ normalize_provider_terms ascii_unicode (py "Hello world")
       (Some [(py "Bard", py "the assistant")])
     = py "Hello world".
Proof.
  split.
  - apply (text_without_terms_is_unchanged ascii_unicode (py "Hello world")
             None).
    + reflexivity.
    + vm_compute. reflexivity.
  - apply (text_without_terms_is_unchanged ascii_unicode (py "Hello world")
             (Some [(py "Bard", py "the assistant")])).
    + reflexivity.
    + vm_compute. reflexivity.
Defined.
End TermFacts.

(** ** More on the validation gate (core/postprocessing.py) *)

Module QualityFacts.
Import Config Postprocessing ValidatorSpec CleaningSpec PyStrFacts
  ValidatorFacts CleaningFacts.


Lemma count_pos_exists (p : char -> bool) (s : pystr) :
  0 < count p s -> exists c, In c s /\ p c = true.
Proof.
  induction s as [|c rest IH]; cbn [count]; [lia|].
  destruct (p c) eqn:E.
  - intros _. exists c. split; [now left | exact E].
  - intros H. destruct IH as [x [Hx Px]]; [lia|].
    exists x. split; [now right | exact Px].
Qed.

Lemma ratio_implies_not_empty (translated : pystr) :
  script_ratio_ok translated ->
  not_empty translated /\ has_target_script translated.
Proof.
  intros [Hv Hs]. split.
  - destruct (count_pos_exists _ _ Hv) as [c [Hc Pc]].
    exists c. split; [exact Hc|]. unfold whitespace.
    apply negb_true_iff in Pc. congruence.
  - destruct (count_pos_exists arabic_pattern translated) as [c [Hc Pc]];
      [lia|].
    exists c. split; [exact Hc|]. now apply arabic_pattern_iff.
Qed.

(** X1.  The ratio of Arabic characters lies between 0 and 1, as the
    documentation of [get_arabic_char_ratio] says; it is 0 for the empty
    string. *)
Theorem arabic_char_ratio_in_unit_interval :
  forall text : pystr,
    (0 <= get_arabic_char_ratio text)%Q
    /\ (get_arabic_char_ratio text <= 1)%Q
    /\ get_arabic_char_ratio [] = 0%Q.
Proof.
  intros text. split; [|split; [|reflexivity]].
  - destruct text as [|c rest]; [cbn; discriminate|].
    rewrite arabic_ratio_value by discriminate.
    pose proof (count_nonneg arabic_pattern (c :: rest)).
    unfold Qle. cbn [Qnum Qden]. lia.
  - destruct text as [|c rest]; [cbn; discriminate|].
    rewrite arabic_ratio_value by discriminate.
    pose proof (count_le_visible (c :: rest)).
    unfold Qle. cbn [Qnum Qden]. rewrite Z2Pos.id by lia. lia.
Qed.

(** X2.  Three of the five checks decide the verdict of
    [validate_translation]: a translation is valid exactly when at least
    half of its non-whitespace characters are Arabic, its length ratio is
    within bounds (or the original is empty) and no garbled-encoding
    signature occurs.  The checks "not_empty" and "has_arabic" hold
    whenever "arabic_ratio_ok" does. *)
Theorem ratio_length_encoding_decide_validity :
  forall original translated : pystr,
    (fst (validate_translation original translated) = true
     <-> script_ratio_ok translated
         /\ length_ratio_ok original translated
         /\ no_encoding_artifacts translated)
    /\ (Qle_bool MIN_ARABIC_CHAR_RATIO (get_arabic_char_ratio translated)
        = true ->
        (MIN_TRANSLATION_LENGTH <=? len (strip translated)) = true
        /\ has_arabic_chars translated = true).
Proof.
  intros original translated. split.
  - unfold validate_translation. cbn [fst forallb snd].
    rewrite !andb_true_iff.
    rewrite not_empty_check, has_arabic_check, arabic_ratio_check,
      length_ratio_check, no_encoding_errors_check.
    split; [tauto|]. intros [R [L E]].
    destruct (ratio_implies_not_empty _ R). tauto.
  - rewrite not_empty_check, has_arabic_check, arabic_ratio_check.
    apply ratio_implies_not_empty.
Qed.

(** A translation the validator accepts has a visible character, and so
    has what postprocessing makes of it. *)
Lemma valid_translation_stays_visible (original translated : pystr) :
  fst (validate_translation original translated) = true ->
  truthy (postprocess_translation translated) = true.
Proof.
  unfold validate_translation. cbn [fst forallb snd]. intros H.
  apply andb_prop in H as [H _].
  unfold postprocess_translation. rewrite clean_arabic_keeps_visible.
  unfold MIN_TRANSLATION_LENGTH in H.
  now rewrite <- truthy_len, truthy_strip in H.
Qed.
End QualityFacts.

(** ** More on the retry engine (core/pipeline.py, translate_with_retry) *)

Module EngineFacts.
Import Config Effects Pipeline RetrySpec LimiterSpec EffectFacts RetryFacts
  QualityFacts.


Lemma accepts_valid (text : pystr) (out : api_outcome) (tr : pystr) :
  accepts text out = Some tr ->
  fst (Postprocessing.validate_translation text tr) = true.
Proof.
  unfold accepts. destruct out as [r|e]; [|discriminate].
  destruct (success r); [|discriminate].
  destruct (translation r) as [t|]; [|discriminate].
  destruct (fst (Postprocessing.validate_translation text t)) eqn:E;
    [|discriminate].
  now intros [= <-].
Qed.

Lemma apis_names_known (self : TranslationPipeline) (api_name : pystr) :
  In api_name (map fst (apis self)) ->
  api_name = py "nvidia" \/ api_name = py "fanar".
Proof.
  unfold apis.
  destruct (str_eqb (primary_api self) (py "nvidia")),
    (enable_fallback self); cbn [map fst In]; intuition.
Qed.

(** What the loop over the providers returns. *)
Lemma apis_loop_contract (env : Env) (self : TranslationPipeline)
    (processed_text text : pystr) (max_retries : Z) (w : World) :
  exists res w' evs,
    apis_loop env self processed_text text max_retries (apis self) w
    = (Ok res, w', evs)
    /\ stats w' = stats w /\ files w' = files w
    /\ (res = exhausted
        \/ exists tr api_name,
             res = (Some (Postprocessing.postprocess_translation tr),
                    api_name, None)
             /\ fst (Postprocessing.validate_translation text tr) = true
             /\ truthy (Postprocessing.postprocess_translation tr) = true
             /\ (api_name = py "nvidia" \/ api_name = py "fanar")).
Proof.
  destruct (apis_loop_shape env self processed_text text max_retries
              (apis self) w)
    as (res & w' & evs & ks & H & Hs & Hf & _ & _ & _ & _ & Hout).
  exists res, w', evs. repeat (split; [assumption|]).
  destruct Hout as [[-> _]|(init & api_name & out & tr & _ & _ & Ha & Hn & ->)].
  - now left.
  - right. exists tr, api_name. split; [reflexivity|].
    pose proof (accepts_valid _ _ _ Ha) as Hv. split; [exact Hv|].
    split; [now apply valid_translation_stays_visible with text|].
    now apply apis_names_known with self.
Qed.

(** X9.  [translate_with_retry] never raises and leaves the statistics
    alone.  It returns either [(None, "failed", "All API attempts
    exhausted")] or, with no error, the postprocessed form of a translation
    that the validator accepted against the original text; that form is not
    empty, and the provider name is "nvidia" or "fanar".  So a returned
    translation always counts as a success in [translate_dataset]. *)
Theorem retry_result_contract :
  forall (env : Env) (self : TranslationPipeline) (text : pystr)
         (max_retries : Z) (w : World),
    exists res w' evs,
      translate_with_retry env self text max_retries w = (Ok res, w', evs)
      /\ stats w' = stats w
      /\ (res = exhausted
          \/ exists tr api_name,
               res = (Some (Postprocessing.postprocess_translation tr),
                      api_name, None)
               /\ fst (Postprocessing.validate_translation text tr) = true
               /\ Postprocessing.postprocess_translation tr <> []
               /\ translation_truthy (fst (fst res)) = true
               /\ (api_name = py "nvidia" \/ api_name = py "fanar")).
Proof.
  intros env self text max_retries w. unfold translate_with_retry.
  destruct (apis_loop_contract env self
              (Preprocessing.preprocess_for_translation (unicode env) text
                 (normalize_provider_terms self))
              text max_retries w)
    as (res & w' & evs & H & Hs & _ & Hres).
  exists res, w', evs. split; [exact H|]. split; [exact Hs|].
  destruct Hres as [->|(tr & api_name & -> & Hv & Ht & Hn)]; [now left|].
  right. exists tr, api_name. repeat split; auto.
  intros E. rewrite E in Ht. discriminate.
Qed.

(** X10.  With no attempt allowed ([max_retries] zero or negative) no
    provider is called and nothing sleeps: [translate_with_retry] returns
    the exhausted result at once and leaves the world as it was. *)
Theorem no_attempt_without_retries :
  forall (env : Env) (self : TranslationPipeline) (text : pystr)
         (max_retries : Z) (w : World),
    max_retries <= 0 ->
    translate_with_retry env self text max_retries w = (Ok exhausted, w, []).
Proof.
  intros env self text max_retries w H. unfold translate_with_retry.
  assert (R : Pandas.range 0 max_retries = []).
  { unfold Pandas.range. replace (Z.to_nat (max_retries - 0)) with 0%nat by lia.
    reflexivity. }
  unfold apis.
  destruct (str_eqb (primary_api self) (py "nvidia")),
    (enable_fallback self); cbn [apis_loop]; rewrite R; reflexivity.
Qed.

(** A call with [max_retries = 0]. *)
Lemma no_attempt_without_retries_witness :
  translate_with_retry Samples.translating_env Samples.nvidia_only
    (py "Hello") 0 Samples.fresh_world
  = (Ok exhausted, Samples.fresh_world, []).
Proof.
  apply (no_attempt_without_retries Samples.translating_env
           Samples.nvidia_only (py "Hello") 0 Samples.fresh_world).
  lia.
Defined.

Section Exhaustion.
Variable env : Env.
Variable self : TranslationPipeline.
Variables processed_text text : pystr.
Variable max_retries : Z.
Hypothesis Hlimiter : limiter_configured self.

(** With a working limiter, attempts that all fall through made one call
    each. *)
Lemma attempts_loop_none_counts (api_name : pystr) (api_func : provider)
    (attempts : list Z) :
  forall w w' evs,
    attempts_loop env self api_name api_func processed_text text max_retries
      attempts w = (Ok None, w', evs) ->
    List.length (call_names evs) = List.length attempts.
Proof.
  induction attempts as [|attempt rest IH]; intros w w' evs H.
  - cbn in H. injection H as <- <-. reflexivity.
  - destruct (try_attempt_shape env self api_name api_func processed_text
                text w)
      as (w1 & lim & Hlim & _ & _ & [[_ [Hno _]]|[Htry _]]);
      [contradiction|].
    cbv zeta in Htry.
    destruct (limiter_sleeps_facts api_name processed_text text lim Hlim)
      as (_ & _ & L3 & _).
    destruct (backoff_events_facts api_name processed_text text max_retries
                attempt) as (_ & _ & B3).
    destruct (answer_of api_name text
                (respond env api_func (calls_made w api_func) processed_text
                   REQUEST_TIMEOUT)) as [answer|] eqn:Ha.
    + rewrite (attempts_loop_hit _ _ _ _ _ _ _ _ _ _ _ _ _ Htry) in H.
      discriminate.
    + rewrite (attempts_loop_miss _ _ _ _ _ _ _ _ _ _ _ _ Htry) in H.
      destruct (attempts_loop env self api_name api_func processed_text text
                  max_retries rest w1) as [[r w2] evs2] eqn:Hrest.
      cbn [fst snd] in H. injection H as -> -> <-.
      rewrite !call_names_app, L3, B3, !length_app, (IH _ _ _ Hrest).
      reflexivity.
Qed.

Lemma attempts_loop_names (api_name : pystr) (api_func : provider) (w : World) :
  exists r w' evs k,
    attempts_loop env self api_name api_func processed_text text max_retries
      (Pandas.range 0 max_retries) w = (Ok r, w', evs)
    /\ call_names evs = repeat api_name k
    /\ (r = None -> k = Z.to_nat max_retries).
Proof.
  destruct (attempts_loop_shape env self api_name api_func processed_text
              text max_retries (Pandas.range 0 max_retries) w)
    as (r & w' & evs & H & Hon & _).
  destruct (call_names_of_provider processed_text api_name evs Hon) as [Hn _].
  exists r, w', evs, (List.length (call_names evs)).
  split; [exact H|]. split; [exact Hn|]. intros ->.
  rewrite (attempts_loop_none_counts _ _ _ _ _ _ H), range_length.
  f_equal. lia.
Qed.

(** The loop over a primary and a fallback provider. *)
Lemma apis_loop_fallback (p s : pystr) (pf sf : provider)
    (more : list (pystr * provider)) (w : World) :
  more = [] \/ more = [(s, sf)] ->
  exists a b,
    call_names (snd (apis_loop env self processed_text text max_retries
                       ((p, pf) :: more) w))
    = repeat p a ++ repeat s b
    /\ (b <> 0%nat -> a = Z.to_nat max_retries)
    /\ (more = [] -> b = 0%nat).
Proof.
  intros Hmore. cbn [apis_loop].
  destruct (attempts_loop_names p pf w) as (r & w1 & evs1 & a & H1 & N1 & K1).
  erewrite bind_ok by exact H1. cbn [fst snd].
  destruct r as [answer|].
  - exists a, 0%nat. cbn. rewrite !app_nil_r.
    split; [exact N1|]. split; [congruence | reflexivity].
  - destruct Hmore as [->| ->]; cbn [apis_loop].
    + exists a, 0%nat. cbn. rewrite !app_nil_r.
      split; [exact N1|]. split; [congruence | reflexivity].
    + destruct (attempts_loop_names s sf w1)
        as (r2 & w2 & evs2 & b & H2 & N2 & _).
      erewrite bind_ok by exact H2.
      exists a, b. rewrite call_names_app. cbn [fst snd].
      assert (T : forall x : retry_result, snd (ret x w2) = [])
        by reflexivity.
      destruct r2; rewrite T, app_nil_r, N1, N2;
        (split; [reflexivity|]);
        (split; [intros _; now apply K1 | discriminate]).
Qed.

End Exhaustion.

Lemma apis_cases (self : TranslationPipeline) :
  exists pf more,
    apis self = (primary_name self, pf) :: more
    /\ (more = [] \/ exists sf, more = [(secondary_name self, sf)])
    /\ (enable_fallback self = false -> more = []).
Proof.
  unfold secondary_name, primary_name, apis.
  destruct (str_eqb (primary_api self) (py "nvidia")),
    (enable_fallback self); cbn [hd fst];
    eexists _, _; (split; [reflexivity|]); split;
    solve [ left; reflexivity
          | right; eexists; reflexivity
          | intros _; reflexivity
          | discriminate ].
Qed.

(** X11.  When the rate limiter is absent or has a rate of at least 1, the
    fallback provider is called only after the primary has been called
    exactly [max_retries] times (and only if fallback is enabled): the
    provider calls of a run are a block of calls of the primary followed by
    a block of calls of the other provider, and the second block is empty
    unless the first is complete. *)
Theorem fallback_only_after_primary_exhausted :
  forall (env : Env) (self : TranslationPipeline) (text : pystr)
         (max_retries : Z) (w : World),
    limiter_configured self ->
    exists a b : nat,
      call_names (snd (translate_with_retry env self text max_retries w))
      = repeat (primary_name self) a ++ repeat (secondary_name self) b
      /\ (b <> 0%nat ->
          a = Z.to_nat max_retries /\ enable_fallback self = true).
Proof.
  intros env self text max_retries w Hlim. unfold translate_with_retry.
  destruct (apis_cases self) as (pf & more & -> & Hmore & Hoff).
  set (processed_text :=
         Preprocessing.preprocess_for_translation (unicode env) text
           (normalize_provider_terms self)).
  destruct Hmore as [->|[sf ->]].
  - destruct (apis_loop_fallback env self processed_text text max_retries
                Hlim (primary_name self) (secondary_name self) pf pf [] w)
      as (a & b & H & _ & Hb); [now left|].
    exists a, b. split; [exact H|]. intros Hne. now specialize (Hb eq_refl).
  - destruct (apis_loop_fallback env self processed_text text max_retries
                Hlim (primary_name self) (secondary_name self) pf sf
                [(secondary_name self, sf)] w)
      as (a & b & H & Ha & _); [now right|].
    exists a, b. split; [exact H|]. intros Hne. split; [now apply Ha|].
    destruct (enable_fallback self); [reflexivity|].
    specialize (Hoff eq_refl). discriminate.
Qed.

(** NVIDIA fails three times, then Fanar answers. *)
Lemma fallback_only_after_primary_exhausted_witness :
  limiter_configured Scenarios.with_fallback
  /\ call_names
       (snd (translate_with_retry Scenarios.fanar_rescues_env
               Scenarios.with_fallback (py "Hello") 3 Samples.fresh_world))
     = [py "nvidia"; py "nvidia"; py "nvidia"; py "fanar"]
  /\ exists a b : nat,
       call_names
         (snd (translate_with_retry Scenarios.fanar_rescues_env
                 Scenarios.with_fallback (py "Hello") 3 Samples.fresh_world))
       = repeat (primary_name Scenarios.with_fallback) a
         ++ repeat (secondary_name Scenarios.with_fallback) b
       /\ (b <> 0%nat ->
           a = Z.to_nat 3 /\ enable_fallback Scenarios.with_fallback = true).
Proof.
  split; [exact I|]. split; [vm_compute; reflexivity|].
  apply (fallback_only_after_primary_exhausted Scenarios.fanar_rescues_env
           Scenarios.with_fallback (py "Hello") 3 Samples.fresh_world).
  exact I.
Defined.

(** *** A negative rate *)

Section NegativeRate.
Variable env : Env.
Variable self : TranslationPipeline.
Variable rpm : Z.
Hypothesis Hrpm : rate_limit_rpm self = Some rpm.
Hypothesis Hneg : rpm < 0.

(** On an empty queue the limiter reads [timestamps[0]] and raises. *)
Lemma rate_limiting_raises (w : World) :
  timestamps w = [] ->
  rate_limiting env self w = (Err IndexError, with_limiter w 1 [], []).
Proof.
  intros Hts. unfold rate_limiting, rate_limiter. rewrite Hrpm.
  replace (rpm =? 0) with false by (symmetry; apply Z.eqb_neq; lia).
  apply bind_err. rewrite LimiterFacts.get_wait_time_eval. cbv zeta.
  rewrite Hts. cbn [RateLimiter.evict].
  replace (rpm <=? len (@nil Q)) with true
    by (symmetry; apply Z.leb_le; cbn; lia).
  reflexivity.
Qed.

Lemma try_attempt_blocked (api_name : pystr) (api_func : provider)
    (processed_text text : pystr) (w : World) :
  timestamps w = [] ->
  try_attempt env self api_name api_func processed_text text w
  = (Ok None, with_limiter w 1 [], []).
Proof.
  intros Hts. unfold try_attempt, attempt_body.
  eapply try_err. apply bind_err. now apply rate_limiting_raises.
Qed.

Lemma attempts_loop_blocked (api_name : pystr) (api_func : provider)
    (processed_text text : pystr) (max_retries : Z) (attempts : list Z) :
  forall w,
    timestamps w = [] ->
    exists evs,
      attempts_loop env self api_name api_func processed_text text
        max_retries attempts w
      = (Ok None, with_limiter w (List.length attempts) [], evs)
      /\ call_names evs = [].
Proof.
  induction attempts as [|attempt rest IH]; intros w Hts.
  - exists []. cbn. rewrite <- Hts, LimiterFacts.with_limiter_same.
    now split.
  - pose proof (try_attempt_blocked api_name api_func processed_text text w
                  Hts) as Htry.
    rewrite (attempts_loop_miss _ _ _ _ _ _ _ _ _ _ _ _ Htry).
    destruct (IH (with_limiter w 1 []) eq_refl) as (evs & Hrest & Hn).
    rewrite Hrest. cbn [fst snd]. rewrite LimiterFacts.with_limiter_twice.
    eexists. split; [reflexivity|].
    destruct (backoff_events_facts api_name processed_text text max_retries
                attempt) as (_ & _ & B3).
    now rewrite !call_names_app, B3, Hn.
Qed.

Lemma apis_loop_blocked (processed_text text : pystr) (max_retries : Z)
    (todo : list (pystr * provider)) :
  forall w,
    timestamps w = [] ->
    exists k evs,
      apis_loop env self processed_text text max_retries todo w
      = (Ok exhausted, with_limiter w k [], evs)
      /\ call_names evs = [].
Proof.
  induction todo as [|[api_name api_func] rest IH]; intros w Hts.
  - exists 0%nat, []. cbn. rewrite <- Hts, LimiterFacts.with_limiter_same.
    now split.
  - destruct (attempts_loop_blocked api_name api_func processed_text text
                max_retries (Pandas.range 0 max_retries) w Hts)
      as (evs1 & H1 & N1).
    cbn [apis_loop]. erewrite bind_ok by exact H1. cbv beta iota.
    destruct (IH (with_limiter w
                    (List.length (Pandas.range 0 max_retries)) []) eq_refl)
      as (k & evs2 & H2 & N2).
    rewrite H2. cbn [fst snd]. rewrite LimiterFacts.with_limiter_twice.
    eexists _, _. split; [reflexivity|].
    now rewrite call_names_app, N1, N2.
Qed.

End NegativeRate.

(** X12.  A pipeline built with a negative [rate_limit_rpm] never reaches
    a provider.  On the empty queue of a new limiter every attempt raises
    IndexError inside the rate limiter, the retry handler swallows it, and
    [translate_with_retry] returns the exhausted result without any
    provider call; the queue is still empty afterwards, so the same happens
    for the next text. *)
Theorem negative_rate_limit_blocks_every_call :
  forall (env : Env) (self : TranslationPipeline) (rpm : Z) (text : pystr)
         (max_retries : Z) (w : World),
    rate_limit_rpm self = Some rpm ->
    rpm < 0 ->
    timestamps w = [] ->
    exists (reads : nat) (evs : list event),
      translate_with_retry env self text max_retries w
      = (Ok exhausted, with_limiter w reads [], evs)
      /\ call_names evs = [].
Proof.
  intros env self rpm text max_retries w Hrpm Hneg Hts.
  unfold translate_with_retry.
  now apply apis_loop_blocked with rpm.
Qed.

(** With [rate_limit_rpm=-1], a provider that would translate everything
    is never asked. *)
Lemma negative_rate_limit_blocks_every_call_witness :
  exists (reads : nat) (evs : list event),
    translate_with_retry Samples.translating_env Scenarios.negative_rate
      (py "Hello") 3 Samples.fresh_world
    = (Ok exhausted, with_limiter Samples.fresh_world reads [], evs)
    /\ call_names evs = [].
Proof.
  apply (negative_rate_limit_blocks_every_call Samples.translating_env
           Scenarios.negative_rate (-1) (py "Hello") 3 Samples.fresh_world).
  - reflexivity.
  - lia.
  - reflexivity.
Defined.
End EngineFacts.

(** ** More on the rate limiter (core/rate_limiter.py) *)

Module WindowFacts.
Import Effects RateLimiter LimiterSpec PyStrFacts LimiterFacts.


Lemma filter_narrower {A : Type} (p q : A -> bool) (l : list A) :
  (forall x, p x = true -> q x = true) ->
  filter p (filter q l) = filter p l.
Proof.
  intros H. induction l as [|x l IH]; [reflexivity|]. cbn [filter].
  destruct (q x) eqn:Eq; cbn [filter].
  - now rewrite IH.
  - destruct (p x) eqn:Ep; [|exact IH]. rewrite (H x Ep) in Eq. discriminate.
Qed.

Lemma in_window_later (now now' t : Q) :
  (now <= now')%Q -> in_window now' t = true -> in_window now t = true.
Proof.
  unfold in_window. rewrite !Qle_bool_iff. intros. lra.
Qed.

Lemma evict_twice_is_window (now now' : Q) (ts : list Q) :
  chronological ts -> (now <= now')%Q ->
  evict now' (evict now ts) = filter (in_window now') ts.
Proof.
  intros Hc Hle.
  rewrite (evict_is_window now' _ (chronological_evict now ts Hc)).
  rewrite (evict_is_window now ts Hc).
  apply filter_narrower. intros t. now apply in_window_later.
Qed.

Lemma len_evict (now : Q) (ts : list Q) : len (evict now ts) <= len ts.
Proof.
  destruct (evict_drops_stale_prefix now ts) as [dropped [E _]].
  rewrite E at 2. unfold len. rewrite length_app. lia.
Qed.

Lemma len_snoc {A : Type} (l : list A) (x : A) : len (l ++ [x]) = len l + 1.
Proof. unfold len. rewrite length_app. cbn [List.length]. lia. Qed.

(** X13.  For a limiter of at least one request per minute whose queue came
    from a clock that does not run backwards, [acquire] returns normally
    and leaves in the queue exactly the earlier timestamps that lie within
    60 seconds of the reading it records, followed by that reading: the
    last clock reading it took.  The queue stays in chronological order. *)
Theorem acquire_records_trailing_window :
  forall (env : Env) (rpm : Z) (w : World),
    1 <= rpm ->
    chronological (timestamps w) ->
    not_after (reading env w 0) (timestamps w) ->
    (reading env w 0 <= reading env w 1)%Q ->
    exists latest : Q,
      (latest = reading env w 0 \/ latest = reading env w 1)
      /\ fst (fst (acquire env rpm w)) = Ok tt
      /\ timestamps (snd (fst (acquire env rpm w)))
         = filter (in_window latest) (timestamps w) ++ [latest]
      /\ chronological (timestamps (snd (fst (acquire env rpm w)))).
Proof.
  intros env rpm w Hrpm Hc Hn Hclock.
  destruct (acquire_keeps_chronological env rpm w Hc Hn Hclock) as [Hc' _].
  cbv zeta in Hc'. revert Hc'. rewrite acquire_eval. cbv zeta.
  destruct (rpm <=? len (evict (reading env w 0) (timestamps w))) eqn:Ecap.
  - destruct (evict (reading env w 0) (timestamps w)) as [|t0 rest] eqn:Elive.
    { apply Z.leb_le in Ecap. cbn in Ecap. lia. }
    destruct (Qgt_bool (60 - (reading env w 0 - t0)) 0).
    + intros Hc'. exists (reading env w 1). cbn [fst snd timestamps with_limiter].
      split; [now right|]. split; [reflexivity|]. split; [|exact Hc'].
      now rewrite <- Elive, evict_twice_is_window.
    + intros Hc'. exists (reading env w 0). cbn [fst snd timestamps with_limiter].
      split; [now left|]. split; [reflexivity|]. split; [|exact Hc'].
      now rewrite <- Elive, evict_is_window.
  - intros Hc'. exists (reading env w 0). cbn [fst snd timestamps with_limiter].
    split; [now left|]. split; [reflexivity|]. split; [|exact Hc'].
    now rewrite evict_is_window.
Qed.

(** At 2 requests per minute, a request at 100 s after requests at 0 s and
    70 s: only 70 s is still in the window. *)
Lemma acquire_records_trailing_window_witness :
  exists latest : Q,
    (latest = 100%Q \/ latest = 100%Q)
    /\ fst (fst (acquire Samples.late_env 2
                   (with_limiter Samples.fresh_world 0 [0%Q; 70%Q])))
       = Ok tt
    /\ timestamps
         (snd (fst (acquire Samples.late_env 2
                      (with_limiter Samples.fresh_world 0 [0%Q; 70%Q]))))
       = filter (in_window latest) [0%Q; 70%Q] ++ [latest]
    /\ chronological
         (timestamps
            (snd (fst (acquire Samples.late_env 2
                         (with_limiter Samples.fresh_world 0 [0%Q; 70%Q]))))).
Proof.
  apply (acquire_records_trailing_window Samples.late_env 2
           (with_limiter Samples.fresh_world 0 [0%Q; 70%Q])).
  - lia.
  - repeat constructor; discriminate.
  - repeat constructor; discriminate.
  - discriminate.
Defined.

(** X14.  The queue never outgrows the rate: if it holds at most [rpm]
    timestamps before [acquire], it holds at most [rpm] after, provided
    that, when the window is full, the request comes less than 60 seconds
    after the oldest timestamp of the window and the clock read after the
    sleep is more than 60 seconds past that timestamp. *)
Theorem acquire_keeps_queue_within_rate :
  forall (env : Env) (rpm : Z) (w : World),
    1 <= rpm ->
    len (timestamps w) <= rpm ->
    (forall t0 rest,
        evict (reading env w 0) (timestamps w) = t0 :: rest ->
        rpm <= len (t0 :: rest) ->
        (reading env w 0 < t0 + 60)%Q /\ (t0 + 60 < reading env w 1)%Q) ->
    len (timestamps (snd (fst (acquire env rpm w)))) <= rpm.
Proof.
  intros env rpm w Hrpm Hlen Hfull. rewrite acquire_eval. cbv zeta.
  pose proof (len_evict (reading env w 0) (timestamps w)) as Hlive.
  destruct (rpm <=? len (evict (reading env w 0) (timestamps w))) eqn:Ecap.
  - apply Z.leb_le in Ecap.
    destruct (evict (reading env w 0) (timestamps w)) as [|t0 rest] eqn:Elive.
    { cbn in Ecap. lia. }
    destruct (Hfull t0 rest eq_refl Ecap) as [Hbefore Hafter].
    replace (Qgt_bool (60 - (reading env w 0 - t0)) 0) with true
      by (symmetry; apply Qgt_bool_true; lra).
    cbn [fst snd timestamps with_limiter evict].
    replace (Qgt_bool (reading env w 1 - t0) 60) with true
      by (symmetry; apply Qgt_bool_true; lra).
    rewrite len_snoc. pose proof (len_evict (reading env w 1) rest).
    unfold len in *. cbn [List.length] in *. lia.
  - apply Z.leb_gt in Ecap. cbn [fst snd timestamps with_limiter].
    rewrite len_snoc. lia.
Qed.

(** At 1 request per minute, a request at 30 s after one at 0 s sleeps
    until 61 s: the queue then holds the new timestamp only. *)
Lemma acquire_keeps_queue_within_rate_witness :
  len (timestamps
         (snd (fst (acquire Scenarios.waiting_env 1
                      (with_limiter Samples.fresh_world 0 [0%Q])))))
  <= 1.
Proof.
  apply (acquire_keeps_queue_within_rate Scenarios.waiting_env 1
           (with_limiter Samples.fresh_world 0 [0%Q])).
  - lia.
  - vm_compute. discriminate.
  - intros t0 rest E _. vm_compute in E. injection E as <- <-.
    split; reflexivity.
Defined.

(** X15.  The edge of the window: a request that comes exactly 60 seconds
    after the oldest timestamp of the queue is admitted at once, without a
    sleep, and that timestamp stays in the queue (eviction asks for more
    than 60 seconds).  With a full window the queue then holds more than
    [rpm] timestamps. *)
Theorem acquire_admits_at_window_edge :
  forall (env : Env) (rpm : Z) (w : World) (t0 : Q) (rest : list Q),
    timestamps w = t0 :: rest ->
    (reading env w 0 - t0 == 60)%Q ->
    acquire env rpm w
    = (Ok tt, with_limiter w 1 (timestamps w ++ [reading env w 0]), [])
    /\ (rpm <= len (timestamps w) ->
        rpm < len (timestamps (snd (fst (acquire env rpm w))))).
Proof.
  intros env rpm w t0 rest Hts Hedge.
  assert (H : acquire env rpm w
              = (Ok tt,
                 with_limiter w 1 (timestamps w ++ [reading env w 0]), [])).
  { rewrite acquire_eval. cbv zeta. rewrite Hts. cbn [evict].
    replace (Qgt_bool (reading env w 0 - t0) 60) with false
      by (symmetry; apply Qgt_bool_false; lra).
    replace (Qgt_bool (60 - (reading env w 0 - t0)) 0) with false
      by (symmetry; apply Qgt_bool_false; lra).
    now destruct (rpm <=? len (t0 :: rest)). }
  split; [exact H|]. intros Hfull. rewrite H.
  cbn [fst snd timestamps with_limiter]. rewrite len_snoc. lia.
Qed.

(** At 1 request per minute, a request at 100 s after one at 40 s. *)
Lemma acquire_admits_at_window_edge_witness :
  acquire Samples.late_env 1 (with_limiter Samples.fresh_world 0 [40%Q])
  = (Ok tt, with_limiter Samples.fresh_world 1 [40%Q; 100%Q], [])
  /\ (1 <= len [40%Q] ->
      1 < len (timestamps
                 (snd (fst (acquire Samples.late_env 1
                              (with_limiter Samples.fresh_world 0 [40%Q])))))).
Proof.
  apply (acquire_admits_at_window_edge Samples.late_env 1
           (with_limiter Samples.fresh_world 0 [40%Q]) 40%Q []).
  - reflexivity.
  - reflexivity.
Defined.
End WindowFacts.

(** ** Saving and resuming (core/pipeline.py, checkpoints) *)

Module ResumeFacts.
Import Config Pandas Effects Pipeline CleaningSpec PyStrFacts EffectFacts
  CleaningFacts.


(** *** Decimal numerals *)

Lemma py_cons (a : ascii) (s : string) :
  py (String a s) = Z.of_N (N_of_ascii a) :: py s.
Proof. reflexivity. Qed.

Lemma digit_facts (c : char) :
  is_digit c = true ->
  is_space c = false /\ (c =? 0x5F) = false /\ (c =? 0x2E) = false.
Proof.
  unfold is_digit, in_range. rewrite andb_true_iff, !Z.leb_le. intros [H1 H2].
  repeat split; try (apply Z.eqb_neq; lia).
  destruct (is_space c) eqn:E; [|reflexivity].
  unfold is_space, in_range in E.
  repeat rewrite ?orb_true_iff, ?andb_true_iff, ?Z.leb_le, ?Z.eqb_eq in E.
  exfalso. lia.
Qed.

(** The characters of an unsigned numeral are decimal digits. *)
Lemma uint_digits (d : Decimal.uint) :
  forallb is_digit (py (NilEmpty.string_of_uint d)) = true.
Proof.
  induction d; cbn [NilEmpty.string_of_uint]; rewrite ?py_cons;
    cbn [forallb]; try rewrite IHd; reflexivity.
Qed.

Lemma parse_digits_acc (d : Decimal.uint) :
  forall p : positive,
    parse_digits (Z.pos p) false (py (NilEmpty.string_of_uint d))
    = Some (Z.pos (Pos.of_uint_acc d p)).
Proof.
  induction d; intros p; cbn [NilEmpty.string_of_uint Pos.of_uint_acc];
    rewrite ?py_cons; [reflexivity|..];
    cbn [parse_digits]; change (is_digit _) with true; cbv iota;
    rewrite <- IHd; f_equal; simpl (Z.of_N (N_of_ascii _)); lia.
Qed.

(** Reading a numeral back gives its value. *)
Lemma parse_digits_uint (d : Decimal.uint) :
  parse_digits 0 false (py (NilEmpty.string_of_uint d))
  = Some (Z.of_uint d).
Proof.
  unfold Z.of_uint.
  induction d; cbn [NilEmpty.string_of_uint Pos.of_uint];
    rewrite ?py_cons; [reflexivity|..];
    cbn [parse_digits]; change (is_digit _) with true; cbv iota;
    [exact IHd|..];
    match goal with
    | |- parse_digits ?a _ _ = _ =>
        let p := eval cbn in a in
        change a with p; rewrite parse_digits_acc; reflexivity
    end.
Qed.

Lemma visible_strip (s : pystr) :
  forallb (fun c => negb (is_space c)) s = true -> strip s = s.
Proof.
  intros H. apply strip_fixed.
  - destruct s as [|c r]; [reflexivity|]. cbn [forallb] in H.
    now apply andb_prop in H as [H _].
  - unfold ends_visible.
    assert (R : forallb (fun c => negb (is_space c)) (rev s) = true).
    { rewrite forallb_forall in *. intros c Hc. apply H. now apply in_rev. }
    destruct (rev s) as [|c r]; [reflexivity|]. cbn [forallb] in R.
    now apply andb_prop in R as [R _].
Qed.

Lemma digits_visible (ds : pystr) :
  forallb is_digit ds = true ->
  forallb (fun c => negb (is_space c)) ds = true.
Proof.
  rewrite !forallb_forall. intros H c Hc.
  destruct (digit_facts c (H c Hc)) as [E _]. now rewrite E.
Qed.

Lemma digit_cases (c : char) :
  is_digit c = true ->
  c = 48 \/ c = 49 \/ c = 50 \/ c = 51 \/ c = 52 \/ c = 53 \/ c = 54
  \/ c = 55 \/ c = 56 \/ c = 57.
Proof.
  unfold is_digit, in_range. rewrite andb_true_iff, !Z.leb_le. lia.
Qed.

Lemma parse_unsigned_digits (ds : pystr) :
  ds <> [] -> forallb is_digit ds = true ->
  parse_unsigned ds = parse_digits 0 false ds.
Proof.
  intros Hne Hd. destruct ds as [|c rest]; [congruence|].
  cbn [forallb] in Hd. apply andb_prop in Hd as [Hc _].
  cbn [parse_unsigned parse_digits]. now rewrite Hc.
Qed.

Lemma py_int_digits (ds : pystr) :
  ds <> [] -> forallb is_digit ds = true ->
  py_int ds = parse_digits 0 false ds.
Proof.
  intros Hne Hd. unfold py_int.
  rewrite (visible_strip _ (digits_visible _ Hd)).
  rewrite <- (parse_unsigned_digits _ Hne Hd).
  destruct ds as [|c rest]; [congruence|].
  cbn [forallb] in Hd. apply andb_prop in Hd as [Hc _].
  pose proof (digit_cases c Hc) as Hcases.
  repeat (destruct Hcases as [->|Hcases]); try subst c; reflexivity.
Qed.

Lemma py_int_minus_digits (ds : pystr) :
  ds <> [] -> forallb is_digit ds = true ->
  py_int (0x2D :: ds) = option_map Z.opp (parse_digits 0 false ds).
Proof.
  intros Hne Hd. unfold py_int. rewrite visible_strip.
  - now rewrite (parse_unsigned_digits _ Hne Hd).
  - cbn [forallb]. now rewrite (digits_visible _ Hd).
Qed.

Lemma positive_numeral (p : positive) :
  NilZero.string_of_uint (Pos.to_uint p)
  = NilEmpty.string_of_uint (Pos.to_uint p)
  /\ py (NilEmpty.string_of_uint (Pos.to_uint p)) <> [].
Proof.
  pose proof (DecimalPos.Unsigned.to_uint_nonnil p) as H.
  destruct (Pos.to_uint p); [congruence|..]; split;
    solve [reflexivity | cbn [NilEmpty.string_of_uint]; rewrite py_cons;
                         discriminate].
Qed.

(** [int(str(n)) == n] *)
Lemma py_int_str_of_int (n : Z) : py_int (str_of_int n) = Some n.
Proof.
  unfold str_of_int. destruct n as [|p|p]; [reflexivity|..];
    cbn [Z.to_int NilZero.string_of_int];
    destruct (positive_numeral p) as [E Hne]; rewrite ?py_cons, E.
  - rewrite py_int_digits by (auto using uint_digits).
    rewrite parse_digits_uint. unfold Z.of_uint.
    now rewrite DecimalPos.Unsigned.of_to.
  - change (Z.of_N (N_of_ascii "-")) with 0x2D.
    rewrite py_int_minus_digits by (auto using uint_digits).
    rewrite parse_digits_uint. unfold Z.of_uint.
    now rewrite DecimalPos.Unsigned.of_to.
Qed.

(** A character of the decimal form of an integer. *)
Lemma str_of_int_chars (n : Z) :
  forallb (fun c => is_digit c || (c =? 0x2D)) (str_of_int n) = true.
Proof.
  assert (D : forall d,
             forallb (fun c => is_digit c || (c =? 0x2D))
               (py (NilEmpty.string_of_uint d)) = true).
  { intros d. pose proof (uint_digits d) as H.
    rewrite forallb_forall in *. intros c Hc. now rewrite (H c Hc). }
  unfold str_of_int. destruct n as [|p|p]; [reflexivity|..];
    cbn [Z.to_int NilZero.string_of_int];
    destruct (positive_numeral p) as [E _]; rewrite ?py_cons, E.
  - apply D.
  - cbn [forallb]. now rewrite D.
Qed.

(** *** File names *)

Lemma rfind_dot_none (s : pystr) :
  forallb (fun c => negb (c =? 0x2E)) s = true ->
  forall i, rfind_dot s i = -1.
Proof.
  induction s as [|c r IH]; intros H i; [reflexivity|].
  cbn [forallb] in H. apply andb_prop in H as [Hc Hr].
  cbn [rfind_dot]. rewrite (IH Hr). cbn.
  apply negb_true_iff in Hc. now rewrite Hc.
Qed.

Lemma rfind_dot_last (a b : pystr) :
  forallb (fun c => negb (c =? 0x2E)) b = true ->
  forall i, 0 <= i -> rfind_dot (a ++ 0x2E :: b) i = i + len a.
Proof.
  intros Hb. induction a as [|c r IH]; intros i Hi.
  - cbn [app rfind_dot]. rewrite (rfind_dot_none _ Hb). cbn. unfold len.
    cbn. lia.
  - cbn [app rfind_dot]. rewrite IH by lia.
    pose proof (len_nonneg r).
    replace (0 <=? i + 1 + len r) with true by (symmetry; apply Z.leb_le; lia).
    unfold len. cbn [List.length]. lia.
Qed.

Lemma stem_of_suffixed (a ext : pystr) :
  a <> [] -> ext <> [] ->
  forallb (fun c => negb (c =? 0x2E)) ext = true ->
  stem (a ++ 0x2E :: ext) = a.
Proof.
  intros Ha He Hext. unfold stem. rewrite rfind_dot_last by (auto; lia).
  assert (La : 0 < len a).
  { destruct a; [congruence|]. unfold len. cbn [List.length]. lia. }
  assert (Le : 0 < len ext).
  { destruct ext; [congruence|]. unfold len. cbn [List.length]. lia. }
  replace (len (a ++ 0x2E :: ext)) with (len a + 1 + len ext)
    by (unfold len; rewrite length_app; cbn [List.length]; lia).
  replace ((0 <? 0 + len a) && (0 + len a <? len a + 1 + len ext - 1))
    with true
    by (symmetry; apply andb_true_iff; split; apply Z.ltb_lt; lia).
  unfold len. rewrite Z.add_0_l, Nat2Z.id.
  rewrite firstn_app, firstn_all, Nat.sub_diag. cbn [firstn].
  apply app_nil_r.
Qed.

Lemma split_on_none (sep : char) (s : pystr) :
  forallb (fun c => negb (c =? sep)) s = true -> split_on sep s = [s].
Proof.
  induction s as [|c r IH]; intros H; [reflexivity|].
  cbn [forallb] in H. apply andb_prop in H as [Hc Hr].
  apply negb_true_iff in Hc. cbn [split_on]. now rewrite Hc, (IH Hr).
Qed.

Lemma split_on_first (sep : char) (a b : pystr) :
  forallb (fun c => negb (c =? sep)) a = true ->
  split_on sep (a ++ sep :: b) = a :: split_on sep b.
Proof.
  induction a as [|c r IH]; intros H.
  - cbn [app split_on]. now rewrite Z.eqb_refl.
  - cbn [forallb] in H. apply andb_prop in H as [Hc Hr].
    apply negb_true_iff in Hc. cbn [app split_on]. now rewrite Hc, (IH Hr).
Qed.

(** The name of a checkpoint file whose stem ends in the numeral [body]. *)
Lemma resume_index_of_numeral (body : pystr) (n : Z) (w : World) :
  body <> [] ->
  forallb (fun c => is_digit c || (c =? 0x2D)) body = true ->
  py_int body = Some n ->
  resume_index (py "checkpoint_" ++ body ++ py ".csv") w = (Ok n, w, []).
Proof.
  intros Hne Hchars Hint. unfold resume_index.
  assert (Hplain : forall c, In c body ->
                     (c =? 0x2E) = false /\ (c =? 0x5F) = false).
  { intros c Hc. rewrite forallb_forall in Hchars.
    specialize (Hchars c Hc). apply orb_prop in Hchars as [D|E].
    - destruct (digit_facts c D) as (_ & A & B). now split.
    - apply Z.eqb_eq in E. now subst c. }
  change (py "checkpoint_" ++ body ++ py ".csv")
    with ((py "checkpoint_" ++ body) ++ 0x2E :: py "csv").
  rewrite stem_of_suffixed; [| |discriminate|reflexivity].
  2:{ intros E. apply app_eq_nil in E as [E _]. discriminate. }
  change (py "checkpoint_" ++ body) with (py "checkpoint" ++ 0x5F :: body).
  rewrite split_on_first by reflexivity.
  rewrite split_on_none.
  - cbn [nth_error of_option]. rewrite bind_ret, Hint. reflexivity.
  - apply forallb_forall. intros c Hc. destruct (Hplain c Hc) as [_ E].
    now rewrite E.
Qed.

Lemma checkpoint_name_matches (body : pystr) :
  is_checkpoint_name (py "checkpoint_" ++ body ++ py ".csv") = true.
Proof.
  unfold is_checkpoint_name. rewrite !andb_true_iff.
  split; [split|].
  - apply startswith_iff. now exists (body ++ py ".csv").
  - unfold endswith. apply startswith_iff.
    exists (rev (py "checkpoint_" ++ body)).
    now rewrite app_assoc, rev_app_distr.
  - apply Z.leb_le. unfold len. rewrite !length_app. lia.
Qed.

(** X16.  The name [_save_checkpoint] gives the checkpoint of row count
    [n] is found again by the pattern [checkpoint_*.csv], and
    [_load_checkpoint] reads the same row count back from it:
    [int(stem.split('_')[1])] of "checkpoint_<n>.csv" is [n], for every
    integer [n]. *)
Theorem checkpoint_row_count_round_trip :
  forall (n : Z) (w : World),
    let checkpoint_file := py "checkpoint_" ++ str_of_int n ++ py ".csv" in
    is_checkpoint_name checkpoint_file = true
    /\ resume_index checkpoint_file w = (Ok n, w, []).
Proof.
  intros n w. cbv zeta. split; [apply checkpoint_name_matches|].
  apply resume_index_of_numeral.
  - intros E. pose proof (py_int_str_of_int n) as H. rewrite E in H.
    discriminate.
  - apply str_of_int_chars.
  - apply py_int_str_of_int.
Qed.

(** *** The order of file names *)

Lemma str_ltb_irrefl (a : pystr) : str_ltb a a = false.
Proof.
  induction a as [|x a IH]; [reflexivity|]. cbn [str_ltb].
  now rewrite Z.ltb_irrefl, Z.eqb_refl, IH.
Qed.

Lemma str_ltb_trichotomy (a b : pystr) :
  str_ltb a b = true \/ a = b \/ str_ltb b a = true.
Proof.
  revert b. induction a as [|x a IH]; intros [|y b]; cbn [str_ltb]; auto.
  destruct (Z.lt_trichotomy x y) as [H|[->|H]].
  - left. apply orb_true_iff. left. now apply Z.ltb_lt.
  - rewrite Z.ltb_irrefl, Z.eqb_refl. cbn [orb andb].
    destruct (IH b) as [L|[->|G]]; auto.
  - right. right. apply orb_true_iff. left. now apply Z.ltb_lt.
Qed.

Lemma str_ltb_trans (a b c : pystr) :
  str_ltb a b = true -> str_ltb b c = true -> str_ltb a c = true.
Proof.
  revert b c. induction a as [|x a IH]; intros [|y b] [|z c];
    cbn [str_ltb]; try discriminate; auto.
  rewrite !orb_true_iff, !andb_true_iff, !Z.ltb_lt, !Z.eqb_eq.
  intros [H1|[-> H1]] [H2|[-> H2]].
  - left. lia.
  - now left.
  - now left.
  - right. split; [reflexivity|]. now apply IH with b.
Qed.

(** [a <= b] on names. *)
Local Abbreviation name_le := (fun a b : pystr => str_ltb b a = false).

Lemma name_le_trans (a b c : pystr) :
  name_le a b -> name_le b c -> name_le a c.
Proof.
  cbv beta. intros H1 H2. destruct (str_ltb c a) eqn:E; [|reflexivity].
  destruct (str_ltb_trichotomy a b) as [L|[->|G]].
  - rewrite (str_ltb_trans _ _ _ E L) in H2. discriminate.
  - congruence.
  - congruence.
Qed.

Lemma name_le_antisym (a b : pystr) : name_le a b -> name_le b a -> a = b.
Proof.
  cbv beta. intros H1 H2.
  destruct (str_ltb_trichotomy a b) as [L|[->|G]]; congruence.
Qed.

Lemma insert_path_in (x : pystr) (l : list pystr) (z : pystr) :
  In z (insert_path x l) <-> z = x \/ In z l.
Proof.
  induction l as [|y l IH]; cbn [insert_path].
  - cbn. intuition.
  - destruct (str_ltb x y); cbn [In]; [intuition|]. rewrite IH. intuition.
Qed.

Lemma insert_path_sorted (x : pystr) (l : list pystr) :
  StronglySorted name_le l -> StronglySorted name_le (insert_path x l).
Proof.
  induction 1 as [|y l Hs IH Hall]; cbn [insert_path].
  - repeat constructor.
  - destruct (str_ltb x y) eqn:E.
    + assert (Hxy : name_le x y).
      { cbv beta. destruct (str_ltb y x) eqn:G; [|reflexivity].
        pose proof (str_ltb_trans _ _ _ E G) as T.
        rewrite str_ltb_irrefl in T. discriminate. }
      constructor; [now constructor|]. constructor; [exact Hxy|].
      rewrite Forall_forall in *. intros z Hz.
      apply name_le_trans with y; auto.
    + constructor; [exact IH|]. apply Forall_forall. intros z Hz.
      apply insert_path_in in Hz as [->|Hz]; [exact E|].
      rewrite Forall_forall in Hall. now apply Hall.
Qed.

Lemma sorted_paths_spec (names : list pystr) :
  StronglySorted name_le (sorted_paths names)
  /\ forall z, In z (sorted_paths names) <-> In z names.
Proof.
  unfold sorted_paths.
  assert (H : forall acc,
             StronglySorted name_le acc ->
             StronglySorted name_le
               (fold_left (fun acc x => insert_path x acc) names acc)
             /\ forall z,
                  In z (fold_left (fun acc x => insert_path x acc) names acc)
                  <-> In z acc \/ In z names).
  { induction names as [|x names IH]; intros acc Hacc; cbn [fold_left].
    - split; [exact Hacc|]. cbn. intuition.
    - destruct (IH _ (insert_path_sorted x acc Hacc)) as [S I].
      split; [exact S|]. intros z. rewrite I, insert_path_in. cbn [In].
      intuition. }
  destruct (H [] (SSorted_nil _)) as [S I]. split; [exact S|].
  intros z. rewrite I. cbn. intuition.
Qed.

Lemma last_is_greatest (l : list pystr) :
  StronglySorted name_le l -> l <> [] ->
  In (last l []) l /\ Forall (fun z => name_le z (last l [])) l.
Proof.
  induction 1 as [|y l Hs IH Hall]; intros Hne; [congruence|].
  destruct l as [|y' l'].
  - cbn. split; [now left|]. constructor; [apply str_ltb_irrefl|constructor].
  - destruct IH as [Hin Hle]; [discriminate|].
    change (last (y :: y' :: l') []) with (last (y' :: l') []).
    split; [now right|]. constructor; [|exact Hle].
    rewrite Forall_forall in Hall. now apply Hall.
Qed.

(** What [_load_checkpoint] picks when no name is given. *)
Lemma chosen_checkpoint_spec (w : World) :
  (chosen_checkpoint w None = None
   <-> forall f, In f (map fst (files w)) -> is_checkpoint_name f = false)
  /\ (forall name,
        chosen_checkpoint w None = Some name ->
        In name (map fst (files w))
        /\ is_checkpoint_name name = true
        /\ forall other,
             In other (map fst (files w)) ->
             is_checkpoint_name other = true ->
             str_ltb name other = false).
Proof.
  unfold chosen_checkpoint, glob_checkpoints.
  set (names := filter is_checkpoint_name (map fst (files w))).
  destruct (sorted_paths_spec names) as [S I].
  destruct (sorted_paths names) as [|x l] eqn:E.
  - split.
    + split; [|reflexivity]. intros _ f Hf.
      destruct (is_checkpoint_name f) eqn:Ef; [|reflexivity].
      destruct (proj2 (I f)). apply filter_In. now split.
    + discriminate.
  - split.
    + split; [discriminate|]. intros H.
      assert (Hx : In x names) by (apply I; now left).
      apply filter_In in Hx as [Hx Ex]. rewrite (H x Hx) in Ex.
      discriminate.
    + intros name [= <-].
      destruct (last_is_greatest (x :: l) S) as [Hin Hle]; [discriminate|].
      apply I, filter_In in Hin as [Hin Hname].
      repeat split; auto. intros other Ho Eo.
      rewrite Forall_forall in Hle. apply Hle, I, filter_In. now split.
Qed.

(** X17.  Without a checkpoint name, [_load_checkpoint] picks among the
    files matching [checkpoint_*.csv] the one whose name is the greatest in
    the character-by-character order of strings (so "checkpoint_50.csv"
    wins over "checkpoint_100.csv"); it picks none exactly when no file
    matches. *)
Theorem chosen_checkpoint_is_greatest_name :
  forall w : World,
    (chosen_checkpoint w None = None
     <-> forall f, In f (map fst (files w)) -> is_checkpoint_name f = false)
    /\ (forall name,
          chosen_checkpoint w None = Some name ->
          In name (map fst (files w))
          /\ is_checkpoint_name name = true
          /\ (forall other,
                In other (map fst (files w)) ->
                is_checkpoint_name other = true ->
                str_ltb name other = false)
          /\ (forall other,
                In other (map fst (files w)) ->
                is_checkpoint_name other = true ->
                str_ltb other name = false -> other = name)).
Proof.
  intros w. destruct (chosen_checkpoint_spec w) as [N S].
  split; [exact N|]. intros name H.
  destruct (S name H) as (Hin & Hname & Hmax).
  repeat split; auto. intros other Ho Eo Hge.
  apply name_le_antisym; cbv beta; auto.
Qed.


(** *** Saving, then loading *)

Lemma lookup_write_file (fs : list (pystr * table)) (name : pystr)
    (t : table) :
  lookup_file (write_file fs name t) name = Some t.
Proof.
  induction fs as [|[n old] fs IH]; cbn [write_file lookup_file].
  - now rewrite str_eqb_refl.
  - destruct (str_eqb name n) eqn:E; cbn [lookup_file]; now rewrite E.
Qed.

Lemma write_file_names (fs : list (pystr * table)) (name : pystr)
    (t : table) (z : pystr) :
  In z (map fst (write_file fs name t)) <-> z = name \/ In z (map fst fs).
Proof.
  induction fs as [|[n old] fs IH]; cbn [write_file map fst In].
  - intuition.
  - destruct (str_eqb name n) eqn:E; cbn [map fst In].
    + apply str_eqb_eq in E. subst n. intuition.
    + rewrite IH. intuition.
Qed.

Lemma save_checkpoint_files (env : Env) (df : DataFrame) (current_idx : Z)
    (w : World) :
  _save_checkpoint env df current_idx w
  = (Ok tt,
     DatasetSpec.with_store w (stats w)
       (write_file (files w)
          (py "checkpoint_" ++ str_of_int current_idx ++ py ".csv")
          (to_csv env (iloc_prefix df current_idx))),
     []).
Proof. reflexivity. Qed.


(** X18.  Saving and loading compose: right after [_save_checkpoint] wrote
    the checkpoint of row count [n] for a frame that has columns,
    [_load_checkpoint] without a name reads that very file and returns [n],
    provided no other checkpoint file has a greater name. *)
Theorem saved_checkpoint_is_resumed :
  forall (env : Env) (df result_df : DataFrame) (n : Z) (w : World),
    columns df <> [] ->
    (forall other,
        In other (map fst (files w)) ->
        is_checkpoint_name other = true ->
        str_ltb (py "checkpoint_" ++ str_of_int n ++ py ".csv") other
        = false) ->
    let w' := snd (fst (_save_checkpoint env df n w)) in
    exists checkpoint_df,
      read_csv (to_csv env (iloc_prefix df n)) = Some checkpoint_df
      /\ _load_checkpoint result_df None w'
         = (Ok (n, copy_checkpoint_columns checkpoint_df result_df), w', []).
Proof.
  intros env df result_df n w Hcols Hmax. rewrite save_checkpoint_files.
  cbn [fst snd].
  set (name := py "checkpoint_" ++ str_of_int n ++ py ".csv") in *.
  set (content := to_csv env (iloc_prefix df n)).
  set (w' := DatasetSpec.with_store w (stats w)
               (write_file (files w) name content)).
  assert (Hname : is_checkpoint_name name = true)
    by apply checkpoint_name_matches.
  assert (Hin : In name (map fst (files w')))
    by (apply write_file_names; now left).
  destruct (chosen_checkpoint_spec w') as [Hnone Hsome].
  destruct (chosen_checkpoint w' None) as [x|] eqn:Ex.
  2:{ rewrite (proj1 Hnone eq_refl name Hin) in Hname. discriminate. }
  destruct (Hsome x eq_refl) as (Hx & Ex' & Hgreatest).
  assert (x = name) as ->.
  { apply name_le_antisym; cbv beta.
    - apply write_file_names in Hx as [->|Hx];
        [apply str_ltb_irrefl | now apply Hmax].
    - now apply Hgreatest. }
  assert (Hread : exists checkpoint_df, read_csv content = Some checkpoint_df).
  { unfold content, to_csv, iloc_prefix. cbn [columns].
    destruct (columns df) as [|[c vals] cols]; [congruence|].
    cbn [map read_csv]. eexists. reflexivity. }
  destruct Hread as [checkpoint_df Hread]. exists checkpoint_df.
  split; [exact Hread|].
  assert (Hidx : resume_index name w' = (Ok n, w', [])).
  { apply resume_index_of_numeral.
    - intros E. pose proof (py_int_str_of_int n) as H. rewrite E in H.
      discriminate.
    - apply str_of_int_chars.
    - apply py_int_str_of_int. }
  unfold _load_checkpoint, bind, get_world. rewrite Ex.
  replace (lookup_file (files w') name) with (Some content)
    by (symmetry; apply lookup_write_file).
  rewrite Hread. cbn [of_option ret]. rewrite Hidx. reflexivity.
Qed.

(** Two rows saved into an empty directory are resumed from row 2. *)
Lemma saved_checkpoint_is_resumed_witness :
  let w' :=
    snd (fst (_save_checkpoint Samples.translating_env (Samples.hello_df 2) 2
                Samples.fresh_world)) in
  exists checkpoint_df,
    read_csv (to_csv Samples.translating_env
                (iloc_prefix (Samples.hello_df 2) 2))
    = Some checkpoint_df
    /\ _load_checkpoint (Samples.hello_df 2) None w'
       = (Ok (2, copy_checkpoint_columns checkpoint_df (Samples.hello_df 2)),
          w', []).
Proof.
  apply (saved_checkpoint_is_resumed Samples.translating_env
           (Samples.hello_df 2) (Samples.hello_df 2) 2 Samples.fresh_world).
  - discriminate.
  - intros other [].
Defined.

(** *** Resuming with nothing to resume from *)

Lemma load_checkpoint_nothing (result_df : DataFrame)
    (checkpoint_name : option pystr) (w : World) :
  ResumeSpec.nothing_to_resume w checkpoint_name = true ->
  _load_checkpoint result_df checkpoint_name w = (Ok (0, result_df), w, []).
Proof.
  unfold ResumeSpec.nothing_to_resume, _load_checkpoint, bind, get_world.
  destruct (chosen_checkpoint w checkpoint_name) as [f|]; [|reflexivity].
  destruct (lookup_file (files w) f); [discriminate | reflexivity].
Qed.

Lemma nothing_to_resume_stats (w : World) (s : Stats)
    (checkpoint_name : option pystr) :
  ResumeSpec.nothing_to_resume (ResumeSpec.with_stats w s) checkpoint_name
  = ResumeSpec.nothing_to_resume w checkpoint_name.
Proof. reflexivity. Qed.

(** X19.  Asking to resume when there is nothing to resume from (no
    checkpoint file matches, or the named file does not exist) is the same
    as a run from the start: [_load_checkpoint] returns 0 and leaves the
    result frame as it is, and [translate_dataset] with
    [resume_from_checkpoint=True] behaves exactly as without it. *)
Theorem resume_without_checkpoint_is_fresh_run :
  forall (env : Env) (self : TranslationPipeline) (df result_df : DataFrame)
         (checkpoint_name : option pystr) (w : World),
    ResumeSpec.nothing_to_resume w checkpoint_name = true ->
    _load_checkpoint result_df checkpoint_name w = (Ok (0, result_df), w, [])
    /\ translate_dataset env self df true checkpoint_name w
       = translate_dataset env self df false None w.
Proof.
  intros env self df result_df checkpoint_name w H.
  split; [now apply load_checkpoint_nothing|].
  unfold translate_dataset.
  pose proof (DatasetFacts.update_stats_eval (set_total (len (index df))) w
                (stats w) (files w)) as Hs.
  rewrite DatasetFacts.with_store_same in Hs.
  rewrite !(bind_ok (update_stats (set_total (len (index df)))) _ w _ _ _ Hs).
  cbv beta.
  erewrite bind_ok
    by (apply load_checkpoint_nothing;
        exact (eq_trans (nothing_to_resume_stats w _ checkpoint_name) H)).
  rewrite bind_ret. cbn [fst snd app].
  now destruct (rows_loop env self df (range 0 (len (index df)))
                  (init_result self df)
                  (DatasetSpec.with_store w
                     (set_total (len (index df)) (stats w)) (files w)))
    as [[r w2] evs].
Qed.

(** Resuming in an empty directory. *)
Lemma resume_without_checkpoint_is_fresh_run_witness :
  _load_checkpoint (Samples.hello_df 2) None Samples.fresh_world
  = (Ok (0, Samples.hello_df 2), Samples.fresh_world, [])
  /\ translate_dataset Samples.translating_env Samples.nvidia_only
       (Samples.hello_df 2) true None Samples.fresh_world
     = translate_dataset Samples.translating_env Samples.nvidia_only
         (Samples.hello_df 2) false None Samples.fresh_world.
Proof.
  apply (resume_without_checkpoint_is_fresh_run Samples.translating_env
           Samples.nvidia_only (Samples.hello_df 2) (Samples.hello_df 2) None
           Samples.fresh_world).
  reflexivity.
Defined.

(** *** File names that give no row count *)



End ResumeFacts.

(** ** What a run leaves behind (core/pipeline.py, translate_dataset) *)

Module RunFacts.
Import Config Pandas Effects Pipeline RetrySpec DatasetSpec RunSpec
  PyStrFacts EffectFacts RetryFacts CheckpointFacts DatasetFacts EngineFacts
  ResumeFacts.


Lemma update_stats_any (g : Stats -> Stats) (w : World) :
  update_stats g w = (Ok tt, with_store w (g (stats w)) (files w), []).
Proof. reflexivity. Qed.

Lemma count_cell (g : Stats -> Stats) (df : DataFrame) (w : World) :
  bind (update_stats g) (fun _ => ret df) w
  = (Ok df, with_store w (g (stats w)) (files w), []).
Proof. reflexivity. Qed.

Lemma cells_run_app (a b : list (Z * pystr)) (x y z : DataFrame * Stats) :
  cells_run a x y -> cells_run b y z -> cells_run (a ++ b) x z.
Proof.
  induction 1 as [x|idx col rest x y' y Hstep Hrest IH]; intros Hb;
    [exact Hb|].
  cbn [app]. apply run_cell with y'; auto.
Qed.

Section Run.
Variable env : Env.
Variable self : TranslationPipeline.

(** What the retry engine hands to the orchestrator. *)
Lemma engine_contract (text : pystr) (w : World) :
  exists res w' evs,
    translate_with_retry env self text MAX_RETRIES w = (Ok res, w', evs)
    /\ stats w' = stats w /\ files w' = files w
    /\ (res = exhausted
        \/ exists tr api_name,
             res = (Some (Postprocessing.postprocess_translation tr),
                    api_name, None)
             /\ truthy (Postprocessing.postprocess_translation tr) = true
             /\ (api_name = py "nvidia" \/ api_name = py "fanar")).
Proof.
  unfold translate_with_retry.
  destruct (apis_loop_contract env self
              (Preprocessing.preprocess_for_translation (unicode env) text
                 (normalize_provider_terms self))
              text MAX_RETRIES w)
    as (res & w' & evs & H & Hs & Hf & Hres).
  exists res, w', evs. repeat (split; [assumption|]).
  destruct Hres as [->|(tr & api_name & -> & _ & Ht & Hn)]; [now left|].
  right. now exists tr, api_name.
Qed.

(** When no answer is ever accepted the engine reports exhaustion. *)
Lemma engine_all_fail (text : pystr) (w : World) :
  providers_always_fail env -> limiter_configured self ->
  fst (fst (translate_with_retry env self text MAX_RETRIES w)) = Ok exhausted.
Proof.
  intros Hfail Hlim. unfold translate_with_retry.
  set (processed_text :=
         Preprocessing.preprocess_for_translation (unicode env) text
           (normalize_provider_terms self)).
  generalize (apis self) as todo. intros todo. revert w.
  induction todo as [|[api_name api_func] rest IH]; intros w; [reflexivity|].
  cbn [apis_loop].
  destruct (attempts_loop_all_fail env self api_name api_func processed_text
              text MAX_RETRIES Hlim
              (fun k => Hfail api_func k processed_text text REQUEST_TIMEOUT)
              (range 0 MAX_RETRIES) w)
    as (w1 & evs & Hloop & _).
  erewrite bind_ok by exact Hloop. cbn [fst]. apply IH.
Qed.

(** The columns of one row, cell by cell. *)
Lemma columns_loop_cells (row : list (pystr * cell)) (idx : Z)
    (cols : list pystr) :
  forall result_df w,
    (forall col, In col cols -> row_get row col <> None) ->
    exists out w' evs,
      columns_loop env self row idx cols result_df w = (Ok out, w', evs)
      /\ files w' = files w
      /\ cells_run (map (fun col => (idx, col)) cols)
           (result_df, stats w) (out, stats w')
      /\ (providers_always_fail env -> limiter_configured self ->
          out = result_df
          /\ stats w'
             = all_failed (map (fun col => (idx, col)) cols) (stats w)).
Proof.
  induction cols as [|col rest IH]; intros result_df w Hrow.
  - exists result_df, w, []. repeat split. constructor.
  - cbn [columns_loop map].
    destruct (row_get row col) as [value|] eqn:Hget;
      [|now destruct (Hrow col (or_introl eq_refl))].
    cbn [of_option]. rewrite bind_ret.
    destruct (engine_contract (str_of_cell value) w)
      as (res & w1 & ev1 & Hstep & Hs1 & Hf1 & Hres).
    erewrite bind_ok by exact Hstep.
    assert (Hrest : forall col', In col' rest -> row_get row col' <> None)
      by (intros col' Hc; apply Hrow; now right).
    destruct Hres as [->|(tr & api_name & -> & Ht & Hn)]; cbv beta iota.
    + unfold exhausted. cbv beta iota zeta. cbn [translation_truthy].
      erewrite bind_ok by apply count_cell.
      destruct (IH result_df
                  (with_store w1
                     (bump_failure idx col
                        (Some (py "All API attempts exhausted")) (stats w1))
                     (files w1)) Hrest)
        as (out & w' & evs & Hloop & Hf & Hrun & Hall).
      rewrite Hloop. cbn [fst snd]. exists out, w', (ev1 ++ [] ++ evs).
      cbn [stats with_store] in Hrun, Hall. rewrite Hs1 in Hrun, Hall.
      split; [reflexivity|]. split; [cbn in Hf; congruence|].
      split; [|exact Hall].
      apply run_cell with
        (result_df,
         bump_failure idx col (Some (py "All API attempts exhausted"))
           (stats w)); [constructor | exact Hrun].
    + cbv beta iota zeta. cbn [translation_truthy]. rewrite Ht.
      set (written :=
             at_set
               (at_set result_df idx (col ++ py "_ar")
                  (CStr (Postprocessing.postprocess_translation tr)))
               idx (col ++ py "_api") (CStr api_name)).
      erewrite bind_ok by apply count_cell.
      destruct (IH written
                  (with_store w1 (bump_success api_name (stats w1))
                     (files w1)) Hrest)
        as (out & w' & evs & Hloop & Hf & Hrun & _).
      rewrite Hloop. cbn [fst snd]. exists out, w', (ev1 ++ [] ++ evs).
      split; [reflexivity|]. split; [cbn in Hf; congruence|]. split.
      * apply run_cell with (written, bump_success api_name (stats w)).
        -- constructor; [|exact Hn]. intros E. rewrite E in Ht.
           discriminate.
        -- cbn [stats with_store] in Hrun. now rewrite Hs1 in Hrun.
      * intros Hfail Hlim.
        pose proof (engine_all_fail (str_of_cell value) w Hfail Hlim) as E.
        rewrite Hstep in E. discriminate.
Qed.

End Run.

Section Rows.
Variable env : Env.
Variable self : TranslationPipeline.
Variable df : DataFrame.
Hypothesis Hcols :
  forall col, In col (columns_to_translate self) -> has_column df col = true.

Lemma checkpoint_step_stats (result_df : DataFrame) (idx : Z) (w : World) :
  exists w',
    (if (idx + 1) mod CHECKPOINT_INTERVAL =? 0
     then _save_checkpoint env result_df (idx + 1)
     else ret tt) w = (Ok tt, w', [])
    /\ stats w' = stats w
    /\ forall name,
         In name (map fst (files w'))
         <-> In name (map fst (files w)) \/ saved_after [idx] name.
Proof.
  unfold saved_after.
  destruct ((idx + 1) mod CHECKPOINT_INTERVAL =? 0) eqn:E.
  - rewrite save_checkpoint_files. eexists. split; [reflexivity|].
    split; [reflexivity|]. intros name. cbn [files with_store].
    rewrite write_file_names. apply Z.eqb_eq in E. split.
    + intros [->|H]; [right | now left]. exists idx. repeat split; auto.
      now left.
    + intros [H|(i & [<-|[]] & _ & ->)]; [now right | now left].
  - exists w. split; [reflexivity|]. split; [reflexivity|]. intros name.
    apply Z.eqb_neq in E. split; [now left|].
    intros [H|(i & [<-|[]] & H & _)]; [exact H | contradiction].
Qed.

(** The rows, cell by cell. *)
Lemma rows_loop_cells (rows : list Z) :
  forall result_df w,
    (forall idx, In idx rows -> 0 <= idx < len (index df)) ->
    exists out w' evs,
      rows_loop env self df rows result_df w = (Ok out, w', evs)
      /\ cells_run (cells rows (columns_to_translate self))
           (result_df, stats w) (out, stats w')
      /\ (providers_always_fail env -> limiter_configured self ->
          out = result_df
          /\ stats w'
             = all_failed (cells rows (columns_to_translate self)) (stats w))
      /\ (forall name,
            In name (map fst (files w'))
            <-> In name (map fst (files w)) \/ saved_after rows name).
Proof.
  induction rows as [|idx rest IH]; intros result_df w Hrows.
  - exists result_df, w, []. split; [reflexivity|].
    split; [constructor|]. split; [now split|]. intros name.
    split; [now left|]. now intros [H|(i & [] & _)].
  - cbn [rows_loop cells flat_map].
    assert (Hidx : 0 <= idx < len (index df)) by (apply Hrows; now left).
    assert (Hrow : exists row,
               iloc (row_text env df) df idx = Some row
               /\ forall col, In col (columns_to_translate self) ->
                              row_get row col <> None).
    { rewrite iloc_in_range by exact Hidx.
      eexists. split; [reflexivity|]. intros col Hc.
      destruct (iloc_row_get env df idx col Hidx (Hcols col Hc))
        as (row' & Hr & Hget).
      rewrite iloc_in_range in Hr by exact Hidx.
      injection Hr as <-. congruence. }
    destruct Hrow as (row & Hiloc & Hrow). rewrite Hiloc.
    cbn [of_option]. rewrite bind_ret.
    destruct (columns_loop_cells env self row idx (columns_to_translate self)
                result_df w Hrow)
      as (mid & w1 & ev1 & Hcolumns & Hf1 & Hrun1 & Hall1).
    erewrite bind_ok by exact Hcolumns.
    destruct (checkpoint_step_stats mid idx w1) as (w2 & Hsave & Hs2 & Hf2).
    erewrite bind_ok by exact Hsave.
    destruct (IH mid w2) as (out & w' & evs & Hloop & Hrun2 & Hall2 & Hf3).
    { intros i Hi. apply Hrows. now right. }
    rewrite Hloop. cbn [fst snd].
    eexists _, _, _. split; [reflexivity|]. split; [|split].
    + apply cells_run_app with (mid, stats w1); [exact Hrun1|].
      now rewrite <- Hs2.
    + intros Hfail Hlim. destruct (Hall1 Hfail Hlim) as [-> E1].
      destruct (Hall2 Hfail Hlim) as [-> E2]. split; [reflexivity|].
      unfold all_failed, cells in *. cbn [flat_map].
      rewrite fold_left_app, E2, Hs2, E1. reflexivity.
    + intros name. rewrite Hf3, Hf2, Hf1. unfold saved_after. split.
      * intros [[H|(i & [<-|[]] & Hi & ->)]|(i & Hin & Hi & ->)];
          [now left | right; exists idx | right; exists i];
          repeat split; auto; now [> left | right].
      * intros [H|(i & [<-|Hin] & Hi & ->)];
          [now left; left | left; right; exists idx | right; exists i];
          repeat split; auto. now left.
Qed.

(** A run from the start, cell by cell. *)
Lemma translate_dataset_cells (w : World) :
  exists out w' evs,
    translate_dataset env self df false None w = (Ok out, w', evs)
    /\ cells_run
         (cells (range 0 (len (index df))) (columns_to_translate self))
         (init_result self df, set_total (len (index df)) (stats w))
         (out, stats w')
    /\ (providers_always_fail env -> limiter_configured self ->
        out = init_result self df
        /\ stats w'
           = all_failed
               (cells (range 0 (len (index df))) (columns_to_translate self))
               (set_total (len (index df)) (stats w)))
    /\ (forall name,
          In name (map fst (files w'))
          <-> In name (map fst (files w))
              \/ saved_after (range 0 (len (index df))) name).
Proof.
  unfold translate_dataset.
  erewrite bind_ok by apply update_stats_any. cbv beta.
  rewrite bind_ret.
  destruct (rows_loop_cells (range 0 (len (index df))) (init_result self df)
              (with_store w (set_total (len (index df)) (stats w)) (files w)))
    as (out & w' & evs & Hloop & Hrun & Hall & Hfiles).
  { intros idx Hidx. apply range_bounds in Hidx. lia. }
  rewrite Hloop. cbn [fst snd app]. now exists out, w', evs.
Qed.

End Rows.

(** *** The statistics *)

Lemma len_cells (rows : list Z) (cols : list pystr) :
  len (cells rows cols) = len rows * len cols.
Proof.
  unfold cells, len. induction rows as [|idx rest IH]; [reflexivity|].
  cbn [flat_map List.length]. rewrite length_app, length_map. lia.
Qed.

Lemma cells_run_stats (cs : list (Z * pystr)) (x z : DataFrame * Stats) :
  cells_run cs x z ->
  let s := snd x in
  let s' := snd z in
  total s' = total s
  /\ successful s <= successful s'
  /\ failed s <= failed s'
  /\ (successful s' - successful s) + (failed s' - failed s) = len cs
  /\ (nvidia_used s' - nvidia_used s) + (fanar_used s' - fanar_used s)
     = successful s' - successful s
  /\ exists new,
       failed_rows s' = failed_rows s ++ new
       /\ len new = failed s' - failed s
       /\ Forall (fun r => snd r = Some (py "All API attempts exhausted")) new.
Proof.
  induction 1 as [x|idx col rest x y z Hstep Hrest IH]; cbv zeta.
  - change (len (@nil (Z * pystr))) with 0.
    split; [reflexivity|]. split; [lia|]. split; [lia|]. split; [lia|].
    split; [lia|]. exists []. rewrite app_nil_r.
    split; [reflexivity|]. split; [unfold len; cbn; lia | constructor].
  - cbv zeta in IH. destruct IH as (T & S & F & C & U & new & R & L & A).
    replace (len ((idx, col) :: rest)) with (len rest + 1)
      by (unfold len; cbn [List.length]; lia).
    destruct Hstep as [df s|df s t api_used Ht Hn]; cbn [snd] in *.
    + cbn [bump_failure total successful failed nvidia_used fanar_used
           failed_rows] in *.
      repeat split; try lia.
      exists ((idx, col, Some (py "All API attempts exhausted")) :: new).
      rewrite R, <- app_assoc. split; [reflexivity|].
      split; [unfold len in *; cbn [List.length]; lia|].
      constructor; [reflexivity | exact A].
    + assert (B : nvidia_used (bump_success api_used s)
                  + fanar_used (bump_success api_used s)
                  = nvidia_used s + fanar_used s + 1)
        by (destruct Hn as [-> | ->]; cbn; lia).
      cbn [bump_success total successful failed failed_rows] in *.
      repeat split; try lia. now exists new.
Qed.

(** X21.  The statistics of a run account for every cell.  After
    [translate_dataset] (run from the start over a dataset that has the
    requested columns) ['total'] is the number of rows; the counters
    ['successful'] and ['failed'] have grown, together, by the number of
    rows times the number of requested columns; ['nvidia_used'] and
    ['fanar_used'] have grown together by the number of successes; and
    ['failed_rows'] has one new entry per failure, each with the error "All
    API attempts exhausted".  The counters are not reset: they grow from
    what an earlier run on the same pipeline left. *)
Theorem statistics_account_for_every_cell :
  forall (env : Env) (self : TranslationPipeline) (df : DataFrame) (w : World),
    (forall col, In col (columns_to_translate self) ->
                 has_column df col = true) ->
    exists out w' evs,
      translate_dataset env self df false None w = (Ok out, w', evs)
      /\ total (stats w') = len (index df)
      /\ successful (stats w) <= successful (stats w')
      /\ failed (stats w) <= failed (stats w')
      /\ (successful (stats w') - successful (stats w))
         + (failed (stats w') - failed (stats w))
         = len (index df) * len (columns_to_translate self)
      /\ (nvidia_used (stats w') - nvidia_used (stats w))
         + (fanar_used (stats w') - fanar_used (stats w))
         = successful (stats w') - successful (stats w)
      /\ exists new,
           failed_rows (stats w') = failed_rows (stats w) ++ new
           /\ len new = failed (stats w') - failed (stats w)
           /\ Forall
                (fun r => snd r = Some (py "All API attempts exhausted")) new.
Proof.
  intros env self df w Hcols.
  destruct (translate_dataset_cells env self df Hcols w)
    as (out & w' & evs & Hrun & Hcells & _ & _).
  exists out, w', evs. split; [exact Hrun|].
  destruct (cells_run_stats _ _ _ Hcells) as (T & S & F & C & U & R).
  cbn [snd set_total total successful failed nvidia_used fanar_used
       failed_rows] in *.
  rewrite len_cells in C.
  replace (len (range 0 (len (index df)))) with (len (index df)) in C.
  - repeat split; assumption.
  - symmetry. unfold len at 1. rewrite range_length, Z.sub_0_r, Z2Nat.id;
      [reflexivity | apply len_nonneg].
Qed.

(** Two rows of "Hello" translated by NVIDIA: two successes. *)
Lemma statistics_account_for_every_cell_witness :
  exists out w' evs,
    translate_dataset Samples.translating_env Samples.nvidia_only
      (Samples.hello_df 2) false None Samples.fresh_world
    = (Ok out, w', evs)
    /\ total (stats w') = 2
    /\ successful (stats w') = 2
    /\ failed (stats w') = 0.
Proof.
  destruct (statistics_account_for_every_cell Samples.translating_env
              Samples.nvidia_only (Samples.hello_df 2) Samples.fresh_world)
    as (out & w' & evs & Hrun & T & _).
  - intros col [<-|[]]. reflexivity.
  - exists out, w', evs. split; [exact Hrun|].
    assert (E : w' = snd (fst (translate_dataset Samples.translating_env
                                  Samples.nvidia_only (Samples.hello_df 2)
                                  false None Samples.fresh_world)))
      by (rewrite Hrun; reflexivity).
    rewrite E. vm_compute. repeat split; reflexivity.
Defined.

(** *** The result frame *)

Lemma get_column_map (f : pystr * list cell -> list cell)
    (cols : list (pystr * list cell)) (col c : pystr) :
  str_eqb col c = false ->
  get_column
    (map (fun nv => if str_eqb col (fst nv) then (fst nv, f nv) else nv) cols)
    c
  = get_column cols c.
Proof.
  intros Hc. induction cols as [|[name vals] cols IH]; [reflexivity|].
  cbn [map fst get_column]. destruct (str_eqb c name) eqn:E.
  - apply str_eqb_eq in E. subst name. rewrite Hc. cbn [get_column].
    now rewrite str_eqb_refl.
  - destruct (str_eqb col name); cbn [get_column]; now rewrite E.
Qed.

(** Writing a cell of an existing row and column keeps the rows, the
    column names and the other columns. *)
Lemma at_set_existing (df : DataFrame) (label : Z) (col : pystr)
    (value : cell) :
  has_column df col = true ->
  existsb (Z.eqb label) (index df) = true ->
  index (at_set df label col value) = index df
  /\ column_names (at_set df label col value) = column_names df
  /\ forall c, str_eqb col c = false ->
       get_column (columns (at_set df label col value)) c
       = get_column (columns df) c.
Proof.
  intros Hcol Hlabel. unfold at_set. rewrite Hcol, Hlabel.
  cbn [index columns]. split; [reflexivity|]. split.
  - unfold column_names. cbn [columns]. rewrite map_map.
    apply map_ext. intros [name vals]. cbn [fst].
    now destruct (str_eqb col name).
  - intros c Hc.
    apply (get_column_map
             (fun nv =>
                map (fun lv => if fst lv =? label then value else snd lv)
                  (combine (index df) (snd nv)))).
    exact Hc.
Qed.

Lemma init_result_fold (cols : list pystr) :
  forall d,
    let r :=
      fold_left
        (fun result_df col =>
           set_scalar (set_scalar result_df (col ++ py "_ar") CNone)
             (col ++ py "_api") CNone)
        cols d in
    index r = index d
    /\ forall c,
         get_column (columns r) c
         = if existsb (str_eqb c) (output_columns cols)
           then Some (repeat CNone (List.length (index d)))
           else get_column (columns d) c.
Proof.
  induction cols as [|col rest IH]; intros d; cbv zeta.
  - now split.
  - cbn [fold_left].
    destruct (IH (set_scalar (set_scalar d (col ++ py "_ar") CNone)
                    (col ++ py "_api") CNone)) as [I G].
    cbv zeta in I, G. split; [exact I|]. intros c. rewrite G.
    cbn [index set_scalar columns output_columns flat_map app existsb].
    rewrite !get_put_column. fold (output_columns rest).
    destruct (existsb (str_eqb c) (output_columns rest)),
      (str_eqb c (col ++ py "_api")), (str_eqb c (col ++ py "_ar"));
      reflexivity.
Qed.

Lemma existsb_str_eqb (c : pystr) (l : list pystr) :
  existsb (str_eqb c) l = true <-> In c l.
Proof.
  rewrite existsb_exists. split.
  - intros [x [Hx E]]. apply str_eqb_eq in E. now subst.
  - intros H. exists c. split; [exact H | apply str_eqb_refl].
Qed.

Lemma output_columns_in (cols : list pystr) (c : pystr) :
  In c (output_columns cols)
  <-> exists col, In col cols /\ (c = col ++ py "_ar" \/ c = col ++ py "_api").
Proof.
  unfold output_columns. rewrite in_flat_map. split.
  - intros [col [Hc [E|[E|[]]]]]; exists col; auto.
  - intros [col [Hc [E|E]]]; exists col; cbn; auto.
Qed.

Lemma cells_in (rows : list Z) (cols : list pystr) (idx : Z) (col : pystr) :
  In (idx, col) (cells rows cols) <-> In idx rows /\ In col cols.
Proof.
  unfold cells. rewrite in_flat_map. split.
  - intros [i [Hi H]]. apply in_map_iff in H as [c [[= <- <-] Hc]]. now split.
  - intros [Hi Hc]. exists idx. split; [exact Hi|].
    apply in_map_iff. now exists col.
Qed.

(** Cells written where the row and the two columns exist leave the shape
    of the frame and its other columns alone. *)
Lemma cells_run_frame (cs : list (Z * pystr)) (x z : DataFrame * Stats) :
  cells_run cs x z ->
  (forall idx col, In (idx, col) cs ->
     existsb (Z.eqb idx) (index (fst x)) = true
     /\ has_column (fst x) (col ++ py "_ar") = true
     /\ has_column (fst x) (col ++ py "_api") = true) ->
  index (fst z) = index (fst x)
  /\ column_names (fst z) = column_names (fst x)
  /\ forall c,
       (forall idx col, In (idx, col) cs ->
          c <> col ++ py "_ar" /\ c <> col ++ py "_api") ->
       get_column (columns (fst z)) c = get_column (columns (fst x)) c.
Proof.
  induction 1 as [x|idx col rest x y z Hstep Hrest IH]; intros Hok.
  - repeat split.
  - assert (Hy : index (fst y) = index (fst x)
                 /\ column_names (fst y) = column_names (fst x)
                 /\ forall c, c <> col ++ py "_ar" -> c <> col ++ py "_api" ->
                      get_column (columns (fst y)) c
                      = get_column (columns (fst x)) c).
    { destruct (Hok idx col (or_introl eq_refl)) as (Hi & Ha & Hp).
      destruct Hstep as [df s|df s t api_used Ht Hn]; cbn [fst] in *;
        [repeat split|].
      destruct (at_set_existing df idx (col ++ py "_ar") (CStr t) Ha Hi)
        as (I1 & N1 & G1).
      destruct (at_set_existing
                  (at_set df idx (col ++ py "_ar") (CStr t)) idx
                  (col ++ py "_api") (CStr api_used)) as (I2 & N2 & G2).
      { now rewrite (has_column_names _ df) by exact N1. }
      { now rewrite I1. }
      split; [congruence|]. split; [congruence|]. intros c C1 C2.
      rewrite G2, G1; [reflexivity|..]; apply not_true_is_false;
        intros E; apply str_eqb_eq in E; congruence. }
    destruct Hy as (Iy & Ny & Gy). destruct IH as (Iz & Nz & Gz).
    { intros i c Hin. destruct (Hok i c (or_intror Hin)) as (Hi & Ha & Hp).
      rewrite Iy, !(has_column_names (fst y) (fst x)) by exact Ny.
      now repeat split. }
    split; [congruence|]. split; [congruence|]. intros c Hc.
    rewrite Gz by (intros i c' Hin; apply (Hc i c'); now right).
    destruct (Hc idx col (or_introl eq_refl)). now apply Gy.
Qed.

Lemma init_result_facts (self : TranslationPipeline) (df : DataFrame) :
  index (init_result self df)
  = (if preserve_all_columns self then index df else [])
  /\ forall c,
       get_column (columns (init_result self df)) c
       = if existsb (str_eqb c) (output_columns (columns_to_translate self))
         then Some (repeat CNone
                      (List.length
                         (if preserve_all_columns self then index df else [])))
         else if preserve_all_columns self then get_column (columns df) c
              else None.
Proof.
  unfold init_result.
  destruct (init_result_fold (columns_to_translate self)
              (if preserve_all_columns self then df else empty_frame))
    as [I G].
  cbv zeta in I, G. rewrite I. split.
  - now destruct (preserve_all_columns self).
  - intros c. rewrite G. now destruct (preserve_all_columns self).
Qed.

(** X22.  A run from the start that keeps the input columns, over a
    dataset whose rows carry the default labels 0, 1, ..., returns a frame
    with the same rows as the input, whatever fails: no row is added or
    dropped.  Both output columns of every requested column are present,
    and every other column holds what it held in the input. *)
Theorem output_keeps_rows_and_input_columns :
  forall (env : Env) (self : TranslationPipeline) (df : DataFrame) (w : World),
    preserve_all_columns self = true ->
    index df = range 0 (len (index df)) ->
    (forall col, In col (columns_to_translate self) ->
                 has_column df col = true) ->
    exists out w' evs,
      translate_dataset env self df false None w = (Ok out, w', evs)
      /\ index out = index df
      /\ (forall c, In c (output_columns (columns_to_translate self)) ->
                    has_column out c = true)
      /\ (forall c, ~ In c (output_columns (columns_to_translate self)) ->
                    get_column (columns out) c = get_column (columns df) c).
Proof.
  intros env self df w Hkeep Hindex Hcols.
  destruct (translate_dataset_cells env self df Hcols w)
    as (out & w' & evs & Hrun & Hcells & _ & _).
  exists out, w', evs. split; [exact Hrun|].
  destruct (init_result_facts self df) as [Ii Gi]. rewrite Hkeep in Ii, Gi.
  assert (Hout : forall c,
             In c (output_columns (columns_to_translate self)) ->
             has_column (init_result self df) c = true).
  { intros c Hc. apply has_column_get. rewrite Gi.
    now rewrite (proj2 (existsb_str_eqb _ _) Hc). }
  destruct (cells_run_frame _ _ _ Hcells) as (I & N & G); cbn [fst] in *.
  { intros idx col Hin. apply cells_in in Hin as [Hi Hc]. repeat split.
    - rewrite Ii, Hindex. apply existsb_exists. exists idx.
      split; [exact Hi | apply Z.eqb_refl].
    - apply Hout, output_columns_in. exists col. auto.
    - apply Hout, output_columns_in. exists col. auto. }
  split; [congruence|]. split.
  - intros c Hc. rewrite (has_column_names out (init_result self df)) by exact N.
    now apply Hout.
  - intros c Hc. rewrite G.
    + rewrite Gi.
      destruct (existsb (str_eqb c)
                  (output_columns (columns_to_translate self))) eqn:E;
        [|reflexivity].
      apply existsb_str_eqb in E. contradiction.
    + intros idx col Hin. apply cells_in in Hin as [_ Hin].
      split; intros ->; apply Hc, output_columns_in; exists col; auto.
Qed.

(** Two rows of "Hello", no provider answering: still two rows, and the
    column "text" as it was. *)
Lemma output_keeps_rows_and_input_columns_witness :
  exists out w' evs,
    translate_dataset Samples.failing_env Samples.nvidia_only
      (Samples.hello_df 2) false None Samples.fresh_world
    = (Ok out, w', evs)
    /\ index out = [0; 1]
    /\ get_column (columns out) (py "text")
       = Some [CStr (py "Hello"); CStr (py "Hello")].
Proof.
  destruct (output_keeps_rows_and_input_columns Samples.failing_env
              Samples.nvidia_only (Samples.hello_df 2) Samples.fresh_world)
    as (out & w' & evs & Hrun & Hi & _ & Hg).
  - reflexivity.
  - reflexivity.
  - intros col [<-|[]]. reflexivity.
  - exists out, w', evs. split; [exact Hrun|]. split; [exact Hi|].
    apply Hg. cbn. intros [E|[E|[]]]; discriminate.
Defined.

(** *** A run in which nothing is translated *)

Lemma all_failed_counts (cs : list (Z * pystr)) :
  forall s,
    successful (all_failed cs s) = successful s
    /\ failed (all_failed cs s) = failed s + len cs
    /\ total (all_failed cs s) = total s.
Proof.
  unfold all_failed.
  induction cs as [|c cs IH]; intros s; cbn [fold_left].
  - unfold len. cbn. repeat split; lia.
  - destruct (IH (bump_failure (fst c) (snd c)
                    (Some (py "All API attempts exhausted")) s))
      as (S & F & T).
    rewrite S, F, T. cbn [bump_failure successful failed total].
    unfold len. cbn [List.length]. repeat split; lia.
Qed.

(** X23.  When no provider answer is ever accepted, a run from the start
    still completes and translates nothing: every cell is counted as
    failed, none as successful, and the frame returned is the initial one,
    whose output columns hold None.  With [preserve_all_columns] it has the
    rows of the input; without it, it has no rows at all, since a row comes
    into being only when a translation is written to it. *)
Theorem failed_run_leaves_initial_frame :
  forall (env : Env) (self : TranslationPipeline) (df : DataFrame) (w : World),
    providers_always_fail env ->
    limiter_configured self ->
    (forall col, In col (columns_to_translate self) ->
                 has_column df col = true) ->
    exists w' evs,
      translate_dataset env self df false None w
      = (Ok (init_result self df), w', evs)
      /\ successful (stats w') = successful (stats w)
      /\ failed (stats w')
         = failed (stats w)
           + len (index df) * len (columns_to_translate self)
      /\ index (init_result self df)
         = (if preserve_all_columns self then index df else [])
      /\ forall c,
           In c (output_columns (columns_to_translate self)) ->
           get_column (columns (init_result self df)) c
           = Some (repeat CNone
                     (List.length (index (init_result self df)))).
Proof.
  intros env self df w Hfail Hlim Hcols.
  destruct (translate_dataset_cells env self df Hcols w)
    as (out & w' & evs & Hrun & _ & Hall & _).
  destruct (Hall Hfail Hlim) as [-> Hs].
  exists w', evs. split; [exact Hrun|].
  destruct (all_failed_counts
              (cells (range 0 (len (index df))) (columns_to_translate self))
              (set_total (len (index df)) (stats w))) as (S & F & _).
  rewrite <- Hs in S, F. cbn [set_total successful failed] in S, F.
  rewrite len_cells in F.
  replace (len (range 0 (len (index df)))) with (len (index df)) in F
    by (symmetry; unfold len at 1;
        rewrite range_length, Z.sub_0_r, Z2Nat.id;
        [reflexivity | apply len_nonneg]).
  destruct (init_result_facts self df) as [Ii Gi].
  repeat split; auto. intros c Hc. rewrite Gi, Ii.
  now rewrite (proj2 (existsb_str_eqb _ _) Hc).
Qed.

(** Two rows, no provider answering, only the translation columns kept:
    two failures, and an output without rows. *)
Lemma failed_run_leaves_initial_frame_witness :
  exists w' evs,
    translate_dataset Samples.failing_env Scenarios.translations_only
      (Samples.hello_df 2) false None Samples.fresh_world
    = (Ok (init_result Scenarios.translations_only (Samples.hello_df 2)),
       w', evs)
    /\ failed (stats w') = 2
    /\ index (init_result Scenarios.translations_only (Samples.hello_df 2))
       = [].
Proof.
  destruct (failed_run_leaves_initial_frame Samples.failing_env
              Scenarios.translations_only (Samples.hello_df 2)
              Samples.fresh_world)
    as (w' & evs & Hrun & _ & F & I & _).
  - intros p k processed_text text timeout. now destruct p.
  - exact I.
  - intros col [<-|[]]. reflexivity.
  - exists w', evs. split; [exact Hrun|]. split; [exact F | exact I].
Defined.

(** *** The checkpoints of a run *)

Lemma range_in (a b x : Z) : In x (range a b) <-> a <= x < b.
Proof.
  split; [apply range_bounds|]. intros H. unfold range.
  apply in_map_iff. exists (Z.to_nat (x - a)). split; [lia|].
  apply in_seq. lia.
Qed.

Lemma saved_after_range (n : Z) (name : pystr) :
  saved_after (range 0 n) name
  <-> exists k,
        1 <= k /\ CHECKPOINT_INTERVAL * k <= n
        /\ name = checkpoint_file (CHECKPOINT_INTERVAL * k).
Proof.
  unfold saved_after, CHECKPOINT_INTERVAL. split.
  - intros (idx & Hin & Hmod & ->). apply range_in in Hin.
    exists ((idx + 1) / 50).
    assert (E : idx + 1 = 50 * ((idx + 1) / 50))
      by (pose proof (Z.div_mod (idx + 1) 50); lia).
    rewrite <- E. repeat split; lia.
  - intros (k & Hk & Hn & ->). exists (50 * k - 1).
    replace (50 * k - 1 + 1) with (50 * k) by lia.
    split; [apply range_in; lia|]. split; [|reflexivity].
    rewrite Z.mul_comm. apply Z.mod_mul. lia.
Qed.

(** X24.  A run from the start writes a checkpoint after every
    [CHECKPOINT_INTERVAL]-th row and at no other time: the files of the
    checkpoint directory after the run are those that were there before
    and "checkpoint_50.csv", "checkpoint_100.csv", ... up to the number of
    rows.  In particular a run over fewer than 50 rows writes none, and
    the rows after the last multiple of 50 are in no checkpoint. *)
Theorem checkpoints_every_interval :
  forall (env : Env) (self : TranslationPipeline) (df : DataFrame) (w : World),
    (forall col, In col (columns_to_translate self) ->
                 has_column df col = true) ->
    let w' := snd (fst (translate_dataset env self df false None w)) in
    (forall name,
        In name (map fst (files w'))
        <-> In name (map fst (files w))
            \/ exists k,
                 1 <= k /\ CHECKPOINT_INTERVAL * k <= len (index df)
                 /\ name = checkpoint_file (CHECKPOINT_INTERVAL * k))
    /\ (len (index df) < CHECKPOINT_INTERVAL ->
        forall name,
          In name (map fst (files w')) <-> In name (map fst (files w))).
Proof.
  intros env self df w Hcols. cbv zeta.
  destruct (translate_dataset_cells env self df Hcols w)
    as (out & w' & evs & Hrun & _ & _ & Hfiles).
  rewrite Hrun. cbn [fst snd].
  assert (H : forall name,
             In name (map fst (files w'))
             <-> In name (map fst (files w))
                 \/ exists k,
                      1 <= k /\ CHECKPOINT_INTERVAL * k <= len (index df)
                      /\ name = checkpoint_file (CHECKPOINT_INTERVAL * k)).
  { intros name. now rewrite Hfiles, saved_after_range. }
  split; [exact H|]. intros Hsmall name. rewrite H. split; [|now left].
  intros [Hin|(k & Hk & Hn & _)]; [exact Hin|].
  unfold CHECKPOINT_INTERVAL in *. lia.
Qed.

(** A run over 100 rows into an empty directory leaves the checkpoints of
    rows 50 and 100. *)
Example checkpoints_of_hundred_rows :
  map fst
    (files
       (snd (fst (translate_dataset Samples.translating_env
                    Samples.nvidia_only (Samples.hello_df 100) false None
                    Samples.fresh_world))))
  = [py "checkpoint_50.csv"; py "checkpoint_100.csv"].
Proof. vm_compute. reflexivity. Qed.

(** A run over two rows writes no checkpoint. *)
Lemma checkpoints_every_interval_witness :
  len (index (Samples.hello_df 2)) < CHECKPOINT_INTERVAL
  /\ forall name,
       In name
         (map fst
            (files
               (snd (fst (translate_dataset Samples.translating_env
                            Samples.nvidia_only (Samples.hello_df 2) false
                            None Samples.fresh_world)))))
       <-> In name (map fst (files Samples.fresh_world)).
Proof.
  assert (Hcols : forall col,
             In col (columns_to_translate Samples.nvidia_only) ->
             has_column (Samples.hello_df 2) col = true)
    by (intros col [<-|[]]; reflexivity).
  split; [reflexivity|].
  apply (proj2 (checkpoints_every_interval Samples.translating_env
                  Samples.nvidia_only (Samples.hello_df 2)
                  Samples.fresh_world Hcols)).
  reflexivity.
Defined.

End RunFacts.

(** ** Custom term mappings (core/preprocessing.py) *)

Module MappingFacts.
Import Config Preprocessing TermSpec PyStrFacts PreprocessingFacts.


(** Setting a key of a dictionary. *)
Lemma dict_set_spec (k' v' : pystr) (d : list (pystr * pystr)) :
  NoDup (map fst d) ->
  NoDup (map fst (dict_set k' v' d))
  /\ (forall k, In k (map fst (dict_set k' v' d)) <-> k = k' \/ In k (map fst d))
  /\ forall k v,
       In (k, v) (dict_set k' v' d)
       <-> (k = k' /\ v = v') \/ (k <> k' /\ In (k, v) d).
Proof.
  induction d as [|[k0 v0] d IH]; intros Hd; cbn [dict_set].
  - split; [repeat constructor; intros []|]. split.
    + intros k. cbn. intuition.
    + intros k v. cbn. split.
      * intros [[= <- <-]|[]]. now left.
      * intros [[-> ->]|[_ []]]. now left.
  - cbn [map fst] in Hd. apply NoDup_cons_iff in Hd as [Hk0 Hd].
    destruct (str_eqb k' k0) eqn:E.
    + apply str_eqb_eq in E. subst k0. split; [|split].
      * cbn [map fst]. now constructor.
      * intros k. cbn [map fst In]. intuition.
      * intros k v. cbn [In]. split.
        -- intros [[= <- <-]|H]; [now left|]. right. split; [|now right].
           intros ->. apply Hk0. now apply (in_map fst) in H.
        -- intros [[-> ->]|[Hne [[= -> _]|H]]];
             [now left | congruence | now right].
    + destruct (IH Hd) as (N & K & I).
      assert (Hne : k' <> k0)
        by (intros ->; rewrite str_eqb_refl in E; discriminate).
      split; [|split].
      * cbn [map fst]. constructor; [|exact N]. rewrite K.
        intros [->|H]; [congruence | contradiction].
      * intros k. cbn [map fst In]. rewrite K. intuition.
      * intros k v. cbn [In]. rewrite I. split.
        -- intros [[= <- <-]|[H|[H1 H2]]]; [right|now left|right];
             (split; [congruence|]); [now left | now right].
        -- intros [H|[H1 [[= <- <-]|H2]]]; [right; now left | now left |].
           right. right. now split.
Qed.

(** Updating a dictionary with another one. *)
Lemma dict_update_spec (custom : list (pystr * pystr)) :
  forall d,
    NoDup (map fst d) ->
    NoDup (map fst custom) ->
    NoDup (map fst (dict_update d custom))
    /\ forall k v,
         In (k, v) (dict_update d custom)
         <-> In (k, v) custom \/ (In (k, v) d /\ ~ In k (map fst custom)).
Proof.
  unfold dict_update.
  induction custom as [|[k1 v1] rest IH]; intros d Hd Hc; cbn [fold_left].
  - split; [exact Hd|]. intros k v. cbn. intuition.
  - cbn [map fst] in Hc. apply NoDup_cons_iff in Hc as [Hk1 Hc].
    destruct (dict_set_spec k1 v1 d Hd) as (N & K & I).
    destruct (IH (dict_set k1 v1 d) N Hc) as (N' & I').
    split; [exact N'|]. intros k v. cbn [fst snd]. rewrite I', I.
    cbn [map fst In]. split.
    + intros [H|[[[-> ->]|[Hne H]] Hn]]; [left; now right | left; now left |].
      right. split; [exact H|]. intros [E|E]; [congruence | contradiction].
    + intros [[[= <- <-]|H]|[H Hn]].
      * right. split; [left; now split | exact Hk1].
      * now left.
      * right. split; [|tauto]. right. split; [|exact H].
        intros ->. apply Hn. now left.
Qed.

Lemma provider_terms_keys_distinct : NoDup (map fst PROVIDER_TERMS).
Proof.
  unfold PROVIDER_TERMS. cbn [map fst].
  repeat (constructor;
          [cbn [In]; intros H;
           repeat (destruct H as [H|H]; [discriminate H|]); exact H|]).
  constructor.
Qed.

(** X25.  Custom mappings override the defaults term by term: with a
    custom dictionary that is not empty, the terms [normalize_provider_terms]
    rewrites are the custom entries together with the default entries whose
    term has no custom entry, each term once.  An empty custom dictionary,
    like none, leaves the defaults. *)
Theorem custom_mappings_override_defaults :
  forall custom : list (pystr * pystr),
    NoDup (map fst custom) ->
    NoDup (map fst (sorted_terms (Some custom)))
    /\ (forall k v,
          In (k, v) (sorted_terms (Some custom))
          <-> In (k, v) custom
              \/ (In (k, v) PROVIDER_TERMS /\ ~ In k (map fst custom)))
    /\ sorted_terms (Some []) = sorted_terms None.
Proof.
  intros custom Hc. split; [|split; [|reflexivity]].
  - unfold sorted_terms.
    assert (P : Permutation
                  (sorted_by_len_desc
                     match custom with
                     | [] => PROVIDER_TERMS
                     | kv :: more => dict_update PROVIDER_TERMS (kv :: more)
                     end)
                  (dict_update PROVIDER_TERMS custom)).
    { destruct custom; apply sorted_by_len_desc_spec. }
    apply (Permutation_NoDup (Permutation_sym (Permutation_map fst P))).
    apply dict_update_spec; [apply provider_terms_keys_distinct | exact Hc].
  - intros k v.
    destruct (dict_update_spec custom PROVIDER_TERMS
                provider_terms_keys_distinct Hc) as [_ I].
    rewrite <- I. unfold sorted_terms.
    destruct custom as [|kv more].
    + split; intros H;
        [apply (Permutation_in _ (proj2 (sorted_by_len_desc_spec _))) in H
        |apply (Permutation_in _
                  (Permutation_sym (proj2 (sorted_by_len_desc_spec _))))];
        exact H.
    + split; intros H;
        [apply (Permutation_in _ (proj2 (sorted_by_len_desc_spec _))) in H
        |apply (Permutation_in _
                  (Permutation_sym (proj2 (sorted_by_len_desc_spec _))))];
        exact H.
Qed.

(** A custom replacement for "ChatGPT" takes the place of the default
    one. *)
Lemma custom_mappings_override_defaults_witness :
  In (py "ChatGPT", py "the bot")
    (sorted_terms (Some [(py "ChatGPT", py "the bot")]))
  /\ In (py "OpenAI", py "the AI provider")
       (sorted_terms (Some [(py "ChatGPT", py "the bot")]))
  /\ normalize_provider_terms ascii_unicode (py "ChatGPT by OpenAI")
       (Some [(py "ChatGPT", py "the bot")])
     = py "the bot by the AI provider".
Proof.
  destruct (custom_mappings_override_defaults [(py "ChatGPT", py "the bot")])
    as (_ & I & _).
  - repeat constructor. intros [].
  - split; [apply I; left; now left|].
    split; [|vm_compute; reflexivity].
    apply I. right. split.
    + cbn. tauto.
    + cbn. intros [E|[]]. discriminate E.
Defined.
End MappingFacts.

(** ** Missing columns, file formats and the columns kept
       (core/dataset_loader.py, translate.py) *)

Module LoaderFacts.
Import Config Pandas Effects Pipeline DatasetLoader Translate RetrySpec
  DatasetSpec RunSpec ResumeSpec PyStrFacts EffectFacts RetryFacts
  CheckpointFacts DatasetFacts RunFacts.


(** *** A requested column that the dataset does not have *)

Lemma row_get_missing (cols : list (pystr * list cell))
    (f : pystr * list cell -> cell) (col : pystr) :
  existsb (str_eqb col) (map fst cols) = false ->
  row_get (map (fun nv => (fst nv, f nv)) cols) col = None.
Proof.
  induction cols as [|[name vals] cols IH];
    cbn [map fst existsb row_get]; [reflexivity|].
  intros H. apply orb_false_iff in H as [E H]. rewrite E. now apply IH.
Qed.

Lemma range_from_zero (n : Z) :
  0 < n -> exists rest, range 0 n = 0 :: rest.
Proof.
  intros Hn. unfold range. destruct (Z.to_nat (n - 0)) as [|m] eqn:E; [lia|].
  cbn [seq map]. now eexists.
Qed.

Lemma split_at_first_missing (df : DataFrame) (cols : list pystr) :
  (forall c, In c cols -> has_column df c = true)
  \/ exists pre col post,
       cols = pre ++ col :: post
       /\ (forall c, In c pre -> has_column df c = true)
       /\ has_column df col = false.
Proof.
  induction cols as [|c cols IH]; [left; intros c []|].
  destruct (has_column df c) eqn:E.
  - destruct IH as [H|(pre & col & post & -> & Hp & Hc)].
    + left. intros c' [<-|Hin]; auto.
    + right. exists (c :: pre), col, post. split; [reflexivity|].
      split; [|exact Hc]. intros c' [<-|Hin]; auto.
  - right. exists [], c, cols. split; [reflexivity|].
    split; [intros c' []|exact E].
Qed.

Lemma filter_missing_none (df : DataFrame) (cols : list pystr) :
  (forall c, In c cols -> has_column df c = true) ->
  filter (fun col => negb (str_in col (column_names df))) cols = [].
Proof.
  induction cols as [|c cols IH]; intros H; [reflexivity|].
  cbn [filter]. change (str_in c (column_names df)) with (has_column df c).
  rewrite (H c (or_introl eq_refl)). cbn [negb]. apply IH.
  intros c' Hc. apply H. now right.
Qed.

(** The columns of one row, up to a column the row does not have. *)
Lemma columns_loop_missing (env : Env) (self : TranslationPipeline)
    (row : list (pystr * cell)) (idx : Z) (col : pystr) (post pre : list pystr) :
  forall result_df w,
    (forall c, In c pre -> row_get row c <> None) ->
    row_get row col = None ->
    exists mid w' evs,
      columns_loop env self row idx (pre ++ col :: post) result_df w
      = (Err KeyError, w', evs)
      /\ files w' = files w
      /\ cells_run (map (fun c => (idx, c)) pre)
           (result_df, stats w) (mid, stats w').
Proof.
  induction pre as [|c pre IH]; intros result_df w Hpre Hcol.
  - cbn [app columns_loop]. rewrite Hcol. cbn [of_option].
    exists result_df, w, []. split; [reflexivity|].
    split; [reflexivity | constructor].
  - cbn [app columns_loop map].
    destruct (row_get row c) as [value|] eqn:Hget;
      [|now destruct (Hpre c (or_introl eq_refl))].
    cbn [of_option]. rewrite bind_ret.
    destruct (engine_contract env self (str_of_cell value) w)
      as (res & w1 & ev1 & Hstep & Hs1 & Hf1 & Hres).
    erewrite bind_ok by exact Hstep.
    assert (Hrest : forall c', In c' pre -> row_get row c' <> None)
      by (intros c' Hc; apply Hpre; now right).
    destruct Hres as [->|(tr & api_name & -> & Ht & Hn)]; cbv beta iota.
    + unfold exhausted. cbv beta iota zeta. cbn [translation_truthy].
      erewrite bind_ok by apply count_cell.
      destruct (IH result_df
                  (DatasetSpec.with_store w1
                     (bump_failure idx c
                        (Some (py "All API attempts exhausted")) (stats w1))
                     (files w1)) Hrest Hcol)
        as (mid & w' & evs & Hloop & Hf & Hrun).
      rewrite Hloop. cbn [fst snd]. exists mid, w', (ev1 ++ [] ++ evs).
      cbn [stats DatasetSpec.with_store] in Hrun. rewrite Hs1 in Hrun.
      split; [reflexivity|]. split; [cbn in Hf; congruence|].
      apply run_cell with
        (result_df,
         bump_failure idx c (Some (py "All API attempts exhausted"))
           (stats w)); [constructor | exact Hrun].
    + cbv beta iota zeta. cbn [translation_truthy]. rewrite Ht.
      set (written :=
             at_set
               (at_set result_df idx (c ++ py "_ar")
                  (CStr (Postprocessing.postprocess_translation tr)))
               idx (c ++ py "_api") (CStr api_name)).
      erewrite bind_ok by apply count_cell.
      destruct (IH written
                  (DatasetSpec.with_store w1
                     (bump_success api_name (stats w1)) (files w1))
                  Hrest Hcol)
        as (mid & w' & evs & Hloop & Hf & Hrun).
      rewrite Hloop. cbn [fst snd]. exists mid, w', (ev1 ++ [] ++ evs).
      split; [reflexivity|]. split; [cbn in Hf; congruence|].
      apply run_cell with (written, bump_success api_name (stats w)).
      * constructor; [|exact Hn]. intros E. rewrite E in Ht. discriminate.
      * cbn [stats DatasetSpec.with_store] in Hrun. now rewrite Hs1 in Hrun.
Qed.

(** X26.  A requested column that the dataset does not have.  Over a
    dataset with at least one row, a run from the start returns exactly
    when [validate_columns] finds every requested column.  Otherwise it
    raises KeyError in the first row, at the first requested column that
    [validate_columns] reports as missing: the cells of that row under the
    columns requested before it have been sent to the providers and
    counted, no checkpoint file has been written and no frame is returned.
    Over a dataset without rows the run returns the initial frame, whatever
    columns are requested. *)
Theorem missing_column_aborts_in_first_row :
  forall (env : Env) (self : TranslationPipeline) (df : DataFrame) (w : World),
    (index df = [] ->
     translate_dataset env self df false None w
     = (Ok (init_result self df), with_stats w (set_total 0 (stats w)), []))
    /\ (0 < len (index df) ->
        (validate_columns (Some df) (columns_to_translate self)
         = Loaded (true, [])
         /\ exists out w' evs,
              translate_dataset env self df false None w = (Ok out, w', evs))
        \/ (exists pre col post rest,
              columns_to_translate self = pre ++ col :: post
              /\ validate_columns (Some df) (columns_to_translate self)
                 = Loaded (false, col :: rest)
              /\ exists w' evs,
                   translate_dataset env self df false None w
                   = (Err KeyError, w', evs)
                   /\ files w' = files w
                   /\ total (stats w') = len (index df)
                   /\ (successful (stats w') - successful (stats w))
                      + (failed (stats w') - failed (stats w))
                      = len pre)).
Proof.
  intros env self df w. split.
  - intros Hempty. unfold translate_dataset.
    erewrite bind_ok by apply update_stats_any. cbv beta.
    rewrite bind_ret. rewrite Hempty. reflexivity.
  - intros Hrows.
    destruct (split_at_first_missing df (columns_to_translate self))
      as [Hall|(pre & col & post & Hsplit & Hpre & Hcol)].
    + left. split.
      * unfold validate_columns, get_column_names.
        now rewrite filter_missing_none.
      * destruct (translate_dataset_cells env self df Hall w)
          as (out & w' & evs & Hrun & _).
        now exists out, w', evs.
    + right. exists pre, col, post.
      exists (filter (fun c => negb (str_in c (column_names df))) post).
      split; [exact Hsplit|]. split.
      * unfold validate_columns, get_column_names. rewrite Hsplit.
        rewrite filter_app, filter_missing_none by exact Hpre.
        cbn [app filter].
        change (str_in col (column_names df)) with (has_column df col).
        rewrite Hcol. reflexivity.
      * unfold translate_dataset.
        erewrite bind_ok by apply update_stats_any. cbv beta.
        rewrite bind_ret.
        destruct (range_from_zero (len (index df)) Hrows) as [rest ->].
        cbn [rows_loop].
        assert (Hrow : exists row,
                   iloc (row_text env df) df 0 = Some row
                   /\ (forall c, In c pre -> row_get row c <> None)
                   /\ row_get row col = None).
        { rewrite iloc_in_range by lia.
          eexists. split; [reflexivity|]. split.
          - intros c Hc.
            destruct (iloc_row_get env df 0 c) as (row' & Hr & Hget);
              [lia | now apply Hpre |].
            rewrite iloc_in_range in Hr by lia.
            injection Hr as E. change (Z.to_nat 0) with 0%nat.
            rewrite E, Hget. discriminate.
          - apply (row_get_missing (columns df)
                     (fun nv =>
                        row_value
                          (row_conversion (row_text env df) df (fst nv))
                          (nth (Z.to_nat 0) (snd nv) CNaN))).
            exact Hcol. }
        destruct Hrow as (row & Hiloc & Hget & Hnone). rewrite Hiloc.
        cbn [of_option]. rewrite bind_ret. rewrite Hsplit.
        destruct (columns_loop_missing env self row 0 col post pre
                    (init_result self df)
                    (DatasetSpec.with_store w
                       (set_total (len (index df)) (stats w)) (files w))
                    Hget Hnone)
          as (mid & w' & evs & Hloop & Hf & Hrun).
        erewrite bind_err by exact Hloop.
        exists w', evs. split; [reflexivity|]. split; [exact Hf|].
        destruct (cells_run_stats _ _ _ Hrun) as (T & _ & _ & C & _).
        cbn [snd set_total total successful failed stats
             DatasetSpec.with_store] in T, C.
        split; [exact T|]. rewrite C. unfold len. now rewrite length_map.
Qed.

(** Two rows of "Hello", and a pipeline asked for "text" and for a column
    "prompt" that is not there: the run stops with KeyError after the
    "text" cell of the first row; over no rows at all it returns. *)
Lemma missing_column_aborts_in_first_row_witness :
  fst (fst (translate_dataset Samples.translating_env
              LoaderSamples.text_then_prompt empty_frame false None
              Samples.fresh_world))
  = Ok (init_result LoaderSamples.text_then_prompt empty_frame)
  /\ exists w' evs,
       translate_dataset Samples.translating_env
         LoaderSamples.text_then_prompt (Samples.hello_df 2) false None
         Samples.fresh_world
       = (Err KeyError, w', evs)
       /\ files w' = []
       /\ total (stats w') = 2.
Proof.
  split.
  - rewrite (proj1 (missing_column_aborts_in_first_row
                      Samples.translating_env LoaderSamples.text_then_prompt
                      empty_frame Samples.fresh_world) eq_refl).
    reflexivity.
  - destruct (proj2 (missing_column_aborts_in_first_row
                       Samples.translating_env LoaderSamples.text_then_prompt
                       (Samples.hello_df 2) Samples.fresh_world))
      as [[Hv _]|(pre & col & post & rest & _ & _ & w' & evs & Hrun & Hf & T
                  & _)].
    + vm_compute. reflexivity.
    + vm_compute in Hv. discriminate Hv.
    + exists w', evs. split; [exact Hrun|]. split; [exact Hf | exact T].
Defined.

(** *** File formats *)

Lemma detect_format_supported (lower : pystr -> pystr) (path : pystr) :
  In (detect_format lower path) SUPPORTED_FORMATS.
Proof.
  unfold detect_format, SUPPORTED_FORMATS. cbv zeta.
  destruct (endswith (py ".csv") (lower path)); [now left|].
  destruct (endswith (py ".tsv") (lower path)); [right; now left|].
  destruct (endswith (py ".jsonl") (lower path)
            || endswith (py ".ndjson") (lower path));
    [do 3 right; now left|].
  destruct (endswith (py ".json") (lower path)); [do 2 right; now left|].
  destruct (endswith (py ".parquet") (lower path));
    [do 4 right; now left | now left].
Qed.

Lemma load_supported_format (lower : pystr -> pystr) (path format : pystr) :
  In format SUPPORTED_FORMATS ->
  exists call, _load_local_file lower path (Some format) = Loaded call.
Proof.
  intros [<-|[<-|[<-|[<-|[<-|[]]]]]]; eexists; reflexivity.
Qed.

Lemma load_local_auto (lower : pystr -> pystr) (path : pystr) :
  _load_local_file lower path None
  = _load_local_file lower path (Some (detect_format lower path)).
Proof. reflexivity. Qed.

Lemma str_in_iff (x : pystr) (names : list pystr) :
  str_in x names = true <-> In x names.
Proof. apply existsb_str_eqb. Qed.

(** X27.  The format found from the extension is always one of
    [SUPPORTED_FORMATS], whatever the path.  So [_load_local_file] raises
    "Unsupported format" exactly when it is handed a format outside
    [SUPPORTED_FORMATS], and never when it detects the format itself: a
    file with an unknown extension, or with none, is read as CSV. *)
Theorem unsupported_format_only_when_given :
  forall (lower : pystr -> pystr) (path : pystr),
    In (detect_format lower path) SUPPORTED_FORMATS
    /\ (exists call, _load_local_file lower path None = Loaded call)
    /\ (forall format : pystr,
          _load_local_file lower path (Some format)
          = Raised (UnsupportedFormat format)
          <-> ~ In format SUPPORTED_FORMATS)
    /\ ((forall ext,
           In ext [py ".csv"; py ".tsv"; py ".jsonl"; py ".ndjson";
                   py ".json"; py ".parquet"] ->
           endswith ext (lower path) = false) ->
        _load_local_file lower path None = Loaded (PdReadCsv path)).
Proof.
  intros lower path. split; [apply detect_format_supported|].
  split; [|split].
  - rewrite load_local_auto.
    apply load_supported_format, detect_format_supported.
  - intros format. split.
    + intros E Hin.
      destruct (load_supported_format lower path format Hin) as [call Hc].
      congruence.
    + intros Hout. unfold _load_local_file, SUPPORTED_FORMATS in *.
      cbv zeta.
      repeat match goal with
             | |- context [str_eqb format ?lit] =>
                 let E := fresh "E" in
                 destruct (str_eqb format lit) eqn:E;
                 [apply str_eqb_eq in E; exfalso; apply Hout; rewrite E;
                  cbn [In]; tauto|]
             end.
      reflexivity.
  - intros Hext. unfold _load_local_file, detect_format. cbv zeta.
    rewrite !Hext by (cbn [In]; tauto). reflexivity.
Qed.

(** A README and a file without extension are read as CSV; the format
    "CSV" in capitals is refused. *)
Lemma unsupported_format_only_when_given_witness :
  _load_local_file LoaderSamples.ascii_lowercase (py "README.md") None
  = Loaded (PdReadCsv (py "README.md"))
  /\ _load_local_file LoaderSamples.ascii_lowercase (py "DATA.JSONL") None
     = Loaded (PdReadJsonLines (py "DATA.JSONL"))
  /\ _load_local_file LoaderSamples.ascii_lowercase (py "data.csv")
       (Some (py "CSV"))
     = Raised (UnsupportedFormat (py "CSV")).
Proof.
  split; [|split].
  - apply (proj2 (proj2 (proj2 (unsupported_format_only_when_given
                                  LoaderSamples.ascii_lowercase
                                  (py "README.md"))))).
    intros ext [<-|[<-|[<-|[<-|[<-|[<-|[]]]]]]]; reflexivity.
  - reflexivity.
  - apply (proj1 (proj2 (proj2 (unsupported_format_only_when_given
                                  LoaderSamples.ascii_lowercase
                                  (py "data.csv")))) (py "CSV")).
    cbn [In SUPPORTED_FORMATS]. intros [E|[E|[E|[E|[E|[]]]]]]; discriminate E.
Defined.

(** *** The file loaded from a Kaggle dataset *)

Lemma str_in_detected (lower : pystr -> pystr) (f : pystr) :
  str_in (detect_format lower f) SUPPORTED_FORMATS = true.
Proof. apply str_in_iff, detect_format_supported. Qed.

(** X28.  Without a file name (or with an empty one) [_load_kaggle] loads
    the first file of the listing, whatever its extension, since every
    file passes the test for a supported format; the file is then read in
    the format found from its extension, as CSV when the extension is
    unknown.  "No supported file format found" is raised only for a
    dataset without files. *)
Theorem kaggle_loads_first_listed_file :
  forall (lower : pystr -> pystr) (files : list pystr),
    (forall f, In f files -> f <> []) ->
    _load_kaggle lower files None
    = match files with
      | [] => Raised (NoSupportedFile [])
      | f :: _ => _load_local_file lower f None
      end
    /\ _load_kaggle lower files (Some []) = _load_kaggle lower files None
    /\ (files <> [] ->
        exists call, _load_kaggle lower files None = Loaded call).
Proof.
  intros lower files Hfiles.
  assert (E : _load_kaggle lower files None
              = match files with
                | [] => Raised (NoSupportedFile [])
                | f :: _ => _load_local_file lower f None
                end).
  { unfold _load_kaggle. destruct files as [|f rest]; [reflexivity|].
    cbn [find]. rewrite str_in_detected. cbn [not_found].
    destruct f as [|c f]; [now destruct (Hfiles [] (or_introl eq_refl))|].
    reflexivity. }
  split; [exact E|]. split; [reflexivity|].
  intros Hne. rewrite E. destruct files as [|f rest]; [contradiction|].
  rewrite load_local_auto.
  apply load_supported_format, detect_format_supported.
Qed.

(** A dataset whose listing starts with its README: the README is read,
    as CSV, and the JSON file next to it is not looked at. *)
Lemma kaggle_loads_first_listed_file_witness :
  _load_kaggle LoaderSamples.ascii_lowercase LoaderSamples.readme_first None
  = Loaded (PdReadCsv (py "/tmp/d/README.md")).
Proof.
  rewrite (proj1 (kaggle_loads_first_listed_file
                    LoaderSamples.ascii_lowercase LoaderSamples.readme_first
                    ltac:(intros f [<-|[<-|[]]]; discriminate))).
  reflexivity.
Defined.

(** *** The columns kept in the output *)

Lemma get_column_app (a b : list (pystr * list cell)) (c : pystr) :
  get_column (a ++ b) c
  = match get_column a c with
    | Some vals => Some vals
    | None => get_column b c
    end.
Proof.
  induction a as [|[name vals] a IH]; [reflexivity|].
  cbn [app get_column]. now destruct (str_eqb c name).
Qed.

Lemma get_column_filter (cols : list (pystr * list cell)) (name c : pystr) :
  get_column (filter (fun nv => str_eqb name (fst nv)) cols) c
  = if str_eqb c name then get_column cols c else None.
Proof.
  induction cols as [|[n vals] cols IH].
  - cbn. now destruct (str_eqb c name).
  - cbn [filter fst get_column]. destruct (str_eqb name n) eqn:E.
    + apply str_eqb_eq in E. subst n. cbn [get_column].
      destruct (str_eqb c name); [reflexivity | exact IH].
    + rewrite IH. destruct (str_eqb c name) eqn:E1; [|reflexivity].
      apply str_eqb_eq in E1. subst c. now rewrite E.
Qed.

Lemma get_column_listed (cols : list (pystr * list cell))
    (names : list pystr) (c : pystr) :
  get_column
    (flat_map (fun name => filter (fun nv => str_eqb name (fst nv)) cols)
       names) c
  = if existsb (str_eqb c) names then get_column cols c else None.
Proof.
  induction names as [|name names IH]; [reflexivity|].
  cbn [flat_map existsb]. rewrite get_column_app, get_column_filter, IH.
  destruct (str_eqb c name); cbn [orb]; [|reflexivity].
  destruct (get_column cols c); [reflexivity|].
  now destruct (existsb (str_eqb c) names).
Qed.

Lemma has_column_false_get (df : DataFrame) (c : pystr) :
  has_column df c = false <-> get_column (columns df) c = None.
Proof.
  pose proof (has_column_get df c) as H.
  destruct (has_column df c) eqn:E.
  - split; [discriminate|]. intros G. exfalso. now apply (proj1 H eq_refl).
  - split; [|reflexivity]. intros _.
    destruct (get_column (columns df) c) eqn:G; [|reflexivity].
    assert (T : false = true) by (apply H; discriminate). discriminate T.
Qed.

Lemma translated_cols_in (columns : list pystr) (c : pystr) :
  In c (map (fun col => col ++ py "_ar") columns
        ++ map (fun col => col ++ py "_api") columns)
  <-> In c (output_columns columns).
Proof.
  rewrite in_app_iff, !in_map_iff, output_columns_in. split.
  - intros [[col [<- H]]|[col [<- H]]]; exists col; auto.
  - intros [col [H [->| ->]]]; [left | right]; now exists col.
Qed.

(** The filter alone, on any frame. *)
Lemma keep_columns_spec (keep columns : list pystr) (result : DataFrame) :
  keep <> [] ->
  exists kept,
    Translate.keep_columns_filter (Some keep) columns result = Some kept
    /\ index kept = index result
    /\ (forall c,
          has_column kept c = true
          <-> has_column result c = true
              /\ (In c keep \/ In c (output_columns columns)))
    /\ (forall c, In c keep \/ In c (output_columns columns) ->
                  get_column (Pandas.columns kept) c
                  = get_column (Pandas.columns result) c).
Proof.
  intros Hkeep. destruct keep as [|k ks]; [contradiction|].
  unfold Translate.keep_columns_filter. cbv zeta.
  set (keep_cols :=
         (k :: ks) ++ map (fun col => col ++ py "_ar") columns
         ++ map (fun col => col ++ py "_api") columns).
  assert (Hin : forall c,
             In c keep_cols
             <-> In c (k :: ks) \/ In c (output_columns columns)).
  { intros c. unfold keep_cols. rewrite in_app_iff, translated_cols_in.
    reflexivity. }
  clearbody keep_cols. unfold Translate.getitem_list.
  replace (forallb (has_column result)
             (filter (has_column result) keep_cols)) with true
    by (symmetry; apply forallb_forall; intros c Hc;
        now apply filter_In in Hc).
  eexists. split; [reflexivity|]. split; [reflexivity|].
  assert (G : forall c,
             get_column
               (Pandas.columns
                  {| index := index result;
                     Pandas.columns :=
                       flat_map
                         (fun name =>
                            filter (fun nv => str_eqb name (fst nv))
                              (Pandas.columns result))
                         (filter (has_column result) keep_cols) |}) c
             = if existsb (str_eqb c) (filter (has_column result) keep_cols)
               then get_column (Pandas.columns result) c
               else None)
    by (intros c; apply get_column_listed).
  split.
  - intros c. rewrite has_column_get, G, <- Hin.
    destruct (existsb (str_eqb c) (filter (has_column result) keep_cols))
      eqn:E.
    + apply existsb_str_eqb, filter_In in E as [Hc Hr].
      rewrite <- has_column_get. tauto.
    + split; [congruence|]. intros [Hr Hc].
      assert (T : existsb (str_eqb c)
                    (filter (has_column result) keep_cols) = true)
        by (apply existsb_str_eqb, filter_In; now split).
      congruence.
  - intros c Hc. rewrite G.
    destruct (existsb (str_eqb c) (filter (has_column result) keep_cols))
      eqn:E; [reflexivity|].
    symmetry. apply has_column_false_get.
    destruct (has_column result c) eqn:Hr; [|reflexivity].
    assert (T : existsb (str_eqb c)
                  (filter (has_column result) keep_cols) = true)
      by (apply existsb_str_eqb, filter_In; split; [now apply Hin | exact Hr]).
    congruence.
Qed.

(** The frame a run from the start returns, when the input columns are
    kept and the rows carry the default labels. *)
Lemma run_output_frame (env : Env) (self : TranslationPipeline)
    (df : DataFrame) (w : World) :
  preserve_all_columns self = true ->
  index df = range 0 (len (index df)) ->
  (forall col, In col (columns_to_translate self) ->
               has_column df col = true) ->
  exists out w' evs,
    translate_dataset env self df false None w = (Ok out, w', evs)
    /\ index out = index df
    /\ (forall c, In c (output_columns (columns_to_translate self)) ->
                  has_column out c = true)
    /\ (forall c, ~ In c (output_columns (columns_to_translate self)) ->
                  get_column (Pandas.columns out) c
                  = get_column (Pandas.columns df) c).
Proof.
  intros Hkeep Hindex Hcols.
  destruct (translate_dataset_cells env self df Hcols w)
    as (out & w' & evs & Hrun & Hcells & _ & _).
  exists out, w', evs. split; [exact Hrun|].
  destruct (init_result_facts self df) as [Ii Gi]. rewrite Hkeep in Ii, Gi.
  assert (Hout : forall c,
             In c (output_columns (columns_to_translate self)) ->
             has_column (init_result self df) c = true).
  { intros c Hc. apply has_column_get. rewrite Gi.
    now rewrite (proj2 (existsb_str_eqb _ _) Hc). }
  destruct (cells_run_frame _ _ _ Hcells) as (I & N & G); cbn [fst] in *.
  { intros idx col Hin. apply cells_in in Hin as [Hi Hc].
    split; [|split].
    - rewrite Ii, Hindex. apply existsb_exists. exists idx.
      split; [exact Hi | apply Z.eqb_refl].
    - apply Hout, output_columns_in. exists col. auto.
    - apply Hout, output_columns_in. exists col. auto. }
  split; [congruence|]. split.
  - intros c Hc.
    rewrite (has_column_names out (init_result self df)) by exact N.
    now apply Hout.
  - intros c Hc. rewrite G.
    + rewrite Gi.
      destruct (existsb (str_eqb c)
                  (output_columns (columns_to_translate self))) eqn:E;
        [|reflexivity].
      apply existsb_str_eqb in E. contradiction.
    + intros idx col Hin. apply cells_in in Hin as [_ Hin].
      split; intros ->; apply Hc, output_columns_in; exists col; auto.
Qed.

(** X29.  The file written with [--keep-columns].  After a run from the
    start (the command line always keeps the input columns) the filter
    never raises KeyError, keeps the rows, and leaves exactly the two
    output columns of every requested column together with the listed
    columns that the input has: a listed name that is no column is ignored
    without a word, and an input column that is not listed is dropped, the
    translated source column included.  Every listed input column holds
    what it held in the input, every output column what the run wrote. *)
Theorem kept_output_has_every_translation :
  forall (env : Env) (self : TranslationPipeline) (df : DataFrame) (w : World)
         (keep : list pystr),
    keep <> [] ->
    preserve_all_columns self = true ->
    index df = range 0 (len (index df)) ->
    (forall col, In col (columns_to_translate self) ->
                 has_column df col = true) ->
    exists out w' evs kept,
      translate_dataset env self df false None w = (Ok out, w', evs)
      /\ Translate.keep_columns_filter (Some keep)
           (columns_to_translate self) out = Some kept
      /\ index kept = index df
      /\ (forall c,
            has_column kept c = true
            <-> In c (output_columns (columns_to_translate self))
                \/ (In c keep /\ has_column df c = true))
      /\ (forall c,
            In c keep ->
            ~ In c (output_columns (columns_to_translate self)) ->
            get_column (Pandas.columns kept) c
            = get_column (Pandas.columns df) c)
      /\ (forall c,
            In c (output_columns (columns_to_translate self)) ->
            get_column (Pandas.columns kept) c
            = get_column (Pandas.columns out) c).
Proof.
  intros env self df w keep Hne Hkeep Hindex Hcols.
  destruct (run_output_frame env self df w Hkeep Hindex Hcols)
    as (out & w' & evs & Hrun & Hi & Ho & Hg).
  destruct (keep_columns_spec keep (columns_to_translate self) out Hne)
    as (kept & Hfilter & Ki & Kh & Kg).
  exists out, w', evs, kept. split; [exact Hrun|]. split; [exact Hfilter|].
  split; [congruence|]. split; [|split].
  - intros c. rewrite Kh.
    destruct (existsb (str_eqb c)
                (output_columns (columns_to_translate self))) eqn:E.
    + apply existsb_str_eqb in E. pose proof (Ho c E). tauto.
    + assert (Hn : ~ In c (output_columns (columns_to_translate self)))
        by (intros H; apply existsb_str_eqb in H; congruence).
      assert (Hsame : has_column out c = has_column df c).
      { pose proof (Hg c Hn) as Hgc.
        destruct (has_column df c) eqn:Hd.
        - apply has_column_get. rewrite Hgc. now apply has_column_get.
        - apply has_column_false_get. rewrite Hgc.
          now apply has_column_false_get. }
      rewrite Hsame. tauto.
  - intros c Hc Hn. rewrite Kg by now left. now apply Hg.
  - intros c Hc. apply Kg. now right.
Qed.

(** Rows with an "id" and a "text", translated with [--keep-columns id
    idd]: the output has "id" and "text_ar", and neither "text" nor
    "idd". *)
Lemma kept_output_has_every_translation_witness :
  exists out w' evs kept,
    translate_dataset Samples.translating_env Samples.nvidia_only
      LoaderSamples.id_text_df false None Samples.fresh_world
    = (Ok out, w', evs)
    /\ Translate.keep_columns_filter (Some [py "id"; py "idd"]) [py "text"]
         out = Some kept
    /\ has_column kept (py "id") = true
    /\ has_column kept (py "text_ar") = true
    /\ has_column kept (py "text") <> true
    /\ has_column kept (py "idd") <> true.
Proof.
  destruct (kept_output_has_every_translation Samples.translating_env
              Samples.nvidia_only LoaderSamples.id_text_df
              Samples.fresh_world [py "id"; py "idd"])
    as (out & w' & evs & kept & Hrun & Hfilter & _ & Hh & _).
  - discriminate.
  - reflexivity.
  - reflexivity.
  - intros col [<-|[]]. reflexivity.
  - exists out, w', evs, kept. split; [exact Hrun|]. split; [exact Hfilter|].
    split; [|split; [|split]].
    + apply Hh. right. split; [now left | reflexivity].
    + apply Hh. left. cbn. now left.
    + intros H. apply Hh in H as [[E|[E|[]]]|[[E|[E|[]]] _]]; discriminate E.
    + intros H. apply Hh in H as [[E|[E|[]]]|[_ E]]; discriminate E.
Defined.
End LoaderFacts.

(** ** The merge of configurations (core/config_loader.py) *)

Module ConfigFacts.
Import ConfigLoader PyStrFacts.


Lemma merge_config_nil (base : dict) : _merge_config base [] = base.
Proof. reflexivity. Qed.

(** One item of the override at a time. *)
Lemma merge_config_cons (base : dict) (key : pystr) (v : value)
    (rest : dict) :
  _merge_config base ((key, v) :: rest)
  = _merge_config
      (match dict_get base key, v with
       | Some (VDict sub), VDict o =>
           dict_store base key (VDict (_merge_config sub o))
       | _, _ => dict_store base key v
       end)
      rest.
Proof.
  unfold _merge_config. cbn [merge_value].
  destruct (dict_get base key) as [[]|]; destruct v; reflexivity.
Qed.

Lemma dict_get_store_same (d : dict) (key : pystr) (v : value) :
  dict_get (dict_store d key v) key = Some v.
Proof.
  induction d as [|[k old] d IH]; cbn [dict_store dict_get].
  - now rewrite str_eqb_refl.
  - destruct (str_eqb key k) eqn:E; cbn [dict_get]; rewrite E;
      [reflexivity | exact IH].
Qed.

Lemma dict_get_store_other (d : dict) (key key' : pystr) (v : value) :
  key' <> key ->
  dict_get (dict_store d key v) key' = dict_get d key'.
Proof.
  intros Hne.
  assert (N : str_eqb key' key = false).
  { destruct (str_eqb key' key) eqn:E; [|reflexivity].
    apply str_eqb_eq in E. contradiction. }
  induction d as [|[k old] d IH]; cbn [dict_store dict_get].
  - now rewrite N.
  - destruct (str_eqb key k) eqn:E; cbn [dict_get].
    + apply str_eqb_eq in E. subst k. now rewrite N.
    + now rewrite IH.
Qed.

Lemma dict_get_absent (d : dict) (key : pystr) :
  ~ In key (map fst d) -> dict_get d key = None.
Proof.
  induction d as [|[k v] d IH]; [reflexivity|]. cbn [map fst In dict_get].
  intros H. destruct (str_eqb key k) eqn:E.
  - apply str_eqb_eq in E. subst k. exfalso. apply H. now left.
  - apply IH. intros Hin. apply H. now right.
Qed.

(** What a key holds after the merge. *)
Lemma merge_config_get (override : dict) :
  NoDup (map fst override) ->
  forall (base : dict) (key : pystr),
    dict_get (_merge_config base override) key
    = match dict_get override key with
      | None => dict_get base key
      | Some v =>
          match dict_get base key, v with
          | Some (VDict sub), VDict o => Some (VDict (_merge_config sub o))
          | _, _ => Some v
          end
      end.
Proof.
  induction override as [|[k v] rest IH]; intros Hnd base key;
    [reflexivity|].
  cbn [map fst] in Hnd. apply NoDup_cons_iff in Hnd as [Hk Hnd].
  rewrite merge_config_cons, (IH Hnd). cbn [dict_get].
  destruct (str_eqb key k) eqn:E.
  - apply str_eqb_eq in E. subst k. rewrite (dict_get_absent rest key Hk).
    destruct (dict_get base key) as [[]|]; destruct v;
      apply dict_get_store_same.
  - assert (Hne : key <> k)
      by (intros ->; rewrite str_eqb_refl in E; discriminate).
    assert (G : dict_get
                  (match dict_get base k, v with
                   | Some (VDict sub), VDict o =>
                       dict_store base k (VDict (_merge_config sub o))
                   | _, _ => dict_store base k v
                   end) key
                = dict_get base key)
      by (destruct (dict_get base k) as [[]|]; destruct v;
          now apply dict_get_store_other).
    now rewrite G.
Qed.

Lemma store_keys (d : dict) (key : pystr) (v : value) :
  map fst (dict_store d key v)
  = if existsb (str_eqb key) (map fst d) then map fst d
    else map fst d ++ [key].
Proof.
  induction d as [|[k old] d IH]; [reflexivity|].
  cbn [dict_store map fst existsb]. destruct (str_eqb key k) eqn:E;
    cbn [orb map fst]; [reflexivity|].
  rewrite IH. now destruct (existsb (str_eqb key) (map fst d)).
Qed.

(** The merge keeps the keys of the base, in their places. *)
Lemma merge_config_keys (override : dict) :
  forall base : dict,
    exists added, map fst (_merge_config base override) = map fst base ++ added.
Proof.
  induction override as [|[k v] rest IH]; intros base.
  - exists []. now rewrite app_nil_r.
  - rewrite merge_config_cons.
    destruct (IH (match dict_get base k, v with
                  | Some (VDict sub), VDict o =>
                      dict_store base k (VDict (_merge_config sub o))
                  | _, _ => dict_store base k v
                  end)) as [added ->].
    assert (S : exists one,
               map fst
                 (match dict_get base k, v with
                  | Some (VDict sub), VDict o =>
                      dict_store base k (VDict (_merge_config sub o))
                  | _, _ => dict_store base k v
                  end)
               = map fst base ++ one).
    { assert (T : forall x, exists one,
                 map fst (dict_store base k x) = map fst base ++ one).
      { intros x. rewrite store_keys.
        destruct (existsb (str_eqb k) (map fst base));
          [exists []; now rewrite app_nil_r | now exists [k]]. }
      destruct (dict_get base k) as [[]|]; destruct v; apply T. }
    destruct S as [one E]. exists (one ++ added). rewrite app_assoc.
    f_equal. exact E.
Qed.

(** X30.  What a key holds after [_merge_config]: a key the override
    does not have keeps the value of the base; a key that holds a
    dictionary on both sides holds their merge; any other key of the
    override holds the override's value, so a scalar or a list in the file
    replaces a whole dictionary of defaults.  The keys of the base stay, in
    their order, and an empty override changes nothing. *)
Theorem merged_config_lookup :
  forall base override : dict,
    NoDup (map fst override) ->
    (forall key,
       dict_get (_merge_config base override) key
       = match dict_get override key with
         | None => dict_get base key
         | Some v =>
             match dict_get base key, v with
             | Some (VDict sub), VDict o =>
                 Some (VDict (_merge_config sub o))
             | _, _ => Some v
             end
         end)
    /\ (exists added,
          map fst (_merge_config base override) = map fst base ++ added)
    /\ _merge_config base [] = base.
Proof.
  intros base override Hnd. split; [|split].
  - intros key. now apply merge_config_get.
  - apply merge_config_keys.
  - reflexivity.
Qed.

(** A file that only lowers the rate of NVIDIA keeps the other defaults
    of NVIDIA and the defaults of Fanar; its scalar under "dataset"
    replaces the dictionary of defaults there, so that
    [config['dataset']['source']] is no longer there. *)
Lemma merged_config_lookup_witness :
  lookup (VDict (_merge_config _get_defaults ConfigSamples.slow_nvidia))
    [py "apis"; py "nvidia"; py "rate_limit_rpm"] = Some (VInt 10)
  /\ lookup (VDict (_merge_config _get_defaults ConfigSamples.slow_nvidia))
       [py "apis"; py "nvidia"; py "max_tokens"] = Some (VInt 512)
  /\ lookup (VDict (_merge_config _get_defaults ConfigSamples.slow_nvidia))
       [py "retry"; py "max_retries"] = Some (VInt 3)
  /\ lookup (VDict (_merge_config _get_defaults ConfigSamples.slow_nvidia))
       [py "dataset"; py "source"] = None.
Proof.
  assert (Hnd : NoDup (map fst ConfigSamples.slow_nvidia)).
  { constructor; [intros [E|[]]; discriminate E|].
    constructor; [intros []|constructor]. }
  pose proof (proj1 (merged_config_lookup _get_defaults
                       ConfigSamples.slow_nvidia Hnd)) as L.
  cbn [lookup]. rewrite !L. vm_compute. repeat split.
Defined.
End ConfigFacts.

(** ** The first valid answer (core/pipeline.py, translate_with_retry) *)

Module AnswerFacts.
Import Config Effects Pipeline RetrySpec LimiterSpec EffectFacts RetryFacts
  EngineFacts.

Lemma apis_providers (self : TranslationPipeline) :
  apis self
  = (primary_name self, primary_func self)
    :: (if enable_fallback self
        then [(secondary_name self, secondary_func self)] else []).
Proof.
  unfold secondary_name, secondary_func, primary_name, primary_func, apis.
  destruct (str_eqb (primary_api self) (py "nvidia"));
    destruct (enable_fallback self); reflexivity.
Qed.

Lemma secondary_is_other (self : TranslationPipeline) :
  secondary_func self <> primary_func self.
Proof. unfold secondary_func. destruct (primary_func self); discriminate. Qed.

Lemma primary_func_is_configured (self : TranslationPipeline) :
  (primary_api self = py "nvidia" -> primary_func self = Nvidia)
  /\ (primary_api self = py "fanar" -> primary_func self = Fanar).
Proof. unfold primary_func, apis. split; intros ->; reflexivity. Qed.

(** The attempts up to the attempt [j]. *)
Lemma range_split_at (n : Z) (j : nat) :
  (j < Z.to_nat n)%nat ->
  exists rest,
    Pandas.range 0 n = Pandas.range 0 (Z.of_nat j) ++ Z.of_nat j :: rest.
Proof.
  intros Hj. unfold Pandas.range.
  replace (Z.to_nat (n - 0)) with (j + S (Z.to_nat n - S j))%nat by lia.
  replace (Z.to_nat (Z.of_nat j - 0)) with j by lia.
  rewrite seq_app, map_app. cbn [seq map Nat.add].
  eexists. reflexivity.
Qed.

Section Attempts.
Variable env : Env.
Variable self : TranslationPipeline.
Variable api_name : pystr.
Variable api_func : provider.
Variables processed_text text : pystr.
Variable max_retries : Z.
Hypothesis Hlimiter : limiter_configured self.

Local Abbreviation attempt w :=
  (try_attempt env self api_name api_func processed_text text w).
Local Abbreviation answer k :=
  (respond env api_func k processed_text REQUEST_TIMEOUT).

(** An attempt leaves the count of the other provider alone. *)
Lemma try_attempt_other (w : World) (q : provider) :
  q <> api_func ->
  calls_made (snd (fst (attempt w))) q = calls_made w q.
Proof.
  intros Hq. unfold try_attempt, try_except, attempt_body, bind.
  destruct (rate_limiting_shape env self w)
    as (r & w1 & lim & Hrl & _ & Hn & Hf & _).
  rewrite Hrl.
  assert (Hsame : calls_made w1 q = calls_made w q)
    by (unfold calls_made; destruct q; assumption).
  destruct r as [[]|e]; [|cbn; exact Hsame].
  unfold call_api.
  assert (Hother :
            calls_made
              {| clock_reads := clock_reads w1;
                 nvidia_calls :=
                   match api_func with
                   | Nvidia => S (nvidia_calls w1)
                   | Fanar => nvidia_calls w1
                   end;
                 fanar_calls :=
                   match api_func with
                   | Nvidia => fanar_calls w1
                   | Fanar => S (fanar_calls w1)
                   end;
                 timestamps := timestamps w1;
                 stats := stats w1;
                 files := files w1 |} q
            = calls_made w q).
  { rewrite <- Hsame. unfold calls_made.
    destruct q, api_func; try reflexivity; contradiction. }
  destruct (match api_func with
            | Nvidia => nvidia_translate env (nvidia_calls w1) processed_text
                          REQUEST_TIMEOUT
            | Fanar => fanar_translate env (fanar_calls w1) processed_text
                         REQUEST_TIMEOUT
            end) as [res|e]; [|cbn; exact Hother].
  destruct (success res); [|cbn; exact Hother].
  destruct (translation res) as [tr|]; [|cbn; exact Hother].
  cbn [of_option ret].
  destruct (Postprocessing.validate_translation text tr) as [[] checks];
    cbn; exact Hother.
Qed.

(** With a working limiter every attempt calls the provider. *)
Lemma try_attempt_calls (w : World) :
  exists w1 lim,
    attempt w
    = (Ok (answer_of api_name text (answer (calls_made w api_func))), w1,
       lim ++ [EvCall api_name processed_text REQUEST_TIMEOUT
                 (answer (calls_made w api_func))])
    /\ engine_events lim = []
    /\ calls_made w1 api_func = S (calls_made w api_func)
    /\ forall q, q <> api_func -> calls_made w1 q = calls_made w q.
Proof.
  destruct (try_attempt_shape env self api_name api_func processed_text
              text w)
    as (w1 & lim & Hlim & _ & _ & [(_ & Hno & _) | (Htry & Hcount)]);
    [contradiction|].
  cbv zeta in Htry. exists w1, lim. split; [exact Htry|].
  destruct (limiter_sleeps_facts api_name processed_text text lim Hlim)
    as (_ & _ & _ & Hnone).
  split; [exact Hnone|]. split; [exact Hcount|].
  intros q Hq. pose proof (try_attempt_other w q Hq) as H.
  rewrite Htry in H. exact H.
Qed.

(** Attempts whose answers are all rejected. *)
Lemma attempts_loop_rejected (attempts : list Z) :
  forall w : World,
    (forall i, (i < List.length attempts)%nat ->
               accepts text (answer (calls_made w api_func + i)) = None) ->
    exists w' evs,
      attempts_loop env self api_name api_func processed_text text
        max_retries attempts w = (Ok None, w', evs)
      /\ engine_events evs
         = failed_attempts env api_name api_func processed_text max_retries
             (calls_made w api_func) attempts
      /\ forall q, q <> api_func -> calls_made w' q = calls_made w q.
Proof.
  induction attempts as [|a rest IH]; intros w Hrej.
  - exists w, []. repeat split; reflexivity.
  - destruct (try_attempt_calls w) as (w1 & lim & Htry & Hlim & Hcount & Hq).
    pose proof (Hrej 0%nat ltac:(cbn; lia)) as H0.
    rewrite Nat.add_0_r in H0. unfold answer_of in Htry.
    rewrite H0 in Htry.
    destruct (IH w1) as (w' & evs & Hloop & Hev & Hq').
    { intros i Hi. rewrite Hcount.
      replace (S (calls_made w api_func) + i)%nat
        with (calls_made w api_func + S i)%nat by lia.
      apply Hrej. cbn. lia. }
    rewrite (attempts_loop_miss _ _ _ _ _ _ _ _ _ _ _ _ Htry), Hloop.
    cbn [fst snd]. eexists _, _. split; [reflexivity|]. split.
    + rewrite !engine_events_app, Hlim, Hev, Hcount.
      cbn [failed_attempts app engine_events filter is_rate_sleep negb].
      f_equal. f_equal. unfold backoff_events.
      destruct (a <? max_retries - 1); reflexivity.
    + intros q Hne. rewrite Hq' by exact Hne. now apply Hq.
Qed.

(** Attempts whose answers are rejected up to one that is accepted: the
    loop returns on that call. *)
Lemma attempts_loop_first_valid (pre : list Z) (a : Z) (rest : list Z)
    (tr : pystr) :
  forall w : World,
    (forall i, (i < List.length pre)%nat ->
               accepts text (answer (calls_made w api_func + i)) = None) ->
    accepts text (answer (calls_made w api_func + List.length pre))
    = Some tr ->
    exists w' evs,
      attempts_loop env self api_name api_func processed_text text
        max_retries (pre ++ a :: rest) w
      = (Ok (Some (Some (Postprocessing.postprocess_translation tr),
                   api_name, None)), w', evs)
      /\ engine_events evs
         = failed_attempts env api_name api_func processed_text max_retries
             (calls_made w api_func) pre
           ++ [EvCall api_name processed_text REQUEST_TIMEOUT
                 (answer (calls_made w api_func + List.length pre))].
Proof.
  induction pre as [|b pre IH]; intros w Hrej Hacc.
  - destruct (try_attempt_calls w) as (w1 & lim & Htry & Hlim & _).
    cbn [List.length] in Hacc. rewrite Nat.add_0_r in Hacc.
    unfold answer_of in Htry. rewrite Hacc in Htry.
    cbn [app]. rewrite (attempts_loop_hit _ _ _ _ _ _ _ _ _ _ _ _ _ Htry).
    eexists _, _. split; [reflexivity|].
    rewrite engine_events_app, Hlim, Nat.add_0_r. reflexivity.
  - destruct (try_attempt_calls w) as (w1 & lim & Htry & Hlim & Hcount & _).
    pose proof (Hrej 0%nat ltac:(cbn; lia)) as H0.
    rewrite Nat.add_0_r in H0. unfold answer_of in Htry.
    rewrite H0 in Htry.
    destruct (IH w1) as (w' & evs & Hloop & Hev).
    { intros i Hi. rewrite Hcount.
      replace (S (calls_made w api_func) + i)%nat
        with (calls_made w api_func + S i)%nat by lia.
      apply Hrej. cbn. lia. }
    { rewrite Hcount.
      replace (S (calls_made w api_func) + List.length pre)%nat
        with (calls_made w api_func + List.length (b :: pre))%nat
        by (cbn; lia).
      exact Hacc. }
    cbn [app].
    rewrite (attempts_loop_miss _ _ _ _ _ _ _ _ _ _ _ _ Htry), Hloop.
    cbn [fst snd]. eexists _, _. split; [reflexivity|].
    rewrite !engine_events_app, Hlim, Hev, Hcount.
    cbn [failed_attempts app engine_events filter is_rate_sleep negb].
    replace (S (calls_made w api_func) + List.length pre)%nat
      with (calls_made w api_func + List.length (b :: pre))%nat
      by (cbn; lia).
    f_equal. rewrite <- !app_assoc. f_equal.
    unfold backoff_events. destruct (b <? max_retries - 1); reflexivity.
Qed.

End Attempts.

(** C1.  An accepted answer ends the run, and the first one is the one
    returned.  In every run of [translate_with_retry], a provider call that
    returns success with a translation the validator accepts against the
    original text is the last event: its postprocessed translation is
    returned with that provider's name and no error.  With the rate limiter
    absent or at a rate of at least 1, the providers are tried primary
    first: the calls are a block of calls of the primary followed by a
    block of calls of the other provider, which is empty unless the primary
    was called [max_retries] times and fallback is enabled.  And the answer
    is obtained: if the primary rejects or fails its first [j] calls of the
    run and gives a valid translation at the next, [j < max_retries], that
    translation is returned after exactly those calls, each failed one
    followed by its backoff; if the primary fails [max_retries] times and
    fallback is enabled, the same holds of the other provider, after the
    failed attempts of the primary. *)
Theorem first_valid_result_wins :
  forall (env : Env) (self : TranslationPipeline) (text : pystr)
         (max_retries : Z) (w : World),
    let processed_text :=
      Preprocessing.preprocess_for_translation (unicode env) text
        (normalize_provider_terms self) in
    let run := translate_with_retry env self text max_retries w in
    let answer := fun (p : provider) (i : nat) =>
      respond env p (calls_made w p + i) processed_text REQUEST_TIMEOUT in
    let failures := fun (name : pystr) (p : provider) (n : nat) =>
      failed_attempts env name p processed_text max_retries (calls_made w p)
        (Pandas.range 0 (Z.of_nat n)) in
    (forall pre post api_name t timeout out tr,
        snd run = pre ++ EvCall api_name t timeout out :: post ->
        accepts text out = Some tr ->
        post = []
        /\ fst (fst run)
           = Ok (Some (Postprocessing.postprocess_translation tr),
                 api_name, None))
    /\ (limiter_configured self ->
        (exists a b : nat,
           call_names (snd run)
           = repeat (primary_name self) a ++ repeat (secondary_name self) b
           /\ (b <> 0%nat ->
               a = Z.to_nat max_retries /\ enable_fallback self = true))
        /\ (forall (j : nat) (tr : pystr),
              (j < Z.to_nat max_retries)%nat ->
              (forall i, (i < j)%nat ->
                         accepts text (answer (primary_func self) i) = None) ->
              accepts text (answer (primary_func self) j) = Some tr ->
              fst (fst run)
              = Ok (Some (Postprocessing.postprocess_translation tr),
                    primary_name self, None)
              /\ engine_events (snd run)
                 = failures (primary_name self) (primary_func self) j
                   ++ [EvCall (primary_name self) processed_text
                         REQUEST_TIMEOUT (answer (primary_func self) j)])
        /\ (enable_fallback self = true ->
            forall (j : nat) (tr : pystr),
              (j < Z.to_nat max_retries)%nat ->
              (forall i, (i < Z.to_nat max_retries)%nat ->
                         accepts text (answer (primary_func self) i) = None) ->
              (forall i, (i < j)%nat ->
                         accepts text (answer (secondary_func self) i)
                         = None) ->
              accepts text (answer (secondary_func self) j) = Some tr ->
              fst (fst run)
              = Ok (Some (Postprocessing.postprocess_translation tr),
                    secondary_name self, None)
              /\ engine_events (snd run)
                 = failures (primary_name self) (primary_func self)
                     (Z.to_nat max_retries)
                   ++ failures (secondary_name self) (secondary_func self) j
                   ++ [EvCall (secondary_name self) processed_text
                         REQUEST_TIMEOUT (answer (secondary_func self) j)]))
    /\ (primary_api self = py "nvidia" ->
        primary_name self = py "nvidia" /\ primary_func self = Nvidia)
    /\ (primary_api self = py "fanar" ->
        primary_name self = py "fanar" /\ primary_func self = Fanar).
Proof.
  intros env self text max_retries w. cbv zeta.
  set (processed_text :=
         Preprocessing.preprocess_for_translation (unicode env) text
           (normalize_provider_terms self)).
  split; [|split; [|split]].
  - destruct (accepted_call_ends_run env self text max_retries w)
      as [Hsafe _].
    exact Hsafe.
  - intros Hlim. split; [|split].
    + unfold translate_with_retry. fold processed_text.
      destruct (apis_cases self) as (pf & more & -> & Hmore & Hoff).
      destruct Hmore as [->|[sf ->]].
      * destruct (apis_loop_fallback env self processed_text text max_retries
                    Hlim (primary_name self) (secondary_name self) pf pf []
                    w)
          as (a & b & H & _ & Hb); [now left|].
        exists a, b. split; [exact H|]. intros Hne.
        now specialize (Hb eq_refl).
      * destruct (apis_loop_fallback env self processed_text text max_retries
                    Hlim (primary_name self) (secondary_name self) pf sf
                    [(secondary_name self, sf)] w)
          as (a & b & H & Ha & _); [now right|].
        exists a, b. split; [exact H|]. intros Hne. split; [now apply Ha|].
        destruct (enable_fallback self); [reflexivity|].
        specialize (Hoff eq_refl). discriminate.
    + intros j tr Hj Hrej Hacc.
      unfold translate_with_retry. fold processed_text.
      rewrite apis_providers. cbn [apis_loop].
      destruct (range_split_at max_retries j Hj) as [rest ->].
      assert (Hlen : List.length (Pandas.range 0 (Z.of_nat j)) = j)
        by (rewrite range_length; lia).
      destruct (attempts_loop_first_valid env self (primary_name self)
                  (primary_func self) processed_text text max_retries Hlim
                  (Pandas.range 0 (Z.of_nat j)) (Z.of_nat j) rest tr w)
        as (w' & evs & Hloop & Hev).
      { intros i Hi. apply Hrej. lia. }
      { rewrite Hlen. exact Hacc. }
      erewrite bind_ok by exact Hloop. cbn [fst snd ret].
      rewrite app_nil_r. split; [reflexivity|].
      rewrite Hev, Hlen. reflexivity.
    + intros Hfb j tr Hj Hprim Hrej Hacc.
      unfold translate_with_retry. fold processed_text.
      rewrite apis_providers, Hfb. cbn [apis_loop].
      destruct (attempts_loop_rejected env self (primary_name self)
                  (primary_func self) processed_text text max_retries Hlim
                  (Pandas.range 0 max_retries) w)
        as (w1 & evs1 & H1 & Hev1 & Hq1).
      { intros i Hi. apply Hprim. rewrite range_length in Hi. lia. }
      erewrite bind_ok by exact H1. cbv beta iota. cbn [apis_loop].
      pose proof (Hq1 (secondary_func self) (secondary_is_other self))
        as Hsame.
      destruct (range_split_at max_retries j Hj) as [rest Hsplit].
      rewrite Hsplit.
      assert (Hlen : List.length (Pandas.range 0 (Z.of_nat j)) = j)
        by (rewrite range_length; lia).
      destruct (attempts_loop_first_valid env self (secondary_name self)
                  (secondary_func self) processed_text text max_retries Hlim
                  (Pandas.range 0 (Z.of_nat j)) (Z.of_nat j) rest tr w1)
        as (w2 & evs2 & H2 & Hev2).
      { intros i Hi. rewrite Hsame. apply Hrej. lia. }
      { rewrite Hsame, Hlen. exact Hacc. }
      erewrite bind_ok by exact H2. cbn [fst snd ret].
      rewrite app_nil_r. split; [reflexivity|].
      rewrite engine_events_app, Hev1, Hev2, Hsame, Hlen.
      replace (Z.of_nat (Z.to_nat max_retries)) with max_retries by lia.
      reflexivity.
  - intros E. split; [now apply primary_name_is_configured
                     | now apply primary_func_is_configured].
  - intros E. split; [now apply primary_name_is_configured
                     | now apply primary_func_is_configured].
Qed.

(** The scenario of the specification: NVIDIA fails once and then gives a
    valid translation, which is returned after two calls of NVIDIA and one
    backoff, Fanar not being called.  And NVIDIA failing three times, the
    answer of Fanar at its first call is returned. *)
Lemma first_valid_result_wins_witness :
  (let run :=
     translate_with_retry Scenarios.recovering_env Scenarios.with_fallback
       (py "Hello") 3 Samples.fresh_world in
   fst (fst run) = Ok (Some Samples.marhaba, py "nvidia", None)
   /\ engine_events (snd run)
      = [ EvCall (py "nvidia") (py "Hello") 30 Samples.api_error;
          EvBackoff (inject_Z 1);
          EvCall (py "nvidia") (py "Hello") 30
            (Samples.api_ok Samples.marhaba) ])
  /\ (let run :=
        translate_with_retry Scenarios.fanar_rescues_env
          Scenarios.with_fallback (py "Hello") 3 Samples.fresh_world in
      fst (fst run) = Ok (Some Samples.marhaba, py "fanar", None)
      /\ call_names (snd run)
         = [py "nvidia"; py "nvidia"; py "nvidia"; py "fanar"]).
Proof.
  split.
  - destruct (first_valid_result_wins Scenarios.recovering_env
                Scenarios.with_fallback (py "Hello") 3 Samples.fresh_world)
      as (_ & Hlive & _).
    destruct (Hlive I) as (_ & Hprimary & _).
    destruct (Hprimary 1%nat Samples.marhaba) as [Hres Hev].
    + cbn. lia.
    + intros i Hi. assert (i = 0%nat) by lia. subst i. reflexivity.
    + reflexivity.
    + cbv zeta. split; [exact Hres|]. rewrite Hev. reflexivity.
  - destruct (first_valid_result_wins Scenarios.fanar_rescues_env
                Scenarios.with_fallback (py "Hello") 3 Samples.fresh_world)
      as (_ & Hlive & _).
    destruct (Hlive I) as (_ & _ & Hfallback).
    destruct (Hfallback eq_refl 0%nat Samples.marhaba) as [Hres Hev].
    + cbn. lia.
    + intros i Hi. reflexivity.
    + intros i Hi. lia.
    + reflexivity.
    + cbv zeta. split; [exact Hres|].
      rewrite <- call_names_engine, Hev. reflexivity.
Defined.
End AnswerFacts.
